(** * The permuter@home client: secure port and connection state machine

    A shallow embedding of [src/net/common.py] ([read_config],
    [write_config], [socket_read_fixed], [json_prop], [Port]) and of
    [src/net/client.py] ([_profiler_from_json], [_result_from_json],
    [_make_script_portable], [PortablePermuter], [Connection],
    [start_client]) together with the properties of the protocol that the
    specification states about them and further properties that the code
    itself shows.

    Python values are modelled as follows.  An [int] is a [Z]; [bytes] is a
    list of [byte]; a [str] is a [string]; a [float] is an IEEE 754 value
    of [spec_float]; a [dict] read from JSON or TOML is an association
    list in key order.  Code that mutates
    objects (the socket, the port's counters, the queues) runs in a state
    monad whose computations end by returning, by raising, or by waiting
    for ever, on an empty queue or on a connection that stays silent.
    A socket delivers its stream in pieces and then ends, breaks with an
    error of the operating system, or stays silent. *)

From Stdlib Require Import ZArith List Sorted String Ascii Bool Lia.
From Stdlib Require Import Strings.Byte.
From Stdlib Require Import SpecFloat DecimalString.
Import ListNotations.

Open Scope string_scope.
Open Scope list_scope.
Open Scope Z_scope.

(* ================================================================== *)
(** * Bytes and [struct] *)
(* ================================================================== *)

Definition bytes := list byte.

(** [len(b)] as a Python integer. *)
Definition len {A : Type} (l : list A) : Z := Z.of_nat (List.length l).

Definition byte_of_Z (z : Z) : byte :=
  match Byte.of_N (Z.to_N (z mod 256)) with
  | Some b => b
  | None => x00
  end.

Definition Z_of_byte (b : byte) : Z := Z.of_N (Byte.to_N b).

(** Big-endian encoding of the [k] low bytes of [n], most significant first. *)
Fixpoint be_encode (k : nat) (n : Z) : bytes :=
  match k with
  | O => []
  | S k' => be_encode k' (n / 256) ++ [byte_of_Z n]
  end.

Definition be_decode (bs : bytes) : Z :=
  fold_left (fun acc b => acc * 256 + Z_of_byte b) bs 0.

(* ================================================================== *)
(** * Exceptions and outcomes *)
(* ================================================================== *)

(** The exception classes that the modelled code raises or names in a
    handler; every one of them derives from [Exception]. *)
Inductive exn_class : Type :=
| Exception
| EOFError
| ValueError
| AttributeError
| KeyError
| OSError
| struct_error
| OtherError (name : string).

Record exn : Type := PyExc { exc_class : exn_class; exc_msg : string }.

(** [isinstance(e, EOFError)], the test of [except EOFError]. *)
Definition is_EOFError (e : exn) : bool :=
  match exc_class e with
  | EOFError => true
  | _ => false
  end.

(** How a computation ends: it returns, it raises, it blocks for ever (a
    [get] on a queue that stays empty, a [recv] on a connection that
    stays silent), or the model's loop bound ran out (shown below never
    to happen for the bounds the model passes). *)
Inductive outcome (A : Type) : Type :=
| Ret (a : A)
| Raise (e : exn)
| Blocked
| OutOfFuel.

Arguments Ret {A} a.
Arguments Raise {A} e.
Arguments Blocked {A}.
Arguments OutOfFuel {A}.

(** State passing: the state survives a raise, as mutations do in Python. *)
Definition M (S A : Type) : Type := S -> outcome A * S.

Definition ret {S A : Type} (a : A) : M S A := fun s => (Ret a, s).

Definition raise {S A : Type} (e : exn) : M S A := fun s => (Raise e, s).

Definition bind {S A B : Type} (m : M S A) (k : A -> M S B) : M S B :=
  fun s =>
    match m s with
    | (Ret a, s') => k a s'
    | (Raise e, s') => (Raise e, s')
    | (Blocked, s') => (Blocked, s')
    | (OutOfFuel, s') => (OutOfFuel, s')
    end.

Definition gets {S A : Type} (f : S -> A) : M S A := fun s => (Ret (f s), s).

Definition modify {S : Type} (f : S -> S) : M S unit := fun s => (Ret tt, f s).

(** A result of a pure call that may raise. *)
Definition lift_sum {S A : Type} (r : exn + A) : M S A :=
  match r with
  | inl e => raise e
  | inr a => ret a
  end.

(** Run a computation on a component of a larger state. *)
Definition zoom {S T A : Type} (get : T -> S) (set : S -> T -> T)
  (m : M S A) : M T A :=
  fun t => let (o, s') := m (get t) in (o, set s' t).

Declare Scope py_scope.
Delimit Scope py_scope with py.
Notation "x <- m ;; k" := (bind m (fun x => k))
  (at level 61, m at next level, right associativity) : py_scope.
Notation "m ;; k" := (bind m (fun _ => k))
  (at level 61, right associativity) : py_scope.
Open Scope py_scope.

(** [struct.pack(">Q", n)]: eight bytes, [struct.error] outside u64. *)
Definition struct_pack_Q (n : Z) : exn + bytes :=
  if (0 <=? n) && (n <? 2 ^ 64)
  then inr (be_encode 8 n)
  else inl (PyExc struct_error "argument out of range").

(** [struct.pack(">24xQ", n)]: twenty-four pad bytes, then the u64. *)
Definition struct_pack_24xQ (n : Z) : exn + bytes :=
  match struct_pack_Q n with
  | inl e => inl e
  | inr q => inr (repeat x00 24 ++ q)
  end.

(** [struct.pack(">I", n)]. *)
Definition struct_pack_I (n : Z) : exn + bytes :=
  if (0 <=? n) && (n <? 2 ^ 32)
  then inr (be_encode 4 n)
  else inl (PyExc struct_error "argument out of range").

(** [struct.unpack(">Q", data)[0]]. *)
Definition struct_unpack_Q (data : bytes) : exn + Z :=
  if len data =? 8
  then inr (be_decode data)
  else inl (PyExc struct_error "unpack requires a buffer of 8 bytes").

(* ================================================================== *)
(** * The socket *)
(* ================================================================== *)

(** How the stream goes on once every piece of it has been delivered:
    the peer has closed it, the connection has failed with an error of
    the operating system (a reset, a timeout of the transport), or
    nothing more ever arrives. *)
Inductive stream_end : Type :=
| EndOfStream
| Broken (e : exn)
| Silent.

(** A connected stream socket seen from this end: [incoming] is what the
    peer delivers from now on, cut into the pieces that successive [recv]
    calls can see at once, and [ending] is what follows them; [sent] is
    every byte handed to [sendall] so far. *)
Record socket : Type := mk_socket {
  incoming : list bytes;
  sent : bytes;
  wr_shut : bool;
  rd_shut : bool;
  closed : bool;
  ending : stream_end
}.

Definition set_incoming (i : list bytes) (k : socket) : socket :=
  mk_socket i (sent k) (wr_shut k) (rd_shut k) (closed k) (ending k).

(** [sock.recv(bufsize)]: up to [bufsize] bytes of the first piece, also
    after this side has shut down reading.  When no piece is left: [b""]
    if the stream has ended or reading was shut down, the error of the
    connection if it has failed, and otherwise the call waits for ever. *)
Definition sock_recv (bufsize : Z) : M socket bytes :=
  fun k =>
    if closed k then (Raise (PyExc OSError "Bad file descriptor"), k)
    else
      match incoming k with
      | [] =>
          if rd_shut k then (Ret [], k)
          else
            match ending k with
            | EndOfStream => (Ret [], k)
            | Broken e => (Raise e, k)
            | Silent => (Blocked, k)
            end
      | piece :: rest =>
          let n := Z.to_nat bufsize in
          let data := firstn n piece in
          match skipn n piece with
          | [] => (Ret data, set_incoming rest k)
          | more => (Ret data, set_incoming (more :: rest) k)
          end
      end.

(** [sock.sendall(data)]: the transport takes every byte at once; the
    call raises on a socket that this side has closed or shut down for
    writing.  A failure of the transport while sending is not part of the
    model. *)
Definition sock_sendall (data : bytes) : M socket unit :=
  fun k =>
    if closed k then (Raise (PyExc OSError "Bad file descriptor"), k)
    else if wr_shut k then (Raise (PyExc OSError "Broken pipe"), k)
    else (Ret tt, mk_socket (incoming k) (sent k ++ data) false (rd_shut k) false
                   (ending k)).

Inductive shut_how : Type := SHUT_RD | SHUT_WR | SHUT_RDWR.

(** [sock.shutdown(how)] with every error swallowed. *)
Definition sock_shutdown (how : shut_how) : M socket unit :=
  fun k =>
    if closed k then (Ret tt, k)
    else
      let w := match how with SHUT_RD => wr_shut k | _ => true end in
      let r := match how with SHUT_WR => rd_shut k | _ => true end in
      (Ret tt, mk_socket (incoming k) (sent k) w r false (ending k)).

(** [sock.close()]. *)
Definition sock_close : M socket unit :=
  fun k =>
    (Ret tt, mk_socket (incoming k) (sent k) (wr_shut k) (rd_shut k) true
               (ending k)).

(** The [while n > 0] loop of [socket_read_fixed]; [chunks] is the list
    [ret] of chunks read so far.  Every round reads at least one byte,
    raises or waits for ever, so [n] rounds are enough: [fuel] counts
    them. *)
Fixpoint socket_read_fixed_loop (fuel : nat) (n : Z) (chunks : list bytes)
  : M socket bytes :=
  if n >? 0 then
    match fuel with
    | O => fun k => (OutOfFuel, k)
    | S fuel' =>
        data <- sock_recv (Z.min n 4096) ;;
        match data with
        | [] => raise (PyExc Exception "eof")
        | _ => socket_read_fixed_loop fuel' (n - len data) (chunks ++ [data])
        end
    end
  else ret (List.concat chunks).

Definition socket_read_fixed (n : Z) : M socket bytes :=
  socket_read_fixed_loop (Z.to_nat n) n [].

(* ================================================================== *)
(** * Python values read from JSON, and [json_prop] *)
(* ================================================================== *)

Set Warnings "-register-all".

(** What [json.loads] produces.  A [dict] keeps its keys in order. *)
Inductive pyobj : Type :=
| PyNone
| PyBool (b : bool)
| PyInt (n : Z)
| PyFloat (f : spec_float)
| PyStr (s : string)
| PyList (l : list pyobj)
| PyDict (d : list (string * pyobj)).

(** The classes passed as the [t] of [json_prop] and [json_array]. *)
Inductive pytype : Type := t_bool | t_int | t_float | t_str | t_list | t_dict.

(** [t.__name__]. *)
Definition type_name (t : pytype) : string :=
  match t with
  | t_bool => "bool"
  | t_int => "int"
  | t_float => "float"
  | t_str => "str"
  | t_list => "list"
  | t_dict => "dict"
  end.

(** [type(v).__name__]. *)
Definition found_type_name (v : pyobj) : string :=
  match v with
  | PyNone => "NoneType"
  | PyBool _ => "bool"
  | PyInt _ => "int"
  | PyFloat _ => "float"
  | PyStr _ => "str"
  | PyList _ => "list"
  | PyDict _ => "dict"
  end.

(** [isinstance(v, t)]; [bool] is a subclass of [int]. *)
Definition isinstance (v : pyobj) (t : pytype) : bool :=
  match v, t with
  | PyBool _, t_bool => true
  | PyBool _, t_int => true
  | PyInt _, t_int => true
  | PyFloat _, t_float => true
  | PyStr _, t_str => true
  | PyList _, t_list => true
  | PyDict _, t_dict => true
  | _, _ => false
  end.

(** [d.get(k)] on the entries of a dict, [None] when the key is absent. *)
Fixpoint dict_get (d : list (string * pyobj)) (k : string) : pyobj :=
  match d with
  | [] => PyNone
  | (k', v) :: d' => if String.eqb k' k then v else dict_get d' k
  end.

(** [k in d]. *)
Fixpoint dict_has (d : list (string * pyobj)) (k : string) : bool :=
  match d with
  | [] => false
  | (k', _) :: d' => String.eqb k' k || dict_has d' k
  end.

(** [obj.get(prop)]; only a dict has the method. *)
Definition py_get (obj : pyobj) (prop : string) : exn + pyobj :=
  match obj with
  | PyDict d => inr (dict_get d prop)
  | _ => inl (PyExc AttributeError
                ("'" ++ found_type_name obj ++ "' object has no attribute 'get'")%string)
  end.

Definition json_prop (obj : pyobj) (prop : string) (t : pytype) : exn + pyobj :=
  match py_get obj prop with
  | inl e => inl e
  | inr ret =>
      if negb (isinstance ret t) then
        let found_type := found_type_name ret in
        inl (PyExc ValueError
               ("Member " ++ prop ++ " must have type " ++ type_name t
                ++ "; got " ++ found_type)%string)
      else inr ret
  end.

(** The value of an object that passed [isinstance(_, int)]. *)
Definition int_value (v : pyobj) : Z :=
  match v with
  | PyInt n => n
  | PyBool true => 1
  | _ => 0
  end.

Definition float_value (v : pyobj) : spec_float :=
  match v with
  | PyFloat f => f
  | _ => S754_nan
  end.

Definition str_value (v : pyobj) : string :=
  match v with
  | PyStr s => s
  | _ => EmptyString
  end.

(** Truth value of an object that passed [isinstance(_, bool)]. *)
Definition bool_value (v : pyobj) : bool :=
  match v with
  | PyBool b => b
  | _ => false
  end.

(** The binary64 value [1.0]. *)
Definition float_one : spec_float := S754_finite false 4503599627370496 (-52).

(** [v == True]: numbers compare by value, so [1] and [1.0] are equal to
    [True]; nothing that is not a number is. *)
Definition eq_True (v : pyobj) : bool :=
  match v with
  | PyBool b => b
  | PyInt n => n =? 1
  | PyFloat f => SFeqb f float_one
  | _ => false
  end.

(* ================================================================== *)
(** * What the code calls and this repository does not define *)
(* ================================================================== *)

(** [nacl.public.Box(private_key, public_key)]. *)
Record Box : Type := mk_Box { box_private : bytes; box_public : bytes }.

(** Keys are known by their encodings. *)
Record SigningKey : Type := mk_SigningKey { signing_seed : bytes }.
Record VerifyKey : Type := mk_VerifyKey { verify_bytes : bytes }.
Record PrivateKey : Type := mk_PrivateKey { private_bytes : bytes }.
Record PublicKey : Type := mk_PublicKey { public_bytes : bytes }.

(** [Profiler.StatType], an enumeration of the profiler module. *)
Record StatType : Type := mk_StatType { stat_name : string }.

(** The library functions and the helpers of other modules that the code
    calls.  Nothing is assumed about them except their types: a call that
    can raise returns [inl e]. *)
Record Externals : Type := {
  (** [box.encrypt(msg, nonce)] and [box.decrypt(data, nonce)]. *)
  Box_encrypt : Box -> bytes -> bytes -> exn + bytes;
  Box_decrypt : Box -> bytes -> bytes -> exn + bytes;
  (** [json.loads(b)] and [json.dumps(obj).encode("utf-8")]. *)
  json_loads : bytes -> exn + pyobj;
  json_dumps : pyobj -> bytes;
  (** [zlib.decompress(b)] and [b.decode("utf-8")]. *)
  zlib_decompress : bytes -> exn + bytes;
  decode_utf8 : bytes -> exn + string;
  (** How an f-string prints a number. *)
  fmt_float : spec_float -> string;
  fmt_int : pyobj -> string;
  (** [signing_key.verify_key], [key.encode()], [ephemeral_key.public_key],
      [PublicKey(b)]. *)
  verify_key_of : SigningKey -> VerifyKey;
  public_key_of : PrivateKey -> PublicKey;
  PublicKey_new : bytes -> exn + PublicKey;
  (** Helpers that [client.py] imports from [common] and whose source is
      not at hand. *)
  sign_with_magic : bytes -> SigningKey -> bytes -> bytes;
  verify_with_magic : bytes -> VerifyKey -> bytes -> exn + bytes;
  exception_to_string : exn -> string;
  (** [Profiler.StatType[key]], [None] for a [KeyError]. *)
  StatType_item : string -> option StatType
}.

(* ================================================================== *)
(** * [Port] *)
(* ================================================================== *)

Record Port : Type := mk_Port {
  _box : Box;
  _send_nonce : Z;
  _receive_nonce : Z
}.

(** [Port.__init__]; the socket itself lives in the channel state below. *)
Definition Port_init (box : Box) (is_client : bool) : Port :=
  mk_Port box (if is_client then 0 else 1) (if is_client then 1 else 0).

(** The calls made on the box, in order, with their arguments. *)
Inductive box_call : Type :=
| Encrypt (msg nonce : bytes)
| Decrypt (data nonce : bytes).

(** A port with the socket it holds ([self._sock]) and the record of its
    box calls. *)
Record chan : Type := mk_chan {
  chan_sock : socket;
  chan_port : Port;
  chan_log : list box_call
}.

Definition set_sock (k : socket) (c : chan) : chan :=
  mk_chan k (chan_port c) (chan_log c).

Definition set_port (p : Port) (c : chan) : chan :=
  mk_chan (chan_sock c) p (chan_log c).

Definition on_sock {A : Type} (m : M socket A) : M chan A :=
  zoom chan_sock set_sock m.

Definition log_call (b : box_call) : M chan unit :=
  modify (fun c => mk_chan (chan_sock c) (chan_port c) (chan_log c ++ [b])).

Section WithExternals.

Variable E : Externals.

Definition Port_send (msg : bytes) : M chan unit :=
  self <- gets chan_port ;;
  nonce <- lift_sum (struct_pack_24xQ (_send_nonce self)) ;;
  modify (set_port (mk_Port (_box self) (_send_nonce self + 2)
                            (_receive_nonce self))) ;;
  log_call (Encrypt msg nonce) ;;
  data <- lift_sum (Box_encrypt E (_box self) msg nonce) ;;
  length_data <- lift_sum (struct_pack_Q (len data)) ;;
  on_sock (sock_sendall (length_data ++ data)).

Definition Port_send_json (msg : pyobj) : M chan unit :=
  Port_send (json_dumps E msg).

Definition Port_receive : M chan bytes :=
  length_data <- on_sock (socket_read_fixed 8) ;;
  length <- lift_sum (struct_unpack_Q length_data) ;;
  data <- on_sock (socket_read_fixed length) ;;
  self <- gets chan_port ;;
  nonce <- lift_sum (struct_pack_24xQ (_receive_nonce self)) ;;
  modify (set_port (mk_Port (_box self) (_send_nonce self)
                            (_receive_nonce self + 2))) ;;
  log_call (Decrypt data nonce) ;;
  lift_sum (Box_decrypt E (_box self) data nonce).

Definition Port_receive_json : M chan pyobj :=
  raw <- Port_receive ;;
  ret_ <- lift_sum (json_loads E raw) ;;
  if negb (isinstance ret_ t_dict) then
    raise (PyExc ValueError "Top-level JSON value must be a dictionary")
  else ret ret_.

End WithExternals.

(* ================================================================== *)
(** * The values exchanged with the orchestrating layer *)
(* ================================================================== *)

(** [Profiler]: the [add_stat] calls made on it, in order. *)
Record Profiler : Type := mk_Profiler { stats : list (StatType * spec_float) }.

Definition add_stat (p : Profiler) (stat : StatType) (time : spec_float)
  : Profiler :=
  mk_Profiler (stats p ++ [(stat, time)]).

(** [EvalResult = Union[CandidateResult, EvalError]]. *)
Inductive EvalResult : Type :=
| EvalError (exc_str : string) (seed : option Z)
| CandidateResult (score : pyobj) (hash : string) (source : option string)
    (profiler : Profiler).

(** [Feedback = Union[NeedMoreWork, WorkDone, Message, Finished]]. *)
Inductive Feedback : Type :=
| NeedMoreWork
| WorkDone (perm_index : pyobj) (result : EvalResult)
| Message (text : string)
| Finished (reason : option string).

(** [Task = Union[Finished, Tuple[int, int]]]. *)
Inductive Task : Type :=
| TaskFinished (reason : option string)
| TaskWork (permuter : Z) (seed : Z).

Record ServerProps : Type := mk_ServerProps {
  min_priority : spec_float;
  num_cpus : spec_float
}.

Record PortablePermuter : Type := mk_PortablePermuter {
  fn_name : string;
  filename : string;
  keep_prob : spec_float;
  stack_differences : bool;
  compressed_source : bytes;
  base_score : Z;
  base_hash : string;
  target_o_bin : bytes;
  compile_script : string
}.

Record RemoteServer : Type := mk_RemoteServer {
  ip : string;
  port : Z;
  ver_key : VerifyKey
}.

(** [server.nickname]: the dataclass [RemoteServer] has the fields [ip],
    [port] and [ver_key] and no other, so reading the attribute raises
    [AttributeError]. *)
Definition no_nickname : exn :=
  PyExc AttributeError "'RemoteServer' object has no attribute 'nickname'".

Definition RemoteServer_nickname (server : RemoteServer) : exn + string :=
  inl no_nickname.

Record Config : Type := mk_Config {
  auth_server : string;
  auth_verify_key : VerifyKey;
  signing_key : SigningKey
}.

Definition PROTOCOL_VERSION : Z := 1.

(** The attributes of a [Connection] that [run] only reads. *)
Record Connection : Type := mk_Connection {
  _config : Config;
  _server : RemoteServer;
  _grant : bytes;
  _permuters : list PortablePermuter;
  _priority : spec_float
}.

(** What [run] changes, and what its surroundings decide.  [self_sock]
    says whether [self._sock] has been assigned; the socket it then names
    is the one of [conn].  [connect_error] is what
    [socket.create_connection] raises, if anything, and [ephemeral] what
    [PrivateKey.generate()] returns. *)
Record state : Type := mk_state {
  conn : chan;
  self_sock : bool;
  _task_queue : list Task;
  _feedback_queue : list (Feedback * string);
  connect_error : option exn;
  ephemeral : PrivateKey
}.

Definition set_conn (c : chan) (s : state) : state :=
  mk_state c (self_sock s) (_task_queue s) (_feedback_queue s)
    (connect_error s) (ephemeral s).

Definition on_port {A : Type} (m : M chan A) : M state A :=
  zoom conn set_conn m.

Definition on_socket {A : Type} (m : M socket A) : M state A :=
  on_port (on_sock m).

(** [self._feedback_queue.put(item)]. *)
Definition feedback_put (item : Feedback * string) : M state unit :=
  modify (fun s => mk_state (conn s) (self_sock s) (_task_queue s)
                     (_feedback_queue s ++ [item]) (connect_error s)
                     (ephemeral s)).

(** [self._task_queue.get()]: blocks while the queue is empty. *)
Definition task_get : M state Task :=
  fun s =>
    match _task_queue s with
    | [] => (Blocked, s)
    | task :: rest =>
        (Ret task, mk_state (conn s) (self_sock s) rest (_feedback_queue s)
                     (connect_error s) (ephemeral s))
    end.

(** [socket.create_connection(...)] followed by [self._sock = sock]. *)
Definition create_connection : M state unit :=
  fun s =>
    match connect_error s with
    | Some e => (Raise e, s)
    | None =>
        (Ret tt, mk_state (conn s) true (_task_queue s) (_feedback_queue s)
                   (connect_error s) (ephemeral s))
    end.

(** Modelled from the spec: [socket_shutdown] is a helper of [common]
    whose source is not at hand; the stream is "forcibly shut down" and the
    teardown "never raises". *)
Definition socket_shutdown (how : shut_how) : M socket unit :=
  sock_shutdown how.

(** Modelled from the spec: the source of [SocketPort] is not at hand; it is
    built like a [Port] and its [shutdown] "half-close[s] the write
    direction of the underlying stream" when given [SHUT_WR]. *)
Definition SocketPort_shutdown (how : shut_how) : M chan unit :=
  on_sock (socket_shutdown how).

(** Modelled from the spec: [json_array] is a helper of [common] whose
    source is not at hand; a "wrong JSON shape" is a protocol violation,
    so the list is returned when every element has the type [t]. *)
Definition json_array (obj : pyobj) (t : pytype) : exn + list pyobj :=
  match obj with
  | PyList l =>
      if forallb (fun elem => isinstance elem t) l then inr l
      else inl (PyExc ValueError
                  ("Array elements must have type " ++ type_name t)%string)
  | _ => inl (PyExc (OtherError "TypeError") "object is not iterable")
  end.

(* ================================================================== *)
(** * [_result_from_json] and [Connection] *)
(* ================================================================== *)

Definition dict_keys (obj : pyobj) : list string :=
  match obj with
  | PyDict d => map fst d
  | _ => []
  end.

Definition key_in (prop : string) (obj : pyobj) : bool :=
  match obj with
  | PyDict d => dict_has d prop
  | _ => false
  end.

Definition bytes_of (s : string) : bytes := list_byte_of_string s.

Section Client.

Variable E : Externals.

(** The [for key in obj] loop of [_profiler_from_json]. *)
Fixpoint _profiler_from_json_loop (obj : pyobj) (keys : list string)
  (ret_ : Profiler) : exn + Profiler :=
  match keys with
  | [] => inr ret_
  | key :: keys' =>
      match StatType_item E key with
      | None => inl (PyExc KeyError key)
      | Some stat =>
          match json_prop obj key t_float with
          | inl e => inl e
          | inr time =>
              _profiler_from_json_loop obj keys'
                (add_stat ret_ stat (float_value time))
          end
      end
  end.

Definition _profiler_from_json (obj : pyobj) : exn + Profiler :=
  _profiler_from_json_loop obj (dict_keys obj) (mk_Profiler []).

Definition _result_from_json (obj : pyobj) (source : option string)
  : exn + EvalResult :=
  if key_in "error" obj then
    match json_prop obj "error" t_str with
    | inl e => inl e
    | inr err => inr (EvalError (str_value err) None)
    end
  else
    match json_prop obj "profiler" t_dict with
    | inl e => inl e
    | inr prof =>
        match _profiler_from_json prof with
        | inl e => inl e
        | inr profiler =>
            match json_prop obj "score" t_int with
            | inl e => inl e
            | inr score =>
                match json_prop obj "hash" t_str with
                | inl e => inl e
                | inr hash =>
                    inr (CandidateResult score (str_value hash) source profiler)
                end
            end
        end
    end.

Variable self : Connection.

(** [self._feedback_queue.put((f, self._server.nickname))]: the tuple
    is built, and with it the attribute read, before [put] is called. *)
Definition put (f : Feedback) : M state unit :=
  nickname <- lift_sum (RemoteServer_nickname (_server self)) ;;
  feedback_put (f, nickname).

(** [Connection._setup]; the port it returns is the one of the state. *)
Definition _setup : M state unit :=
  create_connection ;;
  ephemeral_key <- gets ephemeral ;;
  version <- lift_sum (struct_pack_I PROTOCOL_VERSION) ;;
  on_socket
    (sock_sendall
       (version
        ++ verify_bytes (verify_key_of E (signing_key (_config self)))
        ++ sign_with_magic E (bytes_of "CLIENT") (signing_key (_config self))
             (public_bytes (public_key_of E ephemeral_key)))) ;;
  msg <- on_socket (socket_read_fixed (7 + 32 + 64)) ;;
  inner_msg <- lift_sum (verify_with_magic E (bytes_of "SERVER")
                           (ver_key (_server self)) msg) ;;
  server_enc_key <- lift_sum (PublicKey_new E inner_msg) ;;
  let box := mk_Box (private_bytes ephemeral_key) (public_bytes server_enc_key) in
  on_port (modify (set_port (Port_init box true))) ;;
  on_port (Port_receive E) ;;
  ret tt.

Definition _init : M state ServerProps :=
  on_port (Port_send E (_grant self)) ;;
  raw <- on_port (Port_receive E) ;;
  obj <- lift_sum (json_loads E raw) ;;
  min_priority_ <- lift_sum (json_prop obj "min_priority" t_float) ;;
  num_cpus_ <- lift_sum (json_prop obj "num_cpus" t_float) ;;
  ret (mk_ServerProps (float_value min_priority_) (float_value num_cpus_)).

Definition permuter_obj (permuter : PortablePermuter) : pyobj :=
  PyDict [ ("fn_name", PyStr (fn_name permuter));
           ("filename", PyStr (filename permuter));
           ("keep_prob", PyFloat (keep_prob permuter));
           ("stack_differences", PyBool (stack_differences permuter));
           ("compile_script", PyStr (compile_script permuter)) ].

Definition init_obj : pyobj :=
  PyDict [ ("priority", PyFloat (_priority self));
           ("permuters", PyList (map permuter_obj (_permuters self))) ].

(** The second [for] loop of [_send_permuters]. *)
Fixpoint send_blobs (permuters : list PortablePermuter) : M state unit :=
  match permuters with
  | [] => ret tt
  | permuter :: rest =>
      on_port (Port_send E (compressed_source permuter)) ;;
      on_port (Port_send E (target_o_bin permuter)) ;;
      send_blobs rest
  end.

Definition _send_permuters : M state unit :=
  on_port (Port_send_json E init_obj) ;;
  send_blobs (_permuters self).

(** The body of [for i, base in enumerate(bases)] in [run]. *)
Definition check_base (i : nat) (base : pyobj) : M state unit :=
  base_score_ <- lift_sum (json_prop base "base_score" t_int) ;;
  base_hash_ <- lift_sum (json_prop base "base_hash" t_str) ;;
  match nth_error (_permuters self) i with
  | None => raise (PyExc (OtherError "IndexError") "list index out of range")
  | Some permuter =>
      let my_base_score := base_score permuter in
      let my_base_hash := base_hash permuter in
      if negb (int_value base_score_ =? my_base_score) then
        raise (PyExc ValueError
                 ("mismatching base score! (" ++ fmt_int E base_score_
                  ++ " instead of " ++ fmt_int E (PyInt my_base_score) ++ ")")%string)
      else if negb (String.eqb (str_value base_hash_) my_base_hash) then
        put (Message "note: mismatching hash")
      else ret tt
  end.

Fixpoint check_bases (i : nat) (bases : list pyobj) : M state unit :=
  match bases with
  | [] => ret tt
  | base :: rest => check_base i base ;; check_bases (S i) rest
  end.

(** The [elif msg_type == "result"] branch of the main loop up to the
    assignment of [result]: the values of [permuter_index] and
    [result]. *)
Definition result_of (msg : pyobj) : M state (pyobj * EvalResult) :=
  permuter_index <- lift_sum (json_prop msg "permuter" t_int) ;;
  has_source <- lift_sum (py_get msg "has_source") ;;
  source <- (if eq_True has_source then
               compressed <- on_port (Port_receive E) ;;
               plain <- lift_sum (zlib_decompress E compressed) ;;
               text <- lift_sum (decode_utf8 E plain) ;;
               ret (Some text)
             else ret None) ;;
  result <- lift_sum (_result_from_json msg source) ;;
  ret (permuter_index, result).

(** The whole branch: the result is built, then reported. *)
Definition handle_result (msg : pyobj) : M state unit :=
  built <- result_of msg ;;
  put (WorkDone (fst built) (snd built)).

Definition finish_msg : pyobj := PyDict [ ("type", PyStr "finish") ].

Definition work_msg (permuter seed : Z) : pyobj :=
  PyDict [ ("type", PyStr "work");
           ("permuter", PyInt permuter);
           ("seed", PyInt seed) ].

(** The [if not finished] block at the head of the main loop; the result
    is the new value of [finished]. *)
Definition send_step (finished : bool) : M state bool :=
  if negb finished then
    task <- task_get ;;
    match task with
    | TaskFinished _ =>
        on_port (Port_send_json E finish_msg) ;;
        on_port (SocketPort_shutdown SHUT_WR) ;;
        ret true
    | TaskWork permuter seed =>
        on_port (Port_send_json E (work_msg permuter seed)) ;;
        ret finished
    end
  else ret finished.

(** The [while True] loop of [run].  Every round reads a whole message
    from the socket or raises, so the number of bytes still to come
    bounds the rounds: [fuel] counts them.  The result is the value of
    [finished] at the [break]. *)
Fixpoint main_loop (fuel : nat) (finished : bool) : M state bool :=
  match fuel with
  | O => fun s => (OutOfFuel, s)
  | S fuel' =>
      finished' <- send_step finished ;;
      msg <- on_port (Port_receive_json E) ;;
      msg_type <- lift_sum (json_prop msg "type" t_str) ;;
      if String.eqb (str_value msg_type) "finish" then ret finished'
      else if String.eqb (str_value msg_type) "need_work" then
        put NeedMoreWork ;; main_loop fuel' finished'
      else if String.eqb (str_value msg_type) "result" then
        handle_result msg ;; main_loop fuel' finished'
      else
        raise (PyExc ValueError
                 ("Invalid message type " ++ str_value msg_type)%string)
  end.

(** The number of bytes the peer still delivers. *)
Definition pending (s : state) : nat :=
  List.length (List.concat (incoming (chan_sock (conn s)))).

(** [run] from the baseline validation on. *)
Definition run_stream (msg : pyobj) : M state (option string) :=
  perm_bases <- lift_sum (json_prop msg "perm_bases" t_list) ;;
  bases <- lift_sum (json_array perm_bases t_dict) ;;
  if negb (len bases =? len (_permuters self)) then
    raise (PyExc ValueError "perm_bases has wrong size")
  else
    check_bases 0 bases ;;
    put NeedMoreWork ;;
    fuel <- gets pending ;;
    main_loop (S fuel) false ;;
    ret None.

(** [run] after the priority gate. *)
Definition run_session : M state (option string) :=
  _send_permuters ;;
  msg <- on_port (Port_receive_json E) ;;
  success <- lift_sum (json_prop msg "success" t_bool) ;;
  if negb (bool_value success) then
    error <- lift_sum (json_prop msg "error" t_str) ;;
    ret (Some ("failed to compile: " ++ str_value error)%string)
  else run_stream msg.

(** The [try] block of [run]; the result is the value of [finish_reason]
    when the block is left without an exception. *)
Definition run_try : M state (option string) :=
  _setup ;;
  props <- _init ;;
  if SFltb (_priority self) (min_priority props) then
    ret (Some ("skipping due to priority requirement "
               ++ fmt_float E (min_priority props))%string)
  else run_session.

(** The [finally] block of [run]. *)
Definition run_finally (finish_reason : option string) : M state unit :=
  put (Finished finish_reason) ;;
  has_sock <- gets self_sock ;;
  if has_sock then
    on_socket (socket_shutdown SHUT_RDWR) ;;
    on_socket sock_close
  else ret tt.

(** The [try] block of [run] with its two handlers: the result is the
    value of [finish_reason] with which the [finally] block is entered. *)
Definition run_reason : M state (option string) :=
  fun s =>
    match run_try s with
    | (Ret finish_reason, s') => (Ret finish_reason, s')
    | (Raise e, s') =>
        if is_EOFError e then (Ret (Some "disconnected"), s')
        else
          let errmsg := exception_to_string E e in
          (Ret (Some ("error: " ++ errmsg)%string), s')
    | (Blocked, s') => (Blocked, s')
    | (OutOfFuel, s') => (OutOfFuel, s')
    end.

(** [Connection.run]: the [try] block with its handlers, then the
    [finally] block. *)
Definition run : M state unit :=
  finish_reason <- run_reason ;;
  run_finally finish_reason.

End Client.

(* ================================================================== *)
(** * [_make_script_portable] *)
(* ================================================================== *)

(** [len(s)] of a string as a Python integer. *)
Definition str_len (s : string) : Z := Z.of_nat (String.length s).

(** [s.startswith(sub)]. *)
Fixpoint str_startswith (sub s : string) : bool :=
  match sub, s with
  | EmptyString, _ => true
  | String a sub', String b s' => Ascii.eqb b a && str_startswith sub' s'
  | String _ _, EmptyString => false
  end.

(** [s.split(sep)] for a separator of one character: the pieces between
    the separators, never an empty list. *)
Fixpoint str_split (sep : ascii) (s : string) : list string :=
  match s with
  | EmptyString => [EmptyString]
  | String c rest =>
      if Ascii.eqb c sep then EmptyString :: str_split sep rest
      else
        match str_split sep rest with
        | piece :: pieces => String c piece :: pieces
        | [] => [String c EmptyString]
        end
  end.

(** [sep.join(pieces)]. *)
Definition str_join (sep : string) (pieces : list string) : string :=
  String.concat sep pieces.

(** The regular expressions of [client.py]: a sequence of characters,
    each required ([c]) or optional ([c?]). *)
Inductive re_item : Type :=
| Lit (c : ascii)
| Opt (c : ascii).

(** [re.match(pattern, s) is not None]: the pattern matches at the start
    of [s]. *)
Fixpoint re_match (pattern : list re_item) (s : string) : bool :=
  match pattern with
  | [] => true
  | Lit c :: pattern' =>
      match s with
      | String a rest => Ascii.eqb a c && re_match pattern' rest
      | EmptyString => false
      end
  | Opt c :: pattern' =>
      match s with
      | String a rest =>
          (Ascii.eqb a c && re_match pattern' rest) || re_match pattern' s
      | EmptyString => re_match pattern' s
      end
  end.

(** ["cd '?/"] and ["'?/"]. *)
Definition re_cd_abs : list re_item :=
  [Lit "c"; Lit "d"; Lit " "; Opt "'"; Lit "/"]%char.

Definition re_abs : list re_item := [Opt "'"; Lit "/"]%char.

(** [s.find(sub)]: the lowest index at which [sub] starts, or -1. *)
Fixpoint find_from (sub s : string) (i : Z) : Z :=
  if str_startswith sub s then i
  else
    match s with
    | EmptyString => -1
    | String _ rest => find_from sub rest (i + 1)
    end.

Definition str_find (s sub : string) : Z := find_from sub s 0.

(** [s.rfind(c, 0, stop)] for one character [c] and [0 <= stop]: the
    highest index below [stop] at which [c] stands, or -1. *)
Fixpoint rfind_from (c : ascii) (s : string) (i stop last : Z) : Z :=
  match s with
  | EmptyString => last
  | String a rest =>
      if i <? stop
      then rfind_from c rest (i + 1) stop (if Ascii.eqb a c then i else last)
      else last
  end.

Definition str_rfind (s : string) (c : ascii) (stop : Z) : Z :=
  rfind_from c s 0 stop (-1).

Fixpoint str_drop (n : nat) (s : string) : string :=
  match n, s with
  | O, _ => s
  | S n', String _ rest => str_drop n' rest
  | S _, EmptyString => EmptyString
  end.

Fixpoint str_take (n : nat) (s : string) : string :=
  match n, s with
  | O, _ => EmptyString
  | S n', String c rest => String c (str_take n' rest)
  | S _, EmptyString => EmptyString
  end.

(** [s[a:b]] and [s[a:]] for indices that are not negative. *)
Definition str_slice (s : string) (a b : Z) : string :=
  str_take (Z.to_nat (b - a)) (str_drop (Z.to_nat a) s).

Definition str_slice_from (s : string) (a : Z) : string :=
  str_drop (Z.to_nat a) s.

(** The body of the [for line in ...] loop of [_make_script_portable]:
    [None] for [continue], otherwise the line that is appended. *)
Definition portable_line (line : string) : exn + option string :=
  if re_match re_cd_abs line then inr None
  else if re_match re_abs line then
    match line with
    | EmptyString =>
        inl (PyExc (OtherError "IndexError") "string index out of range")
    | String c0 _ =>
        let quote := if Ascii.eqb c0 "'" then "'" else "" in
        let ind := str_find line (quote ++ " ") in
        let ind := if ind =? -1 then str_len line else ind + str_len quote in
        let lastind := str_rfind line "/" ind in
        if lastind =? -1 then inl (PyExc (OtherError "AssertionError") "")
        else
          inr (Some ("$(which " ++ quote ++ str_slice line (lastind + 1) ind
                     ++ ")" ++ str_slice_from line ind)%string)
    end
  else inr (Some line).

(** The loop, with the list [lines] built so far. *)
Fixpoint portable_lines (todo : list string) (lines : list string)
  : exn + list string :=
  match todo with
  | [] => inr lines
  | line :: rest =>
      match portable_line line with
      | inl e => inl e
      | inr None => portable_lines rest lines
      | inr (Some line') => portable_lines rest (lines ++ [line'])
      end
  end.

Definition newline : string := String "010"%char EmptyString.

Definition _make_script_portable (source : string) : exn + string :=
  match portable_lines (str_split "010"%char source) [] with
  | inl e => inl e
  | inr lines => inr (str_join newline lines)
  end.

(* ================================================================== *)
(** * [PortablePermuter] and [start_client] *)
(* ================================================================== *)

(** What [PortablePermuter.__init__] reads of a [Permuter]:
    [permuter.fn_name], [permuter.source_file], [permuter.keep_prob],
    [permuter.scorer.stack_differences], [permuter.source],
    [permuter.base_score], [permuter.base_hash], and the two paths
    [permuter.scorer.target_o] and [permuter.compiler.compile_cmd]. *)
Record Permuter : Type := mk_Permuter {
  permuter_fn_name : string;
  source_file : string;
  permuter_keep_prob : spec_float;
  scorer_stack_differences : bool;
  permuter_source : string;
  permuter_base_score : Z;
  permuter_base_hash : string;
  scorer_target_o : string;
  compiler_compile_cmd : string
}.

(** The library calls and the files of [PortablePermuter.__init__]:
    [zlib.compress(b)], [s.encode("utf-8")], and what [open(path, "rb")]
    and [open(path, "r")] followed by [read()] return or raise. *)
Record Surroundings : Type := {
  zlib_compress : bytes -> bytes;
  encode_utf8 : string -> bytes;
  read_binary : string -> exn + bytes;
  read_text : string -> exn + string
}.

(** [PortablePermuter.__init__]. *)
Definition PortablePermuter_init (V : Surroundings) (permuter : Permuter)
  : exn + PortablePermuter :=
  let compressed :=
    zlib_compress V (encode_utf8 V (permuter_source permuter)) in
  match read_binary V (scorer_target_o permuter) with
  | inl e => inl e
  | inr target =>
      match read_text V (compiler_compile_cmd permuter) with
      | inl e => inl e
      | inr text =>
          match _make_script_portable text with
          | inl e => inl e
          | inr script =>
              inr (mk_PortablePermuter
                     (permuter_fn_name permuter) (source_file permuter)
                     (permuter_keep_prob permuter)
                     (scorer_stack_differences permuter)
                     compressed
                     (permuter_base_score permuter) (permuter_base_hash permuter)
                     target script)
          end
      end
  end.

(** [[PortablePermuter(p) for p in permuters]]. *)
Fixpoint portable_all (V : Surroundings) (permuters : list Permuter)
  : exn + list PortablePermuter :=
  match permuters with
  | [] => inr []
  | p :: rest =>
      match PortablePermuter_init V p with
      | inl e => inl e
      | inr portable =>
          match portable_all V rest with
          | inl e => inl e
          | inr portables => inr (portable :: portables)
          end
      end
  end.

(** What [start_client] does to the process: the lines it prints and the
    threads it starts, each known by the [Connection] whose [run] it
    executes. *)
Record process : Type := mk_process {
  stdout : list string;
  threads_started : list Connection
}.

Definition print (text : string) : M process unit :=
  modify (fun w => mk_process (stdout w ++ [text]) (threads_started w)).

(** [threading.Thread(target=conn.run)] with [daemon = True] and
    [start()]. *)
Definition thread_start (conn_ : Connection) : M process unit :=
  modify (fun w => mk_process (stdout w) (threads_started w ++ [conn_])).

(** The [for server in servers] loop of [start_client]. *)
Fixpoint start_threads (config : Config) (grant : bytes)
  (portable_permuters : list PortablePermuter) (priority : spec_float)
  (servers : list RemoteServer) (threads : list Connection)
  : M process (list Connection) :=
  match servers with
  | [] => ret threads
  | server :: rest =>
      let conn_ :=
        mk_Connection config server grant portable_permuters priority in
      thread_start conn_ ;;
      start_threads config grant portable_permuters priority rest
        (threads ++ [conn_])
  end.

(** [[s.nickname for s in servers]]. *)
Fixpoint nicknames_of (servers : list RemoteServer) : exn + list string :=
  match servers with
  | [] => inr []
  | server :: rest =>
      match RemoteServer_nickname server with
      | inl e => inl e
      | inr name =>
          match nicknames_of rest with
          | inl e => inl e
          | inr names => inr (name :: names)
          end
      end
  end.

(** [start_client]; the two queues are only handed on to the
    connections. *)
Definition start_client (V : Surroundings) (config : Config)
  (permuters : list Permuter) (priority : spec_float)
  : M process (list Connection) :=
  let grant : bytes := [] in
  let servers : list RemoteServer := [] in
  let threads : list Connection := [] in
  portable_permuters <- lift_sum (portable_all V permuters) ;;
  (match servers with
   | [] => print "No permuter@home servers online."
   | _ :: _ =>
       nicknames <- lift_sum (nicknames_of servers) ;;
       let name_list := str_join ", " nicknames in
       print ("Connecting to: " ++ name_list)%string
   end) ;;
  start_threads config grant portable_permuters priority servers threads.

(* ================================================================== *)
(** * [read_config] and [write_config] *)
(* ================================================================== *)

Definition CONFIG_FILENAME : string := "pah.conf".

(** [RawConfig]; [RawConfig.empty] is [RawConfig()]. *)
Module RawConfig.

Record t : Type := mk {
  auth_server : option string;
  auth_verify_key : option VerifyKey;
  signing_key : option SigningKey;
  initial_setup_nickname : option string
}.

Definition empty : t := mk None None None None.

End RawConfig.

(** The library calls of the two functions: [toml.load(f)] on the text
    of the file and [toml.dump(obj, f)] as the text written;
    [HexEncoder.decode(s)]; [key.encode(HexEncoder).decode("utf-8")] on
    the bytes of a key; [VerifyKey(b)] and [SigningKey(b)]. *)
Record ConfigLib : Type := {
  toml_load : string -> exn + list (string * pyobj);
  toml_dump : list (string * pyobj) -> string;
  HexEncoder_decode : string -> exn + bytes;
  HexEncoder_encode : bytes -> string;
  VerifyKey_new : bytes -> exn + VerifyKey;
  SigningKey_new : bytes -> exn + SigningKey
}.

(** The file [pah.conf] and the terminal: [pah_conf] is what
    [open(CONFIG_FILENAME)] and reading it give, its text or the
    exception of [open]; [write_error] is what
    [open(CONFIG_FILENAME, "w")] raises, if anything. *)
Record disk : Type := mk_disk {
  pah_conf : exn + string;
  write_error : option exn;
  printed : list string
}.

(** [isinstance(e, FileNotFoundError)]. *)
Definition is_FileNotFoundError (e : exn) : bool :=
  match exc_class e with
  | OtherError name => String.eqb name "FileNotFoundError"
  | _ => false
  end.

(** The local function [read] of [read_config]. *)
Definition read (obj : list (string * pyobj)) (key : string) (t : pytype)
  : option pyobj :=
  let ret_ := dict_get obj key in
  if isinstance ret_ t then Some ret_ else None.

(** The truth value of an [Optional[str]], as in [if temp:]. *)
Definition truthy (temp : option pyobj) : bool :=
  match temp with
  | Some (PyStr text) => negb (String.eqb text "")
  | Some _ => true
  | None => false
  end.

Definition text_of (temp : option pyobj) : string :=
  match temp with
  | Some v => str_value v
  | None => ""
  end.

(** The [try] block of [read_config]; the state is the object [config],
    which keeps what was assigned to it when the block raises. *)
Definition read_config_body (L : ConfigLib) (file : exn + string)
  : M RawConfig.t unit :=
  text <- lift_sum file ;;
  obj <- lift_sum (toml_load L text) ;;
  (let temp := read obj "auth_public_key" t_str in
   if truthy temp then
     raw <- lift_sum (HexEncoder_decode L (text_of temp)) ;;
     key <- lift_sum (VerifyKey_new L raw) ;;
     modify (fun config =>
               RawConfig.mk (RawConfig.auth_server config) (Some key)
                 (RawConfig.signing_key config)
                 (RawConfig.initial_setup_nickname config))
   else ret tt) ;;
  (let temp := read obj "secret_key" t_str in
   if truthy temp then
     raw <- lift_sum (HexEncoder_decode L (text_of temp)) ;;
     key <- lift_sum (SigningKey_new L raw) ;;
     modify (fun config =>
               RawConfig.mk (RawConfig.auth_server config)
                 (RawConfig.auth_verify_key config) (Some key)
                 (RawConfig.initial_setup_nickname config))
   else ret tt) ;;
  modify (fun config =>
            RawConfig.mk (RawConfig.auth_server config)
              (RawConfig.auth_verify_key config) (RawConfig.signing_key config)
              (option_map str_value (read obj "initial_setup_nickname" t_str))) ;;
  modify (fun config =>
            RawConfig.mk (option_map str_value (read obj "auth_server" t_str))
              (RawConfig.auth_verify_key config) (RawConfig.signing_key config)
              (RawConfig.initial_setup_nickname config)).

Definition malformed : string :=
  ("Malformed configuration file " ++ CONFIG_FILENAME ++ "."
   ++ String "010" "")%string.

(** [read_config]: the [try] block on a fresh [RawConfig()], and the
    two handlers. *)
Definition read_config (L : ConfigLib) : M disk RawConfig.t :=
  fun d =>
    match read_config_body L (pah_conf d) RawConfig.empty with
    | (Ret _, config) => (Ret config, d)
    | (Raise e, config) =>
        if is_FileNotFoundError e then (Ret config, d)
        else (Raise e, mk_disk (pah_conf d) (write_error d)
                         (printed d ++ [malformed]))
    | (Blocked, _) => (Blocked, d)
    | (OutOfFuel, _) => (OutOfFuel, d)
    end.

(** [obj[key] = val] on the entries of a dict. *)
Definition dict_set (obj : list (string * pyobj)) (key : string) (val : pyobj)
  : list (string * pyobj) :=
  if dict_has obj key
  then map (fun kv => if String.eqb (fst kv) key then (key, val) else kv) obj
  else obj ++ [(key, val)].

(** The local function [write] of [write_config]. *)
Definition write (obj : list (string * pyobj)) (key : string)
  (val : option string) : list (string * pyobj) :=
  match val with
  | Some v => dict_set obj key (PyStr v)
  | None => obj
  end.

(** The dict that [write_config] builds.  A key object is always true
    where the code tests it ([VerifyKey] and [SigningKey] define neither
    [__bool__] nor [__len__]), so the tests are tests for [None]. *)
Definition config_obj (L : ConfigLib) (config : RawConfig.t)
  : list (string * pyobj) :=
  let obj := [] in
  let obj := write obj "initial_setup_nickname"
               (RawConfig.initial_setup_nickname config) in
  let obj := write obj "auth_server" (RawConfig.auth_server config) in
  let obj :=
    match RawConfig.auth_verify_key config with
    | Some key =>
        write obj "auth_public_key"
          (Some (HexEncoder_encode L (verify_bytes key)))
    | None => obj
    end in
  let obj :=
    match RawConfig.signing_key config with
    | Some key =>
        write obj "secret_key" (Some (HexEncoder_encode L (signing_seed key)))
    | None => obj
    end in
  obj.

(** [write_config]. *)
Definition write_config (L : ConfigLib) (config : RawConfig.t) : M disk unit :=
  fun d =>
    match write_error d with
    | Some e => (Raise e, d)
    | None =>
        (Ret tt, mk_disk (inr (toml_dump L (config_obj L config)))
                   (write_error d) (printed d))
    end.

(* ================================================================== *)
(** * The vocabulary of the properties *)
(* ================================================================== *)

(** The nonce that [struct.pack(">24xQ", n)] builds for a counter [n]. *)
Definition nonce_of (n : Z) : bytes := repeat x00 24 ++ be_encode 8 n.

(** The parts of a socket that reading leaves alone. *)
Definition same_but_incoming (k k' : socket) : Prop :=
  sent k' = sent k /\ wr_shut k' = wr_shut k /\ rd_shut k' = rd_shut k
  /\ closed k' = closed k /\ ending k' = ending k.

(** A socket is readable when it is open and no piece of what is to come
    is empty (a piece is what one [recv] can see; an empty [recv] means
    end of stream). *)
Definition readable (k : socket) : Prop :=
  closed k = false /\ rd_shut k = false
  /\ Forall (fun piece => piece <> []) (incoming k).

(** The port after its send counter moved on. *)
Definition after_send (p : Port) : Port :=
  mk_Port (_box p) (_send_nonce p + 2) (_receive_nonce p).

Definition after_receive (p : Port) : Port :=
  mk_Port (_box p) (_send_nonce p) (_receive_nonce p + 2).

(** A caller's use of a port: a [send] or a [receive], each of which may
    return or raise; the port stays in use either way. *)
Inductive port_op : Type :=
| op_send (msg : bytes)
| op_receive.

Definition do_op (E : Externals) (op : port_op) (c : chan) : chan :=
  match op with
  | op_send msg => snd (Port_send E msg c)
  | op_receive => snd (Port_receive E c)
  end.

Definition do_ops (E : Externals) (ops : list port_op) (c : chan) : chan :=
  fold_left (fun c op => do_op E op c) ops c.

Definition count_sends (ops : list port_op) : nat :=
  List.length (filter (fun op => match op with op_send _ => true | _ => false end) ops).

(** The nonces handed to [encrypt], and those handed to [decrypt]. *)
Definition encrypt_nonces (log : list box_call) : list bytes :=
  flat_map (fun b => match b with Encrypt _ n => [n] | Decrypt _ _ => [] end) log.

Definition decrypt_nonces (log : list box_call) : list bytes :=
  flat_map (fun b => match b with Decrypt _ n => [n] | Encrypt _ _ => [] end) log.

(** [start, start + 2, ...], [n] values. *)
Fixpoint counters (start : Z) (n : nat) : list Z :=
  match n with
  | O => []
  | S n' => start :: counters (start + 2) n'
  end.

(** Two boxes made from the two halves of one key exchange: what one
    encrypts under a nonce the other decrypts under the same nonce. *)
Definition box_pair (E : Externals) (sender receiver : Box) : Prop :=
  forall msg nonce data,
    Box_encrypt E sender msg nonce = inr data ->
    Box_decrypt E receiver data nonce = inr msg.

Fixpoint send_all (E : Externals) (msgs : list bytes) : M chan unit :=
  match msgs with
  | [] => ret tt
  | msg :: rest => Port_send E msg ;; send_all E rest
  end.

Fixpoint receive_n (E : Externals) (n : nat) : M chan (list bytes) :=
  match n with
  | O => ret []
  | S n' =>
      msg <- Port_receive E ;;
      rest <- receive_n E n' ;;
      ret (msg :: rest)
  end.

(** From [c] to [c'] the port only read from the stream, only added to
    the bytes written and to the box log, and did not reopen a closed
    write side. *)
Definition chan_extends (c c' : chan) : Prop :=
  (exists got, List.concat (incoming (chan_sock c))
               = got ++ List.concat (incoming (chan_sock c')))
  /\ (exists more, chan_log c' = chan_log c ++ more)
  /\ (exists wire, sent (chan_sock c') = sent (chan_sock c) ++ wire)
  /\ (wr_shut (chan_sock c) = true -> wr_shut (chan_sock c') = true).

(** From [s] to [s'] nothing was put on the feedback queue and tasks
    were only taken from the head of the task queue. *)
Definition extends (s s' : state) : Prop :=
  chan_extends (conn s) (conn s')
  /\ _feedback_queue s' = _feedback_queue s
  /\ (exists pulled, _task_queue s = pulled ++ _task_queue s').

(** An open connection on which nothing more arrives and which the peer
    neither closes nor breaks: a [recv] on it waits for ever. *)
Definition silent (k : socket) : Prop :=
  closed k = false /\ ending k = Silent.

(** A computation on the port that cannot run out of loop bound, waits
    only on a silent connection and only extends the channel. *)
Definition chan_tame {A : Type} (m : M chan A) : Prop :=
  forall c o c', m c = (o, c') ->
    o <> OutOfFuel
    /\ (o = Blocked -> silent (chan_sock c'))
    /\ chan_extends c c'.

(** A computation of the connection that cannot run out of loop bound,
    waits only on a silent connection and only extends the state. *)
Definition tame {A : Type} (m : M state A) : Prop :=
  forall s o s', m s = (o, s') ->
    o <> OutOfFuel
    /\ (o = Blocked -> silent (chan_sock (conn s')))
    /\ extends s s'.

(** The two ways in which the [try] block is left by a [return]: the
    priority gate and a failed compilation. *)
Definition left_by_decline (finish_reason : option string) : Prop :=
  exists m, finish_reason = Some ("skipping due to priority requirement " ++ m)%string.

Definition left_by_compile_failure (finish_reason : option string) : Prop :=
  exists error, finish_reason = Some ("failed to compile: " ++ error)%string.




(** The server reported a base score for the descriptor and it differs
    from the local one. *)
Definition score_differs (base : pyobj) (permuter : PortablePermuter) : Prop :=
  exists v, json_prop base "base_score" t_int = inr v
            /\ int_value v <> base_score permuter.

(** The server reported a base score and a base hash for the descriptor
    and the score is the local one. *)
Definition score_agrees (base : pyobj) (permuter : PortablePermuter) : Prop :=
  exists v h, json_prop base "base_score" t_int = inr v
              /\ json_prop base "base_hash" t_str = inr h
              /\ int_value v = base_score permuter.

(** The reported base hash is not the local one. *)
Definition hash_differs (bp : pyobj * PortablePermuter) : bool :=
  match json_prop (fst bp) "base_hash" t_str with
  | inr h => negb (String.eqb (str_value h) (base_hash (snd bp)))
  | inl _ => false
  end.

(** The server reported the local base score and the local base hash. *)
Definition agrees (base : pyobj) (permuter : PortablePermuter) : Prop :=
  score_agrees base permuter /\ hash_differs (base, permuter) = false.

(** A box that takes nonces of twenty-four bytes only, as the boxes of
    NaCl do: [encrypt] and [decrypt] raise on any other length. *)
Definition strict_box (E : Externals) : Prop :=
  forall box text nonce,
    List.length nonce <> 24%nat ->
    (exists e, Box_encrypt E box text nonce = inl e)
    /\ (exists e, Box_decrypt E box text nonce = inl e).

(** The shutdown state of a socket: closed, reading shut down, writing
    shut down. *)
Definition shut_state (k : socket) : bool * bool * bool :=
  (closed k, rd_shut k, wr_shut k).

(** From [s] to [s'] nothing was reported, no task was taken, and the
    socket was neither shut down nor closed. *)
Definition untouched (s s' : state) : Prop :=
  _feedback_queue s' = _feedback_queue s
  /\ _task_queue s' = _task_queue s
  /\ shut_state (chan_sock (conn s')) = shut_state (chan_sock (conn s)).

(** The stat that one entry of a profiler object stands for: its key
    must name a [StatType] and its value must be a float. *)
Definition stat_entry (E : Externals) (d : list (string * pyobj)) (key : string)
  : option (StatType * spec_float) :=
  match StatType_item E key, dict_get d key with
  | Some stat, PyFloat time => Some (stat, time)
  | _, _ => None
  end.

(** The messages handed to [encrypt], in order. *)
Definition encrypt_payloads (log : list box_call) : list bytes :=
  flat_map (fun b => match b with Encrypt msg _ => [msg] | Decrypt _ _ => [] end) log.

(** A computation all of whose runs relate the state before to the
    state after by [R]. *)
Definition obeys {A : Type} (R : state -> state -> Prop) (m : M state A) : Prop :=
  forall s o s', m s = (o, s') -> R s s'.

(** From [s] to [s'] nothing was sent: no byte written, no message
    handed to [encrypt], the send counter and the task queue as before. *)
Definition only_received (s s' : state) : Prop :=
  sent (chan_sock (conn s')) = sent (chan_sock (conn s))
  /\ encrypt_payloads (chan_log (conn s')) = encrypt_payloads (chan_log (conn s))
  /\ _send_nonce (chan_port (conn s')) = _send_nonce (chan_port (conn s))
  /\ _task_queue s' = _task_queue s.

(** The message the main loop sends for a task. *)
Definition task_payload (E : Externals) (task : Task) : bytes :=
  json_dumps E (match task with
                | TaskFinished _ => finish_msg
                | TaskWork permuter seed => work_msg permuter seed
                end).

(** From [s] to [s'] tasks were taken from the head of the queue and,
    as long as the send counter stays within u64, exactly their messages
    were handed to [encrypt], in the order of the queue. *)
Definition forwarded (E : Externals) (s s' : state) : Prop :=
  exists pulled,
    _task_queue s = pulled ++ _task_queue s'
    /\ (0 <= _send_nonce (chan_port (conn s)) ->
        _send_nonce (chan_port (conn s)) + 2 * len pulled <= 2 ^ 64 ->
        _send_nonce (chan_port (conn s'))
        = _send_nonce (chan_port (conn s)) + 2 * len pulled
        /\ encrypt_payloads (chan_log (conn s'))
           = encrypt_payloads (chan_log (conn s)) ++ map (task_payload E) pulled).

(** What [_send_permuters] has to send, in order: the metadata message,
    then for each descriptor its compressed source and its object file. *)
Definition descriptor_messages (E : Externals) (self : Connection) : list bytes :=
  json_dumps E (init_obj self)
  :: flat_map (fun permuter => [compressed_source permuter; target_o_bin permuter])
       (_permuters self).

(** From [s] to [s'] exactly the messages [msgs] were handed to
    [encrypt], in this order, each under its own send nonce; nothing was
    read from the socket and the queues were left alone. *)
Definition handed_over (s s' : state) (msgs : list bytes) : Prop :=
  encrypt_payloads (chan_log (conn s'))
  = encrypt_payloads (chan_log (conn s)) ++ msgs
  /\ _send_nonce (chan_port (conn s'))
     = _send_nonce (chan_port (conn s)) + 2 * len msgs
  /\ _receive_nonce (chan_port (conn s')) = _receive_nonce (chan_port (conn s))
  /\ incoming (chan_sock (conn s')) = incoming (chan_sock (conn s))
  /\ _task_queue s' = _task_queue s
  /\ _feedback_queue s' = _feedback_queue s.

(** The first thing a client writes: the protocol version as four
    bytes, its verification key, and its ephemeral public key signed
    under the "CLIENT" magic. *)
Definition hello (E : Externals) (self : Connection) (ephemeral_key : PrivateKey)
  : bytes :=
  [x00; x00; x00; x01]
  ++ verify_bytes (verify_key_of E (signing_key (_config self)))
  ++ sign_with_magic E (bytes_of "CLIENT") (signing_key (_config self))
       (public_bytes (public_key_of E ephemeral_key)).

(** A line that names the file system root where the script runs: it
    changes to an absolute directory or calls a program by an absolute
    path, quoted or not. *)
Definition mentions_root (line : string) : bool :=
  str_startswith "cd /" line || str_startswith "cd '/" line
  || str_startswith "/" line || str_startswith "'/" line.

(** The character [c] occurs in [s]. *)
Fixpoint has_char (c : ascii) (s : string) : bool :=
  match s with
  | EmptyString => false
  | String a rest => Ascii.eqb a c || has_char c rest
  end.

(** Where a key of a configuration comes from: the file could be read
    and parsed, its entry [name] is a non-empty string, and the key is
    what the constructor [new] makes of the bytes decoded from it. *)
Definition key_read_from (L : ConfigLib) {K : Type} (file : exn + string)
  (name : string)
  (new : bytes -> exn + K) (key : K) : Prop :=
  exists text obj temp raw,
    file = inr text
    /\ toml_load L text = inr obj
    /\ dict_get obj name = PyStr temp
    /\ temp <> ""
    /\ HexEncoder_decode L temp = inr raw
    /\ new raw = inr key.

(** What an entry of the configuration file gives for a key: nothing
    when it is absent, not a string or empty; otherwise the key that the
    constructor [new] makes of the bytes decoded from it, or the
    exception of the decoder or of the constructor. *)
Definition key_entry (L : ConfigLib) {K : Type} (new : bytes -> exn + K)
  (obj : list (string * pyobj)) (name : string) : exn + option K :=
  match dict_get obj name with
  | PyStr temp =>
      if String.eqb temp "" then inr None
      else
        match HexEncoder_decode L temp with
        | inl e => inl e
        | inr raw =>
            match new raw with
            | inl e => inl e
            | inr key => inr (Some key)
            end
        end
  | _ => inr None
  end.

(** The disk after the line about a malformed file was printed. *)
Definition reported (d : disk) : disk :=
  mk_disk (pah_conf d) (write_error d) (printed d ++ [malformed]).


(* ================================================================== *)
(** * A concrete instance of the outside world *)
(* ================================================================== *)

(** The theorems below hold for every [Externals].  To run the model on
    concrete inputs one instance is fixed here: a JSON printer for the
    messages of the protocol with its inverse on a finite set of known
    messages, and a box that binds a ciphertext to its nonce by
    prefixing it. *)
Module Demo.

Definition dq : string := String "034"%char EmptyString.

Definition digits (n : Z) : string :=
  DecimalString.NilZero.string_of_int (Z.to_int n).

Definition float_text (f : spec_float) : string :=
  match f with
  | S754_finite false 6755399441055744 (-51) => "3.0"
  | S754_finite false 5629499534213120 (-50) => "5.0"
  | S754_finite false 4503599627370496 (-49) => "8.0"
  | S754_finite false 4503599627370496 (-52) => "1.0"
  | S754_finite false 4503599627370496 (-53) => "0.5"
  | S754_zero false => "0.0"
  | _ => "NaN"
  end.

Definition f3 : spec_float := S754_finite false 6755399441055744 (-51).
Definition f5 : spec_float := S754_finite false 5629499534213120 (-50).
Definition f8 : spec_float := S754_finite false 4503599627370496 (-49).

Fixpoint dumps (v : pyobj) : string :=
  match v with
  | PyNone => "null"
  | PyBool true => "true"
  | PyBool false => "false"
  | PyInt n => digits n
  | PyFloat f => float_text f
  | PyStr s => dq ++ s ++ dq
  | PyList l =>
      "[" ++ (fix items (l : list pyobj) : string :=
                match l with
                | [] => EmptyString
                | [x] => dumps x
                | x :: r => dumps x ++ ", " ++ items r
                end) l ++ "]"
  | PyDict d =>
      "{" ++ (fix items (d : list (string * pyobj)) : string :=
                match d with
                | [] => EmptyString
                | [(k, x)] => dq ++ k ++ dq ++ ": " ++ dumps x
                | (k, x) :: r => dq ++ k ++ dq ++ ": " ++ dumps x ++ ", " ++ items r
                end) d ++ "}"
  end%string.

Definition bytes_eqb (a b : bytes) : bool :=
  String.eqb (string_of_list_byte a) (string_of_list_byte b).

Fixpoint starts_with (prefix data : bytes) : bool :=
  match prefix, data with
  | [], _ => true
  | p :: prefix', d :: data' => Byte.eqb p d && starts_with prefix' data'
  | _ :: _, [] => false
  end.

(** Messages a server sends in the scenarios below. *)
Definition capabilities (min_prio : pyobj) : pyobj :=
  PyDict [ ("min_priority", min_prio); ("num_cpus", PyFloat f8) ].

Definition compiled (score : Z) (hash : string) : pyobj :=
  PyDict [ ("success", PyBool true);
           ("perm_bases",
            PyList [ PyDict [ ("base_score", PyInt score);
                              ("base_hash", PyStr hash) ] ]) ].

Definition need_work_msg : pyobj := PyDict [ ("type", PyStr "need_work") ].

Definition result_msg (seed : Z) (has_source : list (string * pyobj)) : pyobj :=
  PyDict ([ ("type", PyStr "result"); ("permuter", PyInt 0);
            ("score", PyInt seed); ("hash", PyStr "h");
            ("profiler", PyDict []) ] ++ has_source).

Definition known : list pyobj :=
  [ capabilities (PyFloat f5); capabilities (PyInt 5); capabilities (PyFloat f3);
    compiled 100 "abc"; compiled 99 "abc"; compiled 100 "xyz";
    finish_msg; need_work_msg;
    result_msg 1 []; result_msg 2 [];
    result_msg 1 [("has_source", PyBool true)];
    result_msg 1 [("has_source", PyInt 1)];
    result_msg 1 [("has_source", PyStr "yes")] ].

Definition loads (b : bytes) : exn + pyobj :=
  match find (fun v => bytes_eqb (bytes_of (dumps v)) b) known with
  | Some v => inr v
  | None => inl (PyExc ValueError "JSONDecodeError")
  end.

Definition encrypt (_ : Box) (msg nonce : bytes) : exn + bytes :=
  inr (nonce ++ msg).

Definition decrypt (_ : Box) (data nonce : bytes) : exn + bytes :=
  if starts_with nonce data then inr (skipn (List.length nonce) data)
  else inl (PyExc (OtherError "CryptoError") "Decryption failed").

Definition verify (magic : bytes) (_ : VerifyKey) (data : bytes)
  : exn + bytes :=
  if starts_with (magic ++ bytes_of ":") data
  then inr (firstn 32 (skipn 7 data))
  else inl (PyExc (OtherError "BadSignatureError") "Signature was forged").

Definition ext : Externals := {|
  Box_encrypt := encrypt;
  Box_decrypt := decrypt;
  json_loads := loads;
  json_dumps := fun v => bytes_of (dumps v);
  zlib_decompress := fun b => inr b;
  decode_utf8 := fun b => inr (string_of_list_byte b);
  fmt_float := float_text;
  fmt_int := fun v => match v with
                      | PyBool true => "True"
                      | PyBool false => "False"
                      | _ => digits (int_value v)
                      end;
  verify_key_of := fun k => mk_VerifyKey (signing_seed k);
  public_key_of := fun k => mk_PublicKey (private_bytes k);
  PublicKey_new := fun b => inr (mk_PublicKey b);
  sign_with_magic := fun magic _ data => magic ++ bytes_of ":" ++ data ++ repeat x00 64;
  verify_with_magic := verify;
  exception_to_string := exc_msg;
  StatType_item := fun key => Some (mk_StatType key)
|}.

(** The box of NaCl: a nonce has twenty-four bytes, or the call raises. *)
Definition strict_encrypt (box : Box) (msg nonce : bytes) : exn + bytes :=
  if (List.length nonce =? 24)%nat then encrypt box msg nonce
  else inl (PyExc ValueError "The nonce must be exactly 24 bytes long").

Definition strict_decrypt (box : Box) (data nonce : bytes) : exn + bytes :=
  if (List.length nonce =? 24)%nat then decrypt box data nonce
  else inl (PyExc ValueError "The nonce must be exactly 24 bytes long").

(** The same outside world with the box of NaCl. *)
Definition strict_ext : Externals := {|
  Box_encrypt := strict_encrypt;
  Box_decrypt := strict_decrypt;
  json_loads := json_loads ext;
  json_dumps := json_dumps ext;
  zlib_decompress := zlib_decompress ext;
  decode_utf8 := decode_utf8 ext;
  fmt_float := fmt_float ext;
  fmt_int := fmt_int ext;
  verify_key_of := verify_key_of ext;
  public_key_of := public_key_of ext;
  PublicKey_new := PublicKey_new ext;
  sign_with_magic := sign_with_magic ext;
  verify_with_magic := verify_with_magic ext;
  exception_to_string := exception_to_string ext;
  StatType_item := StatType_item ext
|}.

Definition key32 : bytes := repeat x01 32.

Definition open_socket (pieces : list bytes) : socket :=
  mk_socket pieces [] false false false EndOfStream.

(** The bytes a server port puts on the wire for [msgs], after the
    hundred and three bytes of its half of the handshake. *)
Fixpoint server_frames (msgs : list bytes) (c : chan) : bytes :=
  match msgs with
  | [] => sent (chan_sock c)
  | m :: rest => server_frames rest (snd (Port_send ext m c))
  end.

Definition server_box : Box := mk_Box key32 key32.

Definition server_stream (msgs : list bytes) : bytes :=
  bytes_of "SERVER:" ++ key32 ++ repeat x00 64
  ++ server_frames msgs
       (mk_chan (open_socket []) (Port_init server_box false) []).

Definition js (v : pyobj) : bytes := bytes_of (dumps v).

Definition permuter0 : PortablePermuter :=
  mk_PortablePermuter "func" "file.c" float_one false [x0a] 100 "abc" [x0b] "cc".

Definition client (priority : spec_float) : Connection :=
  mk_Connection
    (mk_Config "auth" (mk_VerifyKey key32) (mk_SigningKey key32))
    (mk_RemoteServer "127.0.0.1" 4000 (mk_VerifyKey key32))
    [x47] [permuter0] priority.

(** A client state whose peer delivers [pieces] and then closes. *)
Definition start (pieces : list bytes) (tasks : list Task) : state :=
  mk_state (mk_chan (open_socket pieces) (Port_init server_box true) [])
    false tasks [] None (mk_PrivateKey key32).

Definition feedback_of (r : outcome unit * state) : list Feedback :=
  map fst (_feedback_queue (snd r)).

(** Three messages from a server port, and a client socket that sees
    their frames cut into three pieces. *)
Definition three_msgs : list bytes := [[]; [x68; x69]; repeat x7a 50].

Definition server_chan : chan :=
  mk_chan (open_socket []) (Port_init server_box false) [].

Definition cut_socket : socket :=
  let wire := server_frames three_msgs server_chan in
  open_socket [firstn 45 wire; firstn 30 (skipn 45 wire); skipn 75 wire].

(** A client in the main loop with one work task and the sentinel
    queued, against a server that answers the work with "finish" at once,
    and against one that answers it with a result and the sentinel with
    "finish". *)
Definition early_finish : state :=
  start [server_frames [js finish_msg] server_chan]
    [TaskWork 0 1; TaskFinished None].

Definition late_finish : state :=
  start [server_frames [js (result_msg 1 []); js finish_msg] server_chan]
    [TaskWork 0 1; TaskFinished None].

(** The priority gate of the specification: the server asks for
    priority 5.0.  [gate_ready] is the state once [_setup] and [_init]
    have returned. *)
Definition gate_start : state :=
  start [server_stream [[x00]; js (capabilities (PyFloat f5))]] [TaskWork 0 1].

Definition gate_set_up (priority : spec_float) : state :=
  snd (_setup ext (client priority) gate_start).

Definition gate_ready (priority : spec_float) : state :=
  snd (_init ext (client priority) (gate_set_up priority)).

(** The baseline gate of the specification: the one descriptor has
    local score 100 and hash "abc"; the server reports the same score
    and the hash "xyz". *)
Definition other_hash : list pyobj :=
  [ PyDict [ ("base_score", PyInt 100); ("base_hash", PyStr "xyz") ] ].

Definition idle : state := start [] [].

(** A server that refuses the connection. *)
Definition refused : state :=
  mk_state (conn idle) false [TaskWork 0 1] []
    (Some (PyExc OSError "[Errno 111] Connection refused")) (mk_PrivateKey key32).



(** A server whose capabilities give [min_priority] as the integer 5. *)
Definition int_caps_start : state :=
  start [server_stream [[x00]; js (capabilities (PyInt 5))]] [].

Definition int_caps_set_up : state :=
  snd (_setup ext (client f5) int_caps_start).

Definition int_caps_sent : state :=
  snd (on_port (Port_send ext (_grant (client f5))) int_caps_set_up).

Definition int_caps_received : state :=
  snd (on_port (Port_receive ext) int_caps_sent).

(** A result message that announces its source, and a client about to
    receive the source ["src"]. *)
Definition with_source : list (string * pyobj) :=
  [ ("type", PyStr "result"); ("permuter", PyInt 0);
    ("score", PyInt 1); ("hash", PyStr "h");
    ("profiler", PyDict []); ("has_source", PyBool true) ].

Definition source_pending : state :=
  start [server_frames [[x73; x72; x63]] server_chan] [].

(** A client port that sends the "finish" message as JSON, and a server
    port that sees the frame in two pieces. *)
Definition json_sender : chan :=
  mk_chan (open_socket []) (Port_init server_box true) [].

Definition json_sent : chan := snd (Port_send_json ext finish_msg json_sender).

Definition json_receiver : chan :=
  mk_chan (open_socket [firstn 20 (sent (chan_sock json_sent));
                        skipn 20 (sent (chan_sock json_sent))])
    (Port_init server_box false) [].

(** A build script without absolute paths, and a call of a compiler by
    a quoted absolute path with a space in it. *)
Definition relative_script : string :=
  ("set -e" ++ newline ++ "mips-gcc -O2 -c -o out.o in.c")%string.

Definition tools_dir : string := "/opt/my tools".

(** A hexadecimal codec, a key constructor that takes 32 bytes, and a
    TOML library that knows one document; a configuration with every
    field set, and a disk without [pah.conf]. *)
Definition hex_digit (n : N) : ascii :=
  match n with
  | 0%N => "0" | 1%N => "1" | 2%N => "2" | 3%N => "3" | 4%N => "4"
  | 5%N => "5" | 6%N => "6" | 7%N => "7" | 8%N => "8" | 9%N => "9"
  | 10%N => "a" | 11%N => "b" | 12%N => "c" | 13%N => "d" | 14%N => "e"
  | _ => "f"
  end%char.

Definition hex_value (c : ascii) : option N :=
  let n := N_of_ascii c in
  if ((48 <=? n) && (n <=? 57))%N then Some (n - 48)%N
  else if ((97 <=? n) && (n <=? 102))%N then Some (n - 87)%N
  else None.

Fixpoint hex_encode (b : bytes) : string :=
  match b with
  | [] => ""
  | x :: rest =>
      String (hex_digit (Byte.to_N x / 16))
        (String (hex_digit (Byte.to_N x mod 16)) (hex_encode rest))
  end.

Fixpoint hex_decode (text : string) : exn + bytes :=
  match text with
  | EmptyString => inr []
  | String hi (String lo rest) =>
      match hex_value hi, hex_value lo, hex_decode rest with
      | Some h, Some l, inr tail =>
          match Byte.of_N (16 * h + l) with
          | Some x => inr (x :: tail)
          | None => inl (PyExc ValueError "Non-hexadecimal digit found")
          end
      | _, _, _ => inl (PyExc ValueError "Non-hexadecimal digit found")
      end
  | String _ EmptyString => inl (PyExc ValueError "Odd-length string")
  end.

Definition nickname_and_keys : RawConfig.t :=
  RawConfig.mk (Some "auth.example:1234") (Some (mk_VerifyKey key32))
    (Some (mk_SigningKey key32)) (Some "nick").

Definition toml_document : list (string * pyobj) :=
  [ ("initial_setup_nickname", PyStr "nick");
    ("auth_server", PyStr "auth.example:1234");
    ("auth_public_key", PyStr (hex_encode key32));
    ("secret_key", PyStr (hex_encode key32)) ].

Definition config_lib : ConfigLib :=
  {| toml_load := fun text =>
       if String.eqb text (dumps (PyDict toml_document))
       then inr toml_document
       else inl (PyExc (OtherError "TomlDecodeError") "invalid document");
     toml_dump := fun obj => dumps (PyDict obj);
     HexEncoder_decode := hex_decode;
     HexEncoder_encode := hex_encode;
     VerifyKey_new := fun b =>
       if len b =? 32 then inr (mk_VerifyKey b)
       else inl (PyExc ValueError "The key must be exactly 32 bytes long");
     SigningKey_new := fun b =>
       if len b =? 32 then inr (mk_SigningKey b)
       else inl (PyExc ValueError "The seed must be exactly 32 bytes long") |}.

Definition no_file : disk :=
  mk_disk (inl (PyExc (OtherError "FileNotFoundError") CONFIG_FILENAME)) None [].

End Demo.

(* ================================================================== *)
(** * Big-endian integers *)
(* ================================================================== *)

Lemma Z_of_byte_of_Z (z : Z) : Z_of_byte (byte_of_Z z) = z mod 256.
Proof.
  unfold Z_of_byte, byte_of_Z.
  assert (Hr : 0 <= z mod 256 < 256) by (apply Z.mod_pos_bound; lia).
  destruct (Byte.of_N (Z.to_N (z mod 256))) as [b|] eqn:Hb.
  - apply Byte.to_of_N in Hb. rewrite Hb. lia.
  - apply Byte.of_N_None_iff in Hb. lia.
Qed.

Lemma be_encode_length (k : nat) (n : Z) : List.length (be_encode k n) = k.
Proof.
  revert n. induction k as [|k IH]; intro n; simpl; [reflexivity|].
  rewrite length_app, IH. simpl. lia.
Qed.

Lemma be_decode_snoc (l : bytes) (b : byte) :
  be_decode (l ++ [b]) = be_decode l * 256 + Z_of_byte b.
Proof. unfold be_decode. rewrite fold_left_app. reflexivity. Qed.

Lemma be_decode_encode (k : nat) (n : Z) :
  0 <= n -> be_decode (be_encode k n) = n mod 256 ^ Z.of_nat k.
Proof.
  revert n. induction k as [|k IH]; intros n Hn.
  - simpl. rewrite Z.mod_1_r. reflexivity.
  - cbn [be_encode]. rewrite be_decode_snoc, Z_of_byte_of_Z.
    rewrite IH by (apply Z.div_pos; lia).
    rewrite Nat2Z.inj_succ, Z.pow_succ_r by lia.
    rewrite (Z.rem_mul_r n 256 (256 ^ Z.of_nat k)) by lia. lia.
Qed.

Lemma be_decode_zeros (k : nat) (l : bytes) :
  be_decode (repeat x00 k ++ l) = be_decode l.
Proof.
  unfold be_decode.
  rewrite fold_left_app.
  replace (fold_left (fun acc b => acc * 256 + Z_of_byte b) (repeat x00 k) 0)
    with 0; [reflexivity|].
  induction k as [|k IH]; simpl; [reflexivity|exact IH].
Qed.

Lemma struct_pack_Q_ok (n : Z) :
  0 <= n < 2 ^ 64 -> struct_pack_Q n = inr (be_encode 8 n).
Proof.
  intro H. unfold struct_pack_Q.
  replace (0 <=? n) with true by (symmetry; apply Z.leb_le; lia).
  replace (n <? 2 ^ 64) with true by (symmetry; apply Z.ltb_lt; lia).
  reflexivity.
Qed.

Lemma struct_pack_Q_inv (n : Z) (q : bytes) :
  struct_pack_Q n = inr q -> 0 <= n < 2 ^ 64 /\ q = be_encode 8 n.
Proof.
  unfold struct_pack_Q.
  destruct (0 <=? n) eqn:H1; destruct (n <? 2 ^ 64) eqn:H2; simpl;
    intro H; try discriminate.
  apply Z.leb_le in H1. apply Z.ltb_lt in H2. inversion H. split; [lia|reflexivity].
Qed.

Lemma struct_unpack_pack_Q (n : Z) :
  0 <= n < 2 ^ 64 -> struct_unpack_Q (be_encode 8 n) = inr n.
Proof.
  intro H. unfold struct_unpack_Q, len.
  rewrite be_encode_length.
  change (Z.of_nat 8 =? 8) with true. cbv iota.
  rewrite be_decode_encode by lia.
  f_equal. apply Z.mod_small. change (256 ^ Z.of_nat 8) with (2 ^ 64). lia.
Qed.

Lemma struct_pack_24xQ_ok (n : Z) :
  0 <= n < 2 ^ 64 -> struct_pack_24xQ n = inr (nonce_of n).
Proof.
  intro H. unfold struct_pack_24xQ. rewrite struct_pack_Q_ok by exact H.
  reflexivity.
Qed.

Lemma struct_pack_24xQ_inv (n : Z) (b : bytes) :
  struct_pack_24xQ n = inr b -> 0 <= n < 2 ^ 64 /\ b = nonce_of n.
Proof.
  unfold struct_pack_24xQ.
  destruct (struct_pack_Q n) as [e|q] eqn:Hq; intro H; [discriminate|].
  apply struct_pack_Q_inv in Hq. destruct Hq as [Hr ->].
  inversion H. split; [exact Hr|reflexivity].
Qed.

Lemma nonce_of_length (n : Z) : List.length (nonce_of n) = 32%nat.
Proof.
  unfold nonce_of. rewrite length_app, repeat_length, be_encode_length.
  reflexivity.
Qed.

Lemma be_decode_nonce_of (n : Z) :
  0 <= n < 2 ^ 64 -> be_decode (nonce_of n) = n.
Proof.
  intro H. unfold nonce_of. rewrite be_decode_zeros.
  rewrite be_decode_encode by lia. apply Z.mod_small.
  change (256 ^ Z.of_nat 8) with (2 ^ 64). lia.
Qed.

(* ================================================================== *)
(** * Reading from the socket *)
(* ================================================================== *)

Lemma same_but_incoming_refl (k : socket) : same_but_incoming k k.
Proof. repeat split. Qed.

Lemma same_but_incoming_trans (a b c : socket) :
  same_but_incoming a b -> same_but_incoming b c -> same_but_incoming a c.
Proof.
  unfold same_but_incoming.
  intros (H1 & H2 & H3 & H4 & H5) (G1 & G2 & G3 & G4 & G5).
  repeat split; congruence.
Qed.

(** Unfolds one [bind] in a hypothesis [H : bind m k s = (o, s')]. *)
Ltac inv_bind H :=
  let o := fresh "o" in
  let s := fresh "s" in
  let Hm := fresh "Hm" in
  unfold bind in H at 1;
  match type of H with
  | context [match ?m ?s0 with _ => _ end] =>
      destruct (m s0) as [o s] eqn:Hm; destruct o
  end.

(** The same, naming the value returned, the state reached and the
    equation of the first part. *)
Tactic Notation "inv_bind_as" hyp(H) ident(a) ident(s) ident(Hm) :=
  unfold bind in H at 1;
  match type of H with
  | context [match ?m ?s0 with _ => _ end] =>
      destruct (m s0) as [[a| | |] s] eqn:Hm
  end.

Lemma sock_recv_inv (bufsize : Z) (k k' : socket) (o : outcome bytes) :
  sock_recv bufsize k = (o, k') ->
  same_but_incoming k k' /\
  match o with
  | Ret data =>
      List.concat (incoming k) = data ++ List.concat (incoming k')
      /\ (List.length data <= Z.to_nat bufsize)%nat
  | Raise e =>
      k' = k
      /\ ((exc_class e = OSError /\ closed k = true)
          \/ (closed k = false /\ ending k = Broken e))
  | Blocked => k' = k /\ closed k = false /\ ending k = Silent
  | OutOfFuel => False
  end.
Proof.
  unfold sock_recv. intro H.
  destruct (closed k) eqn:Hc.
  { inversion H; subst. split; [apply same_but_incoming_refl|].
    split; [reflexivity|left; split; reflexivity]. }
  destruct (incoming k) as [|piece rest] eqn:Hi.
  { destruct (rd_shut k).
    { inversion H; subst. split; [apply same_but_incoming_refl|].
      rewrite Hi. split; [reflexivity|simpl; lia]. }
    destruct (ending k) as [|e|] eqn:He; inversion H; subst;
      (split; [apply same_but_incoming_refl|]).
    - rewrite Hi. split; [reflexivity|simpl; lia].
    - split; [reflexivity|right; split; reflexivity].
    - repeat split. }
  assert (Hlen : (List.length (firstn (Z.to_nat bufsize) piece)
                  <= Z.to_nat bufsize)%nat) by apply firstn_le_length.
  destruct (skipn (Z.to_nat bufsize) piece) as [|x more] eqn:Hs;
    inversion H; subst; (split; [repeat split; assumption|]);
    (split; [|exact Hlen]); cbn [incoming set_incoming List.concat].
  - rewrite <- (firstn_skipn (Z.to_nat bufsize) piece) at 1.
    rewrite Hs, app_nil_r. reflexivity.
  - rewrite <- Hs, app_assoc, firstn_skipn. reflexivity.
Qed.

(** How a read of [n] bytes can end.  It returns the next [n] bytes; it
    raises the plain "eof" when [recv] returns nothing, or passes on
    what [recv] raises, on a closed socket or on a failed connection;
    or it waits for ever on a silent connection. *)
Lemma socket_read_fixed_loop_inv (fuel : nat) :
  forall (n : Z) (chunks : list bytes) (k k' : socket) (o : outcome bytes),
    (Z.to_nat n <= fuel)%nat ->
    socket_read_fixed_loop fuel n chunks k = (o, k') ->
    same_but_incoming k k' /\
    match o with
    | Ret d =>
        exists got, d = List.concat chunks ++ got
          /\ List.concat (incoming k) = got ++ List.concat (incoming k')
          /\ List.length got = Z.to_nat n
    | Raise e =>
        (exists got, List.concat (incoming k) = got ++ List.concat (incoming k'))
        /\ (e = PyExc Exception "eof"
            \/ (exc_class e = OSError /\ closed k = true)
            \/ (closed k = false /\ ending k = Broken e))
    | Blocked =>
        (exists got, List.concat (incoming k) = got ++ List.concat (incoming k'))
        /\ closed k = false /\ ending k = Silent
    | OutOfFuel => False
    end.
Proof.
  induction fuel as [|fuel IH]; intros n chunks k k' o Hf H.
  - cbn [socket_read_fixed_loop] in H.
    destruct (n >? 0) eqn:Hn.
    + apply Z.gtb_lt in Hn. lia.
    + inversion H; subst. split; [apply same_but_incoming_refl|].
      exists []. rewrite app_nil_r. repeat split.
      rewrite Z.gtb_ltb in Hn. apply Z.ltb_ge in Hn. simpl. lia.
  - cbn [socket_read_fixed_loop] in H.
    destruct (n >? 0) eqn:Hn.
    + apply Z.gtb_lt in Hn.
      inv_bind H.
      * apply sock_recv_inv in Hm. destruct Hm as [Hsame [Hcat Hlen]].
        destruct a as [|b data].
        { inversion H; subst. split; [exact Hsame|].
          split; [exists []; exact Hcat|left; reflexivity]. }
        assert (Hd : (1 <= List.length (b :: data) <= Z.to_nat n)%nat)
          by (simpl in *; lia).
        apply IH in H; [|unfold len; lia].
        destruct H as [Hsame' Ho].
        split; [eapply same_but_incoming_trans; eassumption|].
        destruct Hsame as (_ & _ & _ & Hc & He).
        destruct o; try contradiction.
        -- destruct Ho as (got & -> & Hgot & Hl).
           exists ((b :: data) ++ got).
           rewrite concat_app. cbn [List.concat]. rewrite app_nil_r.
           rewrite Hcat, Hgot, !app_assoc. repeat split.
           rewrite length_app, Hl. unfold len. lia.
        -- destruct Ho as [(got & Hgot) Hwhy]. split.
           ++ exists ((b :: data) ++ got). rewrite Hcat, Hgot, app_assoc.
              reflexivity.
           ++ rewrite Hc, He in Hwhy. exact Hwhy.
        -- destruct Ho as [(got & Hgot) Hwhy]. split.
           ++ exists ((b :: data) ++ got). rewrite Hcat, Hgot, app_assoc.
              reflexivity.
           ++ rewrite Hc, He in Hwhy. exact Hwhy.
      * apply sock_recv_inv in Hm. destruct Hm as [Hsame [-> He]].
        inversion H; subst. split; [apply same_but_incoming_refl|].
        split; [exists []; reflexivity|right; exact He].
      * apply sock_recv_inv in Hm. destruct Hm as [Hsame [-> He]].
        inversion H; subst. split; [apply same_but_incoming_refl|].
        split; [exists []; reflexivity|exact He].
      * apply sock_recv_inv in Hm. destruct Hm as [_ []].
    + inversion H; subst. split; [apply same_but_incoming_refl|].
      exists []. rewrite app_nil_r. repeat split.
      rewrite Z.gtb_ltb in Hn. apply Z.ltb_ge in Hn. simpl. lia.
Qed.

Lemma socket_read_fixed_inv (n : Z) (k k' : socket) (o : outcome bytes) :
  socket_read_fixed n k = (o, k') ->
  same_but_incoming k k' /\
  match o with
  | Ret d =>
      List.concat (incoming k) = d ++ List.concat (incoming k')
      /\ List.length d = Z.to_nat n
  | Raise e =>
      (exists got, List.concat (incoming k) = got ++ List.concat (incoming k'))
      /\ (e = PyExc Exception "eof"
          \/ (exc_class e = OSError /\ closed k = true)
          \/ (closed k = false /\ ending k = Broken e))
  | Blocked =>
      (exists got, List.concat (incoming k) = got ++ List.concat (incoming k'))
      /\ closed k = false /\ ending k = Silent
  | OutOfFuel => False
  end.
Proof.
  intro H. apply socket_read_fixed_loop_inv in H; [|lia].
  destruct H as [Hs Ho]. split; [exact Hs|].
  destruct o; try exact Ho.
  destruct Ho as (got & -> & H1 & H2). auto.
Qed.

Lemma socket_read_fixed_loop_ok (fuel : nat) :
  forall (n : Z) (chunks : list bytes) (k : socket) (pre rest : bytes),
    (Z.to_nat n <= fuel)%nat ->
    readable k ->
    List.concat (incoming k) = pre ++ rest ->
    len pre = n ->
    exists k',
      socket_read_fixed_loop fuel n chunks k = (Ret (List.concat chunks ++ pre), k')
      /\ List.concat (incoming k') = rest
      /\ readable k' /\ same_but_incoming k k'.
Proof.
  induction fuel as [|fuel IH]; intros n chunks k pre rest Hf Hr Hcat Hlen.
  - assert (pre = []) by (destruct pre; [reflexivity|unfold len in Hlen; simpl in *; lia]).
    subst pre. cbn [socket_read_fixed_loop]. unfold len in Hlen. simpl in Hlen. subst n.
    exists k. simpl. rewrite app_nil_r.
    repeat split; try apply Hr; exact Hcat.
  - cbn [socket_read_fixed_loop].
    destruct (n >? 0) eqn:Hn.
    2:{ assert (pre = []).
        { rewrite Z.gtb_ltb in Hn. apply Z.ltb_ge in Hn.
          destruct pre; [reflexivity|unfold len in Hlen; simpl in *; lia]. }
        subst pre. exists k. unfold ret. rewrite app_nil_r.
        repeat split; try apply Hr; exact Hcat. }
    apply Z.gtb_lt in Hn.
    destruct Hr as (Hc & Hrd & Hne).
    destruct (incoming k) as [|piece more] eqn:Hi.
    { simpl in Hcat. destruct pre; [unfold len in Hlen; simpl in *; lia|discriminate]. }
    apply Forall_cons_iff in Hne. destruct Hne as [Hp Hmore].
    set (m := Z.to_nat (Z.min n 4096)).
    assert (Hm : (1 <= m <= List.length pre)%nat) by (unfold m, len in *; lia).
    remember (firstn m piece) as data eqn:Edata.
    assert (Hdata : data <> []).
    { rewrite Edata. destruct piece; [contradiction|].
      destruct m; [lia|]. simpl. discriminate. }
    assert (Hdl : (List.length data <= List.length pre)%nat).
    { rewrite Edata, length_firstn. lia. }
    assert (Hfix : firstn (List.length data) piece = data).
    { rewrite Edata, length_firstn.
      destruct (Nat.le_ge_cases m (List.length piece)) as [Hle|Hge].
      - rewrite Nat.min_l by lia. reflexivity.
      - rewrite Nat.min_r by lia. rewrite firstn_all. symmetry.
        apply firstn_all2. lia. }
    assert (Hpre : pre = data ++ skipn (List.length data) pre).
    { rewrite <- (firstn_skipn (List.length data) pre) at 1. f_equal.
      assert (Hx : firstn (List.length data) (pre ++ rest)
                   = firstn (List.length data) pre).
      { rewrite firstn_app.
        replace (List.length data - List.length pre)%nat with 0%nat by lia.
        simpl. apply app_nil_r. }
      rewrite <- Hx, <- Hcat. cbn [List.concat].
      rewrite firstn_app.
      replace (List.length data - List.length piece)%nat with 0%nat
        by (rewrite Edata, length_firstn; lia).
      simpl. rewrite app_nil_r. exact Hfix. }
    assert (Hrest : skipn m piece ++ List.concat more
                    = skipn (List.length data) pre ++ rest).
    { cbn [List.concat] in Hcat.
      rewrite <- (firstn_skipn m piece) in Hcat at 1.
      rewrite <- Edata in Hcat. rewrite Hpre in Hcat at 1.
      rewrite <- !app_assoc in Hcat. apply app_inv_head in Hcat. exact Hcat. }
    set (k1 := match skipn m piece with
               | [] => set_incoming more k
               | _ => set_incoming (skipn m piece :: more) k
               end).
    assert (Hrecv : sock_recv (Z.min n 4096) k = (Ret data, k1)).
    { unfold sock_recv. rewrite Hc, Hrd, Hi. fold m. rewrite <- Edata. unfold k1.
      destruct (skipn m piece); reflexivity. }
    assert (Hk1 : readable k1 /\ same_but_incoming k k1
                  /\ List.concat (incoming k1) = skipn m piece ++ List.concat more).
    { unfold k1. destruct (skipn m piece) eqn:Hs.
      - repeat split; try assumption.
      - repeat split; try assumption. cbn [incoming set_incoming].
        constructor; [discriminate|assumption]. }
    destruct Hk1 as (Hr1 & Hs1 & Hc1).
    destruct (IH (n - len data) (chunks ++ [data]) k1
                 (skipn (List.length data) pre) rest) as (k' & Hrun & Hk' & Hr' & Hs').
    + assert (1 <= List.length data)%nat by (destruct data; [contradiction|simpl; lia]).
      unfold len. lia.
    + exact Hr1.
    + rewrite Hc1. exact Hrest.
    + unfold len in *. rewrite length_skipn. lia.
    + exists k'. unfold bind. rewrite Hrecv.
      assert (Hsel : forall X Y : M socket bytes,
                 match data with [] => X | _ :: _ => Y end = Y)
        by (intros; destruct data; [contradiction|reflexivity]).
      rewrite Hsel.
      split.
      { etransitivity; [exact Hrun|].
        rewrite concat_app. cbn [List.concat]. rewrite app_nil_r, <- app_assoc.
        rewrite <- Hpre. reflexivity. }
      split; [exact Hk'|]. split; [exact Hr'|].
      eapply same_but_incoming_trans; eassumption.
Qed.

Lemma socket_read_fixed_ok (k : socket) (pre rest : bytes) :
  readable k ->
  List.concat (incoming k) = pre ++ rest ->
  exists k',
    socket_read_fixed (len pre) k = (Ret pre, k')
    /\ List.concat (incoming k') = rest
    /\ readable k' /\ same_but_incoming k k'.
Proof.
  intros Hr Hcat.
  destruct (socket_read_fixed_loop_ok (Z.to_nat (len pre)) (len pre) [] k pre rest)
    as (k' & H); auto.
  exists k'. exact H.
Qed.

(* ================================================================== *)
(** * What one [send] and one [receive] do *)
(* ================================================================== *)

Section PortFacts.

Variable E : Externals.

(** [send] either fails before it has a nonce and changes nothing, or
    moves the send counter on by two, calls [encrypt] once with the nonce
    of the old counter and, if all goes well, writes one frame. *)
Lemma Port_send_inv (msg : bytes) (c c' : chan) (o : outcome unit) :
  Port_send E msg c = (o, c') ->
  let p := chan_port c in
  (c' = c /\ (exists e, o = Raise e) /\ ~ (0 <= _send_nonce p < 2 ^ 64))
  \/
  (0 <= _send_nonce p < 2 ^ 64
   /\ chan_port c' = after_send p
   /\ chan_log c' = chan_log c ++ [Encrypt msg (nonce_of (_send_nonce p))]
   /\ incoming (chan_sock c') = incoming (chan_sock c)
   /\ wr_shut (chan_sock c') = wr_shut (chan_sock c)
   /\ match o with
      | Ret _ =>
          exists data,
            Box_encrypt E (_box p) msg (nonce_of (_send_nonce p)) = inr data
            /\ 0 <= len data < 2 ^ 64
            /\ sent (chan_sock c')
               = sent (chan_sock c) ++ be_encode 8 (len data) ++ data
      | Raise _ => chan_sock c' = chan_sock c
      | _ => False
      end).
Proof.
  unfold Port_send, bind, gets, log_call, modify, lift_sum, on_sock, zoom,
    raise, ret.
  destruct (struct_pack_24xQ (_send_nonce (chan_port c))) as [e|nonce] eqn:Hn.
  { intro H. inversion H; subst. left. split; [reflexivity|].
    split; [eexists; reflexivity|].
    intro Hr. rewrite struct_pack_24xQ_ok in Hn by exact Hr. discriminate. }
  apply struct_pack_24xQ_inv in Hn. destruct Hn as [Hr ->].
  cbn [chan_port chan_sock chan_log set_port].
  destruct (Box_encrypt E (_box (chan_port c)) msg
              (nonce_of (_send_nonce (chan_port c)))) as [e|data] eqn:He.
  { intro H. inversion H; subst. right.
    cbn [chan_port chan_sock chan_log set_sock]. repeat split; try lia;
      try (rewrite Hw; reflexivity). }
  destruct (struct_pack_Q (len data)) as [e|ld] eqn:Hl.
  { intro H. inversion H; subst. right.
    cbn [chan_port chan_sock chan_log set_sock]. repeat split; try lia;
      try (rewrite Hw; reflexivity). }
  apply struct_pack_Q_inv in Hl. destruct Hl as [Hlr ->].
  unfold sock_sendall. cbn [chan_port chan_sock chan_log set_sock].
  destruct (closed (chan_sock c)).
  { intro H. inversion H; subst. right.
    cbn [chan_port chan_sock chan_log set_sock]. repeat split; try lia;
      try (rewrite Hw; reflexivity). }
  destruct (wr_shut (chan_sock c)) eqn:Hw.
  { intro H. inversion H; subst. right.
    cbn [chan_port chan_sock chan_log set_sock]. repeat split; try lia;
      try (rewrite Hw; reflexivity). }
  intro H. inversion H; subst. right.
  cbn [chan_port chan_sock chan_log set_sock incoming sent wr_shut].
  repeat split; try lia.
  exists data. split; [reflexivity|]. split; [lia|reflexivity].
Qed.

(** [receive] either fails before it has a nonce and leaves the port
    alone, or moves the receive counter on by two and calls [decrypt]
    once with the nonce of the old counter on the frame it read. *)
Lemma Port_receive_inv (c c' : chan) (o : outcome bytes) :
  Port_receive E c = (o, c') ->
  let p := chan_port c in
  same_but_incoming (chan_sock c) (chan_sock c')
  /\ (exists got, List.concat (incoming (chan_sock c))
                  = got ++ List.concat (incoming (chan_sock c'))
                  /\ (forall a, o = Ret a -> (8 <= List.length got)%nat))
  /\ ((chan_port c' = p /\ chan_log c' = chan_log c
       /\ ((exists e, o = Raise e) \/ o = Blocked))
      \/
      (0 <= _receive_nonce p < 2 ^ 64
       /\ chan_port c' = after_receive p
       /\ exists data,
           chan_log c' = chan_log c ++ [Decrypt data (nonce_of (_receive_nonce p))]
           /\ match o with
              | Ret a =>
                  Box_decrypt E (_box p) data (nonce_of (_receive_nonce p)) = inr a
              | Raise e =>
                  Box_decrypt E (_box p) data (nonce_of (_receive_nonce p)) = inl e
              | _ => False
              end)).
Proof.
  unfold Port_receive. intro H.
  inv_bind H.
  2-4: unfold on_sock, zoom in Hm;
       destruct (socket_read_fixed 8 (chan_sock c)) as [o1 k1] eqn:Hr;
       inversion Hm; subst; inversion H; subst;
       apply socket_read_fixed_inv in Hr; destruct Hr as [Hs Ho];
       try contradiction.
  2,3: destruct Ho as [[got Hg] _]; cbv zeta;
       (split; [exact Hs|]); (split; [exists got; split; [exact Hg|discriminate]|]);
       left; (split; [reflexivity|]); (split; [reflexivity|]);
       first [left; eexists; reflexivity|right; reflexivity].
  unfold on_sock, zoom in Hm.
  destruct (socket_read_fixed 8 (chan_sock c)) as [o1 k1] eqn:Hr.
  inversion Hm; subst. clear Hm.
  apply socket_read_fixed_inv in Hr. destruct Hr as [Hs1 [Hg1 Hl1]].
  inv_bind H.
  2-4: unfold lift_sum in Hm; destruct (struct_unpack_Q a); inversion Hm; subst.
  2:{ inversion H; subst. cbv zeta. split; [exact Hs1|].
      split; [exists a; split; [exact Hg1|discriminate]|].
      left. repeat split. left. eexists; reflexivity. }
  unfold lift_sum in Hm. destruct (struct_unpack_Q a) as [|length]; inversion Hm; subst.
  clear Hm.
  inv_bind H.
  2-4: unfold on_sock, zoom in Hm; cbn [chan_sock set_sock] in Hm;
       destruct (socket_read_fixed a0 k1) as [o2 k2] eqn:Hr;
       inversion Hm; subst; inversion H; subst;
       apply socket_read_fixed_inv in Hr; destruct Hr as [Hs2 Ho];
       try contradiction.
  2,3: destruct Ho as [[got Hg] _]; cbv zeta; cbn [chan_sock set_sock];
       (split; [eapply same_but_incoming_trans; eassumption|]);
       (split; [exists (a ++ got); rewrite Hg1, Hg, app_assoc;
                split; [reflexivity|discriminate]|]);
       left; (split; [reflexivity|]); (split; [reflexivity|]);
       first [left; eexists; reflexivity|right; reflexivity].
  unfold on_sock, zoom in Hm. cbn [chan_sock set_sock] in Hm.
  destruct (socket_read_fixed a0 k1) as [o2 k2] eqn:Hr.
  inversion Hm; subst. clear Hm.
  apply socket_read_fixed_inv in Hr. destruct Hr as [Hs2 [Hg2 Hl2]].
  assert (Hsame : same_but_incoming (chan_sock c) k2)
    by (eapply same_but_incoming_trans; eassumption).
  assert (Hgot : exists got,
             List.concat (incoming (chan_sock c)) = got ++ List.concat (incoming k2)
             /\ (8 <= List.length got)%nat).
  { exists (a ++ a1). rewrite Hg1, Hg2, app_assoc. split; [reflexivity|].
    rewrite length_app, Hl1. simpl. lia. }
  destruct Hgot as (got & Hgot & Hgl).
  revert H. unfold bind, gets, log_call, modify, lift_sum, raise, ret.
  cbn [chan_port chan_sock chan_log set_sock set_port].
  destruct (struct_pack_24xQ (_receive_nonce (chan_port c))) as [e|nonce] eqn:Hn.
  { intro H. inversion H; subst. cbv zeta. cbn [chan_port chan_sock chan_log].
    split; [exact Hsame|]. split; [exists got; auto|].
    left. repeat split. left. eexists; reflexivity. }
  apply struct_pack_24xQ_inv in Hn. destruct Hn as [Hr ->].
  destruct (Box_decrypt E (_box (chan_port c)) a1
              (nonce_of (_receive_nonce (chan_port c)))) as [e|pt] eqn:Hd;
    intro H; inversion H; subst; cbv zeta; cbn [chan_port chan_sock chan_log];
    (split; [exact Hsame|]); (split; [exists got; auto|]);
    right; (split; [exact Hr|]); (split; [reflexivity|]);
    exists a1; (split; [reflexivity|exact Hd]).
Qed.

End PortFacts.

(* ================================================================== *)
(** * The nonce discipline of a port *)
(* ================================================================== *)

Lemma encrypt_nonces_app (a b : list box_call) :
  encrypt_nonces (a ++ b) = encrypt_nonces a ++ encrypt_nonces b.
Proof. unfold encrypt_nonces. apply flat_map_app. Qed.

Lemma decrypt_nonces_app (a b : list box_call) :
  decrypt_nonces (a ++ b) = decrypt_nonces a ++ decrypt_nonces b.
Proof. unfold decrypt_nonces. apply flat_map_app. Qed.

Lemma counters_bounds (n : nat) :
  forall start x, In x (counters start n) ->
    start <= x <= start + 2 * Z.of_nat n - 2 /\ (x - start) mod 2 = 0.
Proof.
  induction n as [|n IH]; intros start x Hx; [contradiction|].
  destruct Hx as [<-|Hx].
  - rewrite Z.sub_diag. split; [lia|reflexivity].
  - apply IH in Hx. destruct Hx as [Hb Hm]. split; [lia|].
    replace (x - start) with ((x - (start + 2)) + 1 * 2) by lia.
    rewrite Z.mod_add by lia. exact Hm.
Qed.

Lemma counters_sorted (n : nat) :
  forall start, StronglySorted Z.lt (counters start n).
Proof.
  induction n as [|n IH]; intro start; simpl; constructor.
  - apply IH.
  - apply Forall_forall. intros x Hx. apply counters_bounds in Hx. lia.
Qed.

(** What a run of operations does to the counters and to the box log. *)
Lemma do_ops_trace (E : Externals) (ops : list port_op) :
  forall c : chan,
    let c' := do_ops E ops c in
    let p := chan_port c in
    exists ns nr : nat,
      (ns <= count_sends ops)%nat
      /\ encrypt_nonces (chan_log c')
         = encrypt_nonces (chan_log c) ++ map nonce_of (counters (_send_nonce p) ns)
      /\ decrypt_nonces (chan_log c')
         = decrypt_nonces (chan_log c) ++ map nonce_of (counters (_receive_nonce p) nr)
      /\ _send_nonce (chan_port c') = _send_nonce p + 2 * Z.of_nat ns
      /\ _receive_nonce (chan_port c') = _receive_nonce p + 2 * Z.of_nat nr
      /\ _box (chan_port c') = _box p
      /\ (ns <> 0%nat -> 0 <= _send_nonce p /\ _send_nonce (chan_port c') - 2 < 2 ^ 64)
      /\ (nr <> 0%nat -> 0 <= _receive_nonce p /\ _receive_nonce (chan_port c') - 2 < 2 ^ 64)
      /\ (0 <= _send_nonce p ->
          _send_nonce p + 2 * Z.of_nat (count_sends ops) <= 2 ^ 64 ->
          ns = count_sends ops).
Proof.
  induction ops as [|op ops IH]; intro c; cbv zeta.
  - exists 0%nat, 0%nat. simpl. rewrite !app_nil_r.
    repeat split; try lia; try congruence.
  - change (do_ops E (op :: ops) c) with (do_ops E ops (do_op E op c)).
    specialize (IH (do_op E op c)). cbv zeta in IH.
    destruct IH as (ns & nr & Hc & He & Hd & Hs & Hr & Hb & Hsr & Hrr & Hall).
    destruct op as [msg|]; cbn [do_op] in *.
    + destruct (Port_send E msg c) as [o c1] eqn:Hsend. cbn [snd] in *.
      apply Port_send_inv in Hsend. cbv zeta in Hsend.
      destruct Hsend as [(-> & _ & Hout)|(Hin & Hp & Hl & _)].
      * exists ns, nr. cbn [count_sends filter List.length].
        repeat split; try assumption; try lia.
      * exists (S ns), nr. rewrite Hp, Hl in *. cbn [after_send _send_nonce _receive_nonce _box] in *.
        unfold count_sends in *. cbn [filter List.length].
        split; [lia|].
        split.
        { rewrite He, encrypt_nonces_app. cbn [encrypt_nonces flat_map counters map].
          rewrite <- app_assoc. reflexivity. }
        split; [rewrite Hd, decrypt_nonces_app; cbn [decrypt_nonces flat_map];
                rewrite app_nil_r; reflexivity|].
        split; [lia|]. split; [exact Hr|]. split; [exact Hb|].
        split.
        { intros _. destruct (Nat.eq_dec ns 0) as [->|Hns]; [lia|].
          specialize (Hsr Hns). lia. }
        split; [exact Hrr|].
        intros H0 Hle. f_equal. apply Hall; lia.
    + destruct (Port_receive E c) as [o c1] eqn:Hrecv. cbn [snd] in *.
      apply Port_receive_inv in Hrecv. cbv zeta in Hrecv.
      destruct Hrecv as (_ & _ & [(Hp & Hl & _)|(Hin & Hp & data & Hl & _)]).
      * exists ns, nr. rewrite Hp, Hl in *.
        repeat (split; [assumption|]). assumption.
      * exists ns, (S nr). rewrite Hp, Hl in *.
        cbn [after_receive _send_nonce _receive_nonce _box] in *.
        split; [exact Hc|].
        split; [rewrite He, encrypt_nonces_app; cbn [encrypt_nonces flat_map];
                rewrite app_nil_r; reflexivity|].
        split.
        { rewrite Hd, decrypt_nonces_app. cbn [decrypt_nonces flat_map counters map].
          rewrite <- app_assoc. reflexivity. }
        split; [exact Hs|]. split; [lia|]. split; [exact Hb|].
        split; [exact Hsr|].
        split.
        { intros _. destruct (Nat.eq_dec nr 0) as [->|Hnr]; [lia|].
          specialize (Hrr Hnr). lia. }
        exact Hall.
Qed.

Lemma nonce_of_inj (a b : Z) :
  0 <= a < 2 ^ 64 -> 0 <= b < 2 ^ 64 -> nonce_of a = nonce_of b -> a = b.
Proof.
  intros Ha Hb H. apply (f_equal be_decode) in H.
  rewrite !be_decode_nonce_of in H by assumption. exact H.
Qed.

Lemma decode_nonces_of (l : list Z) :
  Forall (fun x => 0 <= x < 2 ^ 64) l ->
  map be_decode (map nonce_of l) = l.
Proof.
  induction 1 as [|x l Hx _ IH]; simpl; [reflexivity|].
  rewrite be_decode_nonce_of by exact Hx. f_equal. exact IH.
Qed.

Lemma StronglySorted_lt_NoDup (l : list Z) :
  StronglySorted Z.lt l -> NoDup l.
Proof.
  induction 1 as [|x l _ IH Hx]; constructor; [|exact IH].
  intro Hin. rewrite Forall_forall in Hx. specialize (Hx x Hin). lia.
Qed.

Lemma counters_in_range (start : Z) (n : nat) :
  0 <= start -> start + 2 * Z.of_nat n - 2 < 2 ^ 64 ->
  Forall (fun x => 0 <= x < 2 ^ 64) (counters start n).
Proof.
  intros H0 H1. apply Forall_forall. intros x Hx.
  apply counters_bounds in Hx. lia.
Qed.

(** C2.  A port built with [is_client=True] starts with send counter 0 and
    receive counter 1, and the other way round for a server.  Every send
    and every receive that completes moves its own counter on by exactly
    two and leaves the other alone; a call that raises before it reaches
    the box uses no nonce.  Hence, for any sequence of sends interleaved
    with receives, returning or raising, the nonces handed to [encrypt]
    are those of the counters [s0, s0 + 2, ...], one per send: they are
    strictly increasing, never repeat, and none of them is ever handed
    to [decrypt] by the same port. *)
Theorem C2_nonce_discipline (E : Externals) (box : Box) (is_client : bool)
  (k : socket) (ops : list port_op) :
  let p0 := Port_init box is_client in
  let c := do_ops E ops (mk_chan k p0 []) in
  let enc := encrypt_nonces (chan_log c) in
  let dec := decrypt_nonces (chan_log c) in
  (_send_nonce p0 = (if is_client then 0 else 1)
   /\ _receive_nonce p0 = (if is_client then 1 else 0))
  /\ (forall msg c1 c2,
         Port_send E msg c1 = (Ret tt, c2) ->
         _send_nonce (chan_port c2) = _send_nonce (chan_port c1) + 2
         /\ _receive_nonce (chan_port c2) = _receive_nonce (chan_port c1))
  /\ (forall m c1 c2,
         Port_receive E c1 = (Ret m, c2) ->
         _receive_nonce (chan_port c2) = _receive_nonce (chan_port c1) + 2
         /\ _send_nonce (chan_port c2) = _send_nonce (chan_port c1))
  /\ (exists ns nr : nat,
         enc = map nonce_of (counters (_send_nonce p0) ns)
         /\ dec = map nonce_of (counters (_receive_nonce p0) nr)
         /\ _send_nonce (chan_port c) = _send_nonce p0 + 2 * Z.of_nat ns
         /\ _receive_nonce (chan_port c) = _receive_nonce p0 + 2 * Z.of_nat nr
         /\ (Z.of_nat (count_sends ops) < 2 ^ 63 -> ns = count_sends ops))
  /\ StronglySorted Z.lt (map be_decode enc)
  /\ NoDup enc
  /\ (forall n, In n enc -> ~ In n dec).
Proof.
  cbv zeta.
  split; [destruct is_client; split; reflexivity|].
  split.
  { intros msg c1 c2 H. apply Port_send_inv in H. cbv zeta in H.
    destruct H as [(_ & [e He] & _)|(_ & -> & _)]; [discriminate|].
    split; reflexivity. }
  split.
  { intros m c1 c2 H. apply Port_receive_inv in H. cbv zeta in H.
    destruct H as (_ & _ & [(_ & _ & [[e He]|He])|(_ & -> & _)]);
      [discriminate|discriminate|].
    split; reflexivity. }
  destruct (do_ops_trace E ops (mk_chan k (Port_init box is_client) []))
    as (ns & nr & Hc & He & Hd & Hs & Hr & _ & Hsr & Hrr & Hall).
  cbn [chan_port chan_log encrypt_nonces decrypt_nonces flat_map app] in *.
  set (c := do_ops E ops (mk_chan k (Port_init box is_client) [])) in *.
  set (s0 := _send_nonce (Port_init box is_client)) in *.
  set (r0 := _receive_nonce (Port_init box is_client)) in *.
  assert (Hs0 : s0 = 0 /\ r0 = 1 \/ s0 = 1 /\ r0 = 0)
    by (unfold s0, r0; destruct is_client; cbn; auto).
  assert (Hes : Forall (fun x => 0 <= x < 2 ^ 64) (counters s0 ns)).
  { destruct (Nat.eq_dec ns 0) as [->|Hns]; [constructor|].
    specialize (Hsr Hns). apply counters_in_range; lia. }
  assert (Hds : Forall (fun x => 0 <= x < 2 ^ 64) (counters r0 nr)).
  { destruct (Nat.eq_dec nr 0) as [->|Hnr]; [constructor|].
    specialize (Hrr Hnr). apply counters_in_range; lia. }
  assert (Hsorted : StronglySorted Z.lt
                      (map be_decode (encrypt_nonces (chan_log c)))).
  { rewrite He, decode_nonces_of by exact Hes. apply counters_sorted. }
  split.
  { exists ns, nr. repeat (split; [assumption|]).
    intro Hlt. apply Hall; lia. }
  split; [exact Hsorted|].
  split.
  { apply StronglySorted_lt_NoDup in Hsorted.
    eapply NoDup_map_inv. exact Hsorted. }
  intros n Hne Hnd. rewrite He in Hne. rewrite Hd in Hnd.
  apply in_map_iff in Hne. destruct Hne as (x & <- & Hx).
  apply in_map_iff in Hnd. destruct Hnd as (y & Hxy & Hy).
  rewrite Forall_forall in Hes, Hds.
  apply nonce_of_inj in Hxy; [|apply Hds; exact Hy|apply Hes; exact Hx].
  subst y. apply counters_bounds in Hx, Hy.
  destruct Hx as [_ Hx]. destruct Hy as [_ Hy].
  revert Hx Hy. destruct Hs0 as [[-> ->]|[-> ->]];
    intros Hx Hy; Z.div_mod_to_equations; lia.
Qed.

(** The discipline on a client port that sends twice around a receive
    from an ended stream. *)
Example C2_example :
  let c := do_ops Demo.ext [op_send [x01]; op_receive; op_send [x02]]
             (mk_chan (Demo.open_socket []) (Port_init Demo.server_box true) []) in
  encrypt_nonces (chan_log c) = [nonce_of 0; nonce_of 2]
  /\ decrypt_nonces (chan_log c) = []
  /\ _send_nonce (chan_port c) = 4 /\ _receive_nonce (chan_port c) = 1.
Proof. vm_compute. repeat split. Qed.

(* ================================================================== *)
(** * The wire form of a message *)
(* ================================================================== *)

(** C1.  What the first [send] and the first [receive] of a fresh port
    hand to the box.  The frame is the eight-byte big-endian length
    followed by the ciphertext, and the nonce ends in the eight-byte
    counter after zeros only, but the nonce is thirty-two bytes long:
    [">24xQ"] pads with twenty-four zero bytes before the counter, where
    a twenty-four-byte nonce has sixteen. *)
Theorem C1_nonce_has_32_bytes (E : Externals) (box : Box) (is_client : bool)
  (msg : bytes) :
  let fresh := fun k => mk_chan k (Port_init box is_client) [] in
  let send_nonce := repeat x00 31 ++ [if is_client then x00 else x01] in
  let receive_nonce := repeat x00 31 ++ [if is_client then x01 else x00] in
  (forall k,
      chan_log (snd (Port_send E msg (fresh k))) = [Encrypt msg send_nonce])
  /\ (forall k data,
         Box_encrypt E box msg send_nonce = inr data ->
         len data < 2 ^ 64 -> closed k = false -> wr_shut k = false ->
         sent (chan_sock (snd (Port_send E msg (fresh k))))
         = sent k ++ be_encode 8 (len data) ++ data)
  /\ chan_log (snd (Port_receive E
                      (fresh (mk_socket [repeat x00 8] [] false false false
                                EndOfStream))))
     = [Decrypt [] receive_nonce]
  /\ List.length send_nonce = 32%nat
  /\ List.length receive_nonce = 32%nat
  /\ List.length send_nonce <> 24%nat.
Proof.
  cbv zeta.
  assert (Hs : struct_pack_24xQ (if is_client then 0 else 1)
               = inr (repeat x00 31 ++ [if is_client then x00 else x01]))
    by (destruct is_client; reflexivity).
  split.
  { intro k. unfold Port_send, bind, gets, log_call, modify, lift_sum, on_sock,
      zoom, raise, ret.
    cbn [chan_port chan_sock chan_log Port_init _send_nonce _box _receive_nonce
         set_port].
    rewrite Hs.
    destruct (Box_encrypt E box msg _) as [e|data]; [reflexivity|].
    destruct (struct_pack_Q (len data)) as [e|ld]; [reflexivity|].
    cbn [chan_sock set_sock].
    destruct (sock_sendall (ld ++ data) k) as [o k']. reflexivity. }
  split.
  { intros k data He Hl Hc Hw.
    unfold Port_send, bind, gets, log_call, modify, lift_sum, on_sock,
      zoom, raise, ret.
    cbn [chan_port chan_sock chan_log Port_init _send_nonce _box _receive_nonce
         set_port].
    rewrite Hs, He.
    rewrite struct_pack_Q_ok by (unfold len in *; lia).
    cbn [chan_sock set_sock]. unfold sock_sendall. rewrite Hc, Hw.
    reflexivity. }
  split.
  { destruct is_client; cbv -[Box_decrypt];
      match goal with
      | |- context [Box_decrypt E ?b ?d ?n] => destruct (Box_decrypt E b d n)
      end; reflexivity. }
  repeat split; try (rewrite length_app, repeat_length; reflexivity).
  rewrite length_app, repeat_length. discriminate.
Qed.

(* ================================================================== *)
(** * Two ports over one stream *)
(* ================================================================== *)

Section RoundTrip.

Variable E : Externals.

Lemma on_sock_read_ok (c : chan) (pre rest : bytes) :
  readable (chan_sock c) ->
  List.concat (incoming (chan_sock c)) = pre ++ rest ->
  exists k',
    on_sock (socket_read_fixed (len pre)) c = (Ret pre, set_sock k' c)
    /\ List.concat (incoming k') = rest
    /\ readable k' /\ same_but_incoming (chan_sock c) k'.
Proof.
  intros Hr Hc.
  destruct (socket_read_fixed_ok (chan_sock c) pre rest Hr Hc)
    as (k' & Hrun & H).
  exists k'. unfold on_sock, zoom. rewrite Hrun. split; [reflexivity|exact H].
Qed.

(** One message: what the sender's [send] put on the wire, the receiver's
    [receive] takes off it and opens, when the two counters agree. *)
Lemma roundtrip_one (msg wire rest : bytes) (cs cs' cr : chan) :
  box_pair E (_box (chan_port cs)) (_box (chan_port cr)) ->
  _send_nonce (chan_port cs) = _receive_nonce (chan_port cr) ->
  Port_send E msg cs = (Ret tt, cs') ->
  sent (chan_sock cs') = sent (chan_sock cs) ++ wire ->
  readable (chan_sock cr) ->
  List.concat (incoming (chan_sock cr)) = wire ++ rest ->
  exists cr',
    Port_receive E cr = (Ret msg, cr')
    /\ List.concat (incoming (chan_sock cr')) = rest
    /\ readable (chan_sock cr')
    /\ chan_port cr' = after_receive (chan_port cr)
    /\ chan_port cs' = after_send (chan_port cs).
Proof.
  intros Hbox Hnonce Hsend Hwire Hread Hin.
  apply Port_send_inv in Hsend. cbv zeta in Hsend.
  destruct Hsend as [(_ & [e He] & _)|(Hrange & Hp & _ & _ & _ & data & Henc & Hlen & Hsent)];
    [discriminate|].
  rewrite Hsent in Hwire. apply app_inv_head in Hwire. subst wire.
  rewrite <- app_assoc in Hin.
  destruct (on_sock_read_ok cr (be_encode 8 (len data)) (data ++ rest) Hread Hin)
    as (k1 & Hr1 & Hc1 & Hread1 & Hs1).
  assert (Hl8 : len (be_encode 8 (len data)) = 8)
    by (unfold len; rewrite be_encode_length; reflexivity).
  rewrite Hl8 in Hr1.
  destruct (on_sock_read_ok (set_sock k1 cr) data rest Hread1 Hc1)
    as (k2 & Hr2 & Hc2 & Hread2 & Hs2).
  exists (mk_chan k2 (after_receive (chan_port cr))
            (chan_log cr ++ [Decrypt data (nonce_of (_receive_nonce (chan_port cr)))])).
  split.
  { unfold Port_receive, bind. rewrite Hr1.
    unfold lift_sum at 1. rewrite struct_unpack_pack_Q by exact Hlen.
    unfold ret at 1. rewrite Hr2.
    unfold gets, log_call, modify, lift_sum, raise, ret.
    cbn [chan_port chan_sock chan_log set_sock set_port].
    rewrite Hnonce in Hrange, Henc.
    rewrite struct_pack_24xQ_ok by exact Hrange.
    rewrite (Hbox _ _ _ Henc). reflexivity. }
  cbn [chan_sock chan_port]. auto.
Qed.

Lemma send_all_sent (msgs : list bytes) :
  forall cs cs',
    send_all E msgs cs = (Ret tt, cs') ->
    exists wire, sent (chan_sock cs') = sent (chan_sock cs) ++ wire.
Proof.
  induction msgs as [|msg msgs IH]; intros cs cs' H.
  - inversion H; subst. exists []. rewrite app_nil_r. reflexivity.
  - cbn [send_all] in H. inv_bind H; try discriminate.
    apply IH in H. destruct H as [w2 H2].
    apply Port_send_inv in Hm. cbv zeta in Hm.
    destruct Hm as [(_ & [e He] & _)|(_ & _ & _ & _ & _ & data & _ & _ & Hsent)];
      [discriminate|].
    exists ((be_encode 8 (len data) ++ data) ++ w2).
    rewrite H2, Hsent, <- !app_assoc. reflexivity.
Qed.

Lemma roundtrip_all (msgs : list bytes) :
  forall (cs cs' cr : chan) (wire rest : bytes),
    box_pair E (_box (chan_port cs)) (_box (chan_port cr)) ->
    _send_nonce (chan_port cs) = _receive_nonce (chan_port cr) ->
    send_all E msgs cs = (Ret tt, cs') ->
    sent (chan_sock cs') = sent (chan_sock cs) ++ wire ->
    readable (chan_sock cr) ->
    List.concat (incoming (chan_sock cr)) = wire ++ rest ->
    exists cr',
      receive_n E (List.length msgs) cr = (Ret msgs, cr')
      /\ List.concat (incoming (chan_sock cr')) = rest.
Proof.
  induction msgs as [|msg msgs IH];
    intros cs cs' cr wire rest Hbox Hnonce Hsend Hwire Hread Hin.
  - inversion Hsend; subst. exists cr. split; [reflexivity|].
    rewrite <- (app_nil_r (sent (chan_sock cs'))) in Hwire at 1.
    apply app_inv_head in Hwire. subst wire. exact Hin.
  - cbn [send_all] in Hsend. inv_bind Hsend; try discriminate.
    destruct a.
    destruct (send_all_sent _ _ _ Hsend) as [w2 Hw2].
    pose proof Hm as Hm'.
    apply Port_send_inv in Hm'. cbv zeta in Hm'.
    destruct Hm' as [(_ & [e He] & _)|(_ & _ & _ & _ & _ & data & _ & _ & Hsent)];
      [discriminate|].
    rewrite Hw2, Hsent, <- app_assoc in Hwire. apply app_inv_head in Hwire.
    subst wire. rewrite <- app_assoc in Hin.
    destruct (roundtrip_one msg _ (w2 ++ rest) cs s cr Hbox Hnonce Hm Hsent Hread Hin)
      as (cr1 & Hrecv & Hin1 & Hread1 & Hpr & Hps).
    destruct (IH s cs' cr1 w2 rest) as (cr' & Hrest & Hfin); try assumption.
    + rewrite Hpr, Hps. exact Hbox.
    + rewrite Hpr, Hps. cbn. rewrite Hnonce. reflexivity.
    + exists cr'. cbn [List.length receive_n]. unfold bind at 1.
      rewrite Hrecv. unfold bind. rewrite Hrest. split; [reflexivity|exact Hfin].
Qed.

End RoundTrip.

Section StrictBox.

Variable E : Externals.
Hypothesis strict : strict_box E.

(** The box refuses the nonce that [send] builds: nothing is written. *)
Lemma strict_send_raises (msg : bytes) (c : chan) :
  exists e, fst (Port_send E msg c) = Raise e
            /\ chan_sock (snd (Port_send E msg c)) = chan_sock c.
Proof.
  destruct (Port_send E msg c) as [o c'] eqn:H. cbn [fst snd].
  apply Port_send_inv in H. cbv zeta in H.
  destruct H as [(-> & [e ->] & _)|(_ & _ & _ & _ & _ & Ho)].
  - exists e. split; reflexivity.
  - destruct o as [u|e| |]; try contradiction.
    + destruct Ho as (data & Henc & _).
      destruct (strict (_box (chan_port c)) msg
                  (nonce_of (_send_nonce (chan_port c)))) as [[e He] _].
      { rewrite nonce_of_length. discriminate. }
      rewrite He in Henc. discriminate.
    + exists e. split; [reflexivity|exact Ho].
Qed.

(** The box refuses the nonce that [receive] builds. *)
Lemma strict_receive_never_returns (c : chan) (msg : bytes) :
  fst (Port_receive E c) <> Ret msg.
Proof.
  destruct (Port_receive E c) as [o c'] eqn:H. cbn [fst]. intros ->.
  apply Port_receive_inv in H. cbv zeta in H.
  destruct H as (_ & _ & [(_ & _ & [[e He]|He])|(_ & _ & data & _ & Hd)]);
    [discriminate|discriminate|].
  destruct (strict (_box (chan_port c)) data
              (nonce_of (_receive_nonce (chan_port c)))) as [_ [e He]].
  { rewrite nonce_of_length. discriminate. }
  rewrite He in Hd. discriminate.
Qed.

End StrictBox.

(** C8, as the code has it.  Two ports on one box with opposite roles,
    the box being one that takes nonces of twenty-four bytes only, as
    the boxes of NaCl do.  The nonce that [send] and [receive] build has
    thirty-two bytes (see C1), so no message gets through: for every
    byte string [m], [send(m)] raises when it calls [encrypt] and writes
    nothing to the stream, and [receive] on the other side does not
    return [m], nor any other message; this holds for every port and
    every state of its socket. *)
Theorem C8_no_message_gets_through (E : Externals) (box : Box)
  (is_client : bool) (ks kr : socket) (m : bytes) :
  strict_box E ->
  let sender := mk_chan ks (Port_init box is_client) [] in
  let receiver := mk_chan kr (Port_init box (negb is_client)) [] in
  (exists e, fst (Port_send E m sender) = Raise e)
  /\ sent (chan_sock (snd (Port_send E m sender))) = sent ks
  /\ fst (Port_receive E receiver) <> Ret m
  /\ (forall c msg, fst (Port_send E msg c) <> Ret tt)
  /\ (forall c msg, fst (Port_receive E c) <> Ret msg).
Proof.
  intro strict. cbv zeta.
  destruct (strict_send_raises E strict m
              (mk_chan ks (Port_init box is_client) [])) as (e & He & Hs).
  split; [exists e; exact He|].
  split; [rewrite Hs; reflexivity|].
  split; [apply strict_receive_never_returns; exact strict|].
  split.
  - intros c msg H. destruct (strict_send_raises E strict msg c) as (e' & He' & _).
    rewrite He' in H. discriminate.
  - intros c msg. apply strict_receive_never_returns. exact strict.
Qed.

Lemma demo_strict_box : strict_box Demo.strict_ext.
Proof.
  intros box text nonce Hn. cbn. unfold Demo.strict_encrypt, Demo.strict_decrypt.
  apply Nat.eqb_neq in Hn. rewrite Hn.
  split; eexists; reflexivity.
Qed.

(** The message "hi" from a server port to a client port. *)
Lemma C8_witness :
  strict_box Demo.strict_ext
  /\ (exists e, fst (Port_send Demo.strict_ext [x68; x69] Demo.server_chan)
                = Raise e)
  /\ sent (chan_sock (snd (Port_send Demo.strict_ext [x68; x69] Demo.server_chan)))
     = []
  /\ fst (Port_receive Demo.strict_ext
            (mk_chan Demo.cut_socket (Port_init Demo.server_box true) []))
     <> Ret [x68; x69].
Proof.
  split; [exact demo_strict_box|].
  pose proof (C8_no_message_gets_through Demo.strict_ext Demo.server_box false
                (Demo.open_socket []) Demo.cut_socket [x68; x69]
                demo_strict_box) as H.
  cbv zeta in H. destruct H as (H1 & H2 & H3 & _).
  split; [exact H1|]. split; [exact H2|exact H3].
Defined.

(** The example of C8 computed: what [encrypt] answers. *)
Example C8_example :
  fst (Port_send Demo.strict_ext [x68; x69] Demo.server_chan)
  = Raise (PyExc ValueError "The nonce must be exactly 24 bytes long").
Proof. vm_compute. reflexivity. Qed.

(** X10.  With a box that does accept the nonces of [send] and
    [receive]: two ports built on the two boxes of one key exchange with
    opposite roles, the receiver reading exactly the bytes the sender
    wrote, however the stream cuts them into pieces.  Whatever messages
    the sender's [send] accepted, of any length, the receiver's
    [receive] returns, the same bytes in the same order. *)
Theorem receive_inverts_send_for_a_box_pair (E : Externals) (box_s box_r : Box)
  (is_client : bool) (msgs : list bytes) (ks kr : socket) (cs' : chan) :
  box_pair E box_s box_r ->
  send_all E msgs (mk_chan ks (Port_init box_s is_client) []) = (Ret tt, cs') ->
  readable kr ->
  sent (chan_sock cs') = sent ks ++ List.concat (incoming kr) ->
  fst (receive_n E (List.length msgs)
         (mk_chan kr (Port_init box_r (negb is_client)) []))
  = Ret msgs.
Proof.
  intros Hbox Hsend Hread Hwire.
  destruct (roundtrip_all E msgs
              (mk_chan ks (Port_init box_s is_client) []) cs'
              (mk_chan kr (Port_init box_r (negb is_client)) [])
              (List.concat (incoming kr)) [])
    as (cr' & Hrecv & _); try assumption.
  - destruct is_client; reflexivity.
  - cbn. rewrite app_nil_r. reflexivity.
  - rewrite Hrecv. reflexivity.
Qed.

Lemma demo_starts_with_app (a b : bytes) : Demo.starts_with a (a ++ b) = true.
Proof.
  induction a as [|x a IH]; simpl; [reflexivity|].
  rewrite IH, andb_true_r. apply Byte.byte_dec_lb. reflexivity.
Qed.

(** The box of the concrete instance opens what it sealed. *)
Lemma demo_box_pair (b1 b2 : Box) : box_pair Demo.ext b1 b2.
Proof.
  intros msg nonce data H. cbn in H. unfold Demo.encrypt in H.
  inversion H; subst. cbn. unfold Demo.decrypt.
  rewrite demo_starts_with_app. f_equal.
  rewrite skipn_app, skipn_all, Nat.sub_diag. reflexivity.
Qed.

(** Three messages from a server to a client, the stream cut inside
    frames. *)
Lemma receive_inverts_send_for_a_box_pair_witness :
  fst (receive_n Demo.ext 3
         (mk_chan Demo.cut_socket (Port_init Demo.server_box true) []))
  = Ret Demo.three_msgs.
Proof.
  refine (receive_inverts_send_for_a_box_pair Demo.ext Demo.server_box
            Demo.server_box false
            Demo.three_msgs (Demo.open_socket []) Demo.cut_socket
            (snd (send_all Demo.ext Demo.three_msgs Demo.server_chan))
            _ _ _ _).
  - apply demo_box_pair.
  - vm_compute. reflexivity.
  - unfold readable. vm_compute. repeat split; repeat constructor; discriminate.
  - vm_compute. reflexivity.
Defined.

(* ================================================================== *)
(** * What every step of a connection preserves *)
(* ================================================================== *)

Section Obeys.

Variable R : state -> state -> Prop.
Hypothesis R_refl : forall s, R s s.
Hypothesis R_trans : forall a b c, R a b -> R b c -> R a c.

Lemma obeys_ret {A : Type} (a : A) : obeys R (ret a).
Proof. intros s o s' H. inversion H; subst. apply R_refl. Qed.

Lemma obeys_raise {A : Type} (e : exn) : obeys R (@raise state A e).
Proof. intros s o s' H. inversion H; subst. apply R_refl. Qed.

Lemma obeys_lift_sum {A : Type} (r : exn + A) : obeys R (lift_sum r).
Proof. destruct r; [apply obeys_raise|apply obeys_ret]. Qed.

Lemma obeys_gets {A : Type} (f : state -> A) : obeys R (gets f).
Proof. intros s o s' H. inversion H; subst. apply R_refl. Qed.

Lemma obeys_bind {A B : Type} (m : M state A) (k : A -> M state B) :
  obeys R m -> (forall a, obeys R (k a)) -> obeys R (bind m k).
Proof.
  intros Hm Hk s o s' H. unfold bind in H.
  destruct (m s) as [o1 s1] eqn:H1. apply Hm in H1.
  destruct o1; try (inversion H; subst; exact H1).
  apply Hk in H. eapply R_trans; eassumption.
Qed.

(** The main loop obeys what its four steps obey, for the values of
    [finished] that the sending step can produce. *)
Lemma main_loop_obeys (E : Externals) (self : Connection) (F : bool -> Prop) :
  (forall finished, F finished ->
     obeys R (send_step E finished)
     /\ forall s finished' s',
          send_step E finished s = (Ret finished', s') -> F finished') ->
  obeys R (on_port (Port_receive_json E)) ->
  obeys R (put self NeedMoreWork) ->
  (forall msg, obeys R (handle_result E self msg)) ->
  forall fuel finished, F finished -> obeys R (main_loop E self fuel finished).
Proof.
  intros Hsend Hrecv Hput Hres.
  induction fuel as [|fuel IH]; intros finished HF s o s' H.
  { inversion H; subst. apply R_refl. }
  cbn [main_loop] in H.
  destruct (Hsend finished HF) as [Hs HF'].
  inv_bind_as H finished' s1 H1;
    try (injection H as _ <-; exact (Hs _ _ _ H1)).
  specialize (HF' _ _ _ H1). apply Hs in H1.
  inv_bind_as H msg s2 H2;
    try (injection H as _ <-; apply Hrecv in H2; eapply R_trans; eassumption).
  apply Hrecv in H2.
  assert (H02 : R s s2) by (eapply R_trans; eassumption).
  unfold bind at 1 in H. unfold lift_sum in H.
  destruct (json_prop msg "type" t_str) as [e|msg_type];
    [injection H as _ <-; exact H02|].
  cbv beta iota in H. unfold ret at 1 in H.
  destruct (String.eqb (str_value msg_type) "finish");
    [injection H as _ <-; exact H02|].
  destruct (String.eqb (str_value msg_type) "need_work").
  { inv_bind_as H u s3 H3;
      try (injection H as _ <-; apply Hput in H3; eapply R_trans; eassumption).
    apply Hput in H3. apply (IH _ HF') in H.
    eapply R_trans; [exact H02|]. eapply R_trans; eassumption. }
  destruct (String.eqb (str_value msg_type) "result").
  { inv_bind_as H u s3 H3;
      try (injection H as _ <-; apply Hres in H3; eapply R_trans; eassumption).
    apply Hres in H3. apply (IH _ HF') in H.
    eapply R_trans; [exact H02|]. eapply R_trans; eassumption. }
  injection H as _ <-. exact H02.
Qed.

End Obeys.

Lemma on_port_inv {A : Type} (m : M chan A) (s s' : state) (o : outcome A) :
  on_port m s = (o, s') ->
  exists c', m (conn s) = (o, c') /\ s' = set_conn c' s.
Proof.
  unfold on_port, zoom. intro H. destruct (m (conn s)) as [o1 c1].
  injection H as <- <-. exists c1. split; reflexivity.
Qed.

Lemma lift_sum_Ret {S A : Type} (r : exn + A) (s s' : S) (a : A) :
  lift_sum r s = (Ret a, s') -> r = inr a /\ s' = s.
Proof. destruct r; intro H; inversion H; auto. Qed.

Lemma lift_sum_state {A : Type} (r : exn + A) (s s' : state) (o : outcome A) :
  lift_sum r s = (o, s') -> s' = s.
Proof. destruct r; intro H; inversion H; reflexivity. Qed.

(** [receive_json] leaves the port as its [receive] left it. *)
Lemma receive_json_via_receive (E : Externals) (c c' : chan) (o : outcome pyobj) :
  Port_receive_json E c = (o, c') ->
  exists o1, Port_receive E c = (o1, c')
             /\ match o with
                | Ret _ => exists raw, o1 = Ret raw
                | Raise _ => True
                | Blocked => o1 = Blocked
                | OutOfFuel => o1 = OutOfFuel
                end.
Proof.
  unfold Port_receive_json, bind. intro H.
  destruct (Port_receive E c) as [[raw|e| |] c1];
    try (injection H as <- <-; eexists; split; reflexivity).
  unfold lift_sum in H. destruct (json_loads E raw) as [e|v];
    [injection H as <- <-; eexists; split; [reflexivity|exact I]|].
  cbn [ret] in H. destruct (negb (isinstance v t_dict));
    injection H as <- <-; eexists; (split; [reflexivity|]);
    [exact I|eexists; reflexivity].
Qed.

(** The tuple that is to be put on the feedback queue is never built:
    reading [nickname] raises. *)
Lemma put_raises (self : Connection) (f : Feedback) (s : state) :
  put self f s = (Raise no_nickname, s).
Proof. reflexivity. Qed.

Lemma chan_extends_refl (c : chan) : chan_extends c c.
Proof.
  repeat split; try (exists []; rewrite ?app_nil_r; reflexivity). auto.
Qed.

Lemma chan_extends_trans (a b c : chan) :
  chan_extends a b -> chan_extends b c -> chan_extends a c.
Proof.
  intros ([g1 H1] & [m1 H2] & [w1 H3] & H4) ([g2 G1] & [m2 G2] & [w2 G3] & G4).
  repeat split.
  - exists (g1 ++ g2). rewrite H1, G1, app_assoc. reflexivity.
  - exists (m1 ++ m2). rewrite G2, H2, app_assoc. reflexivity.
  - exists (w1 ++ w2). rewrite G3, H3, app_assoc. reflexivity.
  - auto.
Qed.

Lemma extends_refl (s : state) : extends s s.
Proof.
  split; [apply chan_extends_refl|]. split; [reflexivity|].
  exists []. reflexivity.
Qed.

Lemma extends_trans (a b c : state) :
  extends a b -> extends b c -> extends a c.
Proof.
  intros (H1 & H2 & [t1 H3]) (G1 & G2 & [t2 G3]).
  split; [eapply chan_extends_trans; eassumption|].
  split; [congruence|].
  exists (t1 ++ t2). rewrite H3, G3, app_assoc. reflexivity.
Qed.

Lemma extends_pending (s s' : state) :
  extends s s' -> (pending s' <= pending s)%nat.
Proof.
  intros (([got H] & _) & _). unfold pending. rewrite H, length_app. lia.
Qed.

Lemma tame_ret {A : Type} (a : A) : tame (ret a).
Proof.
  intros s o s' H. inversion H; subst.
  split; [discriminate|]. split; [discriminate|apply extends_refl].
Qed.

Lemma tame_raise {A : Type} (e : exn) : tame (@raise state A e).
Proof.
  intros s o s' H. inversion H; subst.
  split; [discriminate|]. split; [discriminate|apply extends_refl].
Qed.

Lemma tame_lift_sum {A : Type} (r : exn + A) : tame (lift_sum r).
Proof. destruct r; [apply tame_raise|apply tame_ret]. Qed.

Lemma tame_gets {A : Type} (f : state -> A) : tame (gets f).
Proof.
  intros s o s' H. inversion H; subst.
  split; [discriminate|]. split; [discriminate|apply extends_refl].
Qed.

Lemma tame_bind {A B : Type} (m : M state A) (k : A -> M state B) :
  tame m -> (forall a, tame (k a)) -> tame (bind m k).
Proof.
  intros Hm Hk s o s' H. unfold bind in H.
  destruct (m s) as [o1 s1] eqn:H1. apply Hm in H1.
  destruct H1 as (Hf & Hb & He).
  destruct o1; try (inversion H; subst; split; [discriminate|]; split; auto; discriminate).
  - apply Hk in H. destruct H as (Hf' & Hb' & He').
    split; [exact Hf'|]. split; [exact Hb'|].
    eapply extends_trans; eassumption.
  - exfalso. apply Hf. reflexivity.
Qed.

Lemma chan_tame_ret {A : Type} (a : A) : chan_tame (ret a).
Proof.
  intros s o s' H. inversion H; subst.
  split; [discriminate|]. split; [discriminate|apply chan_extends_refl].
Qed.

Lemma chan_tame_raise {A : Type} (e : exn) : chan_tame (@raise chan A e).
Proof.
  intros s o s' H. inversion H; subst.
  split; [discriminate|]. split; [discriminate|apply chan_extends_refl].
Qed.

Lemma chan_tame_lift_sum {A : Type} (r : exn + A) : chan_tame (lift_sum r).
Proof. destruct r; [apply chan_tame_raise|apply chan_tame_ret]. Qed.

Lemma chan_tame_bind {A B : Type} (m : M chan A) (k : A -> M chan B) :
  chan_tame m -> (forall a, chan_tame (k a)) -> chan_tame (bind m k).
Proof.
  intros Hm Hk s o s' H. unfold bind in H.
  destruct (m s) as [o1 s1] eqn:H1. apply Hm in H1.
  destruct H1 as (Hf & Hb & He).
  destruct o1; try (inversion H; subst; split; [discriminate|]; split; auto; discriminate).
  - apply Hk in H. destruct H as (Hf' & Hb' & He').
    split; [exact Hf'|]. split; [exact Hb'|].
    eapply chan_extends_trans; eassumption.
  - exfalso. apply Hf. reflexivity.
Qed.

Lemma tame_on_port {A : Type} (m : M chan A) : chan_tame m -> tame (on_port m).
Proof.
  intros Hm s o s' H. unfold on_port, zoom in H.
  destruct (m (conn s)) as [o1 c1] eqn:H1. inversion H; subst.
  apply Hm in H1. destruct H1 as (Hf & Hb & He).
  split; [exact Hf|]. split; [exact Hb|].
  split; [exact He|]. cbn.
  split; [reflexivity|exists []; reflexivity].
Qed.

Lemma tame_put (self : Connection) (f : Feedback) : tame (put self f).
Proof.
  intros s o s' H. rewrite put_raises in H. inversion H; subst.
  split; [discriminate|]. split; [discriminate|apply extends_refl].
Qed.

Lemma tame_create_connection : tame create_connection.
Proof.
  intros s o s' H. unfold create_connection in H.
  destruct (connect_error s); inversion H; subst;
    (split; [discriminate|]); (split; [discriminate|]).
  - apply extends_refl.
  - split; [apply chan_extends_refl|]. cbn.
    split; [reflexivity|exists []; reflexivity].
Qed.

Lemma chan_tame_read (n : Z) : chan_tame (on_sock (socket_read_fixed n)).
Proof.
  intros c o c' H. unfold on_sock, zoom in H.
  destruct (socket_read_fixed n (chan_sock c)) as [o1 k1] eqn:H1.
  inversion H; subst. apply socket_read_fixed_inv in H1.
  destruct H1 as [(Hs & Hw & _ & Hc & He) Ho].
  assert (Hext : (exists got, List.concat (incoming (chan_sock c))
                              = got ++ List.concat (incoming k1))
                 -> chan_extends c (set_sock k1 c)).
  { intro Hg. split; [exact Hg|]. cbn.
    split; [exists []; rewrite app_nil_r; reflexivity|].
    split; [exists []; rewrite app_nil_r; exact Hs|].
    rewrite Hw. auto. }
  destruct o; try contradiction.
  - destruct Ho as [Hg _]. split; [discriminate|]. split; [discriminate|].
    apply Hext. eexists; exact Hg.
  - destruct Ho as [Hg _]. split; [discriminate|]. split; [discriminate|].
    apply Hext. exact Hg.
  - destruct Ho as (Hg & Hcl & Hsil). split; [discriminate|].
    split; [intros _; unfold silent; cbn; rewrite Hc, He; auto|].
    apply Hext. exact Hg.
Qed.

Lemma chan_tame_sendall (data : bytes) : chan_tame (on_sock (sock_sendall data)).
Proof.
  intros c o c' H. unfold on_sock, zoom, sock_sendall in H.
  destruct (closed (chan_sock c)) eqn:Hc;
    [|destruct (wr_shut (chan_sock c)) eqn:Hw];
    inversion H; subst; (split; [discriminate|]); (split; [discriminate|]).
  - destruct c as [[] ? ?]; apply chan_extends_refl.
  - destruct c as [[] ? ?]; apply chan_extends_refl.
  - cbn. split; [exists []; reflexivity|].
    split; [exists []; rewrite app_nil_r; reflexivity|].
    split; [exists data; reflexivity|]. cbn. congruence.
Qed.

Lemma chan_tame_shutdown (how : shut_how) : chan_tame (SocketPort_shutdown how).
Proof.
  intros c o c' H.
  unfold SocketPort_shutdown, socket_shutdown, on_sock, zoom, sock_shutdown in H.
  destruct (closed (chan_sock c)) eqn:Hc; inversion H; subst;
    (split; [discriminate|]); (split; [discriminate|]).
  - destruct c as [[] ? ?]; apply chan_extends_refl.
  - cbn. split; [exists []; reflexivity|].
    split; [exists []; rewrite app_nil_r; reflexivity|].
    split; [exists []; rewrite app_nil_r; reflexivity|].
    cbn. destruct how; auto.
Qed.

Lemma chan_tame_set_port (p : Port) : chan_tame (modify (set_port p)).
Proof.
  intros c o c' H. inversion H; subst.
  split; [discriminate|]. split; [discriminate|].
  cbn. split; [exists []; reflexivity|].
  split; [exists []; rewrite app_nil_r; reflexivity|].
  split; [exists []; rewrite app_nil_r; reflexivity|auto].
Qed.

Section Tame.

Variable E : Externals.

Lemma chan_tame_send (msg : bytes) : chan_tame (Port_send E msg).
Proof.
  intros c o c' H. apply Port_send_inv in H. cbv zeta in H.
  destruct H as [(-> & [e ->] & _)|(_ & _ & Hl & Hi & Hw & Ho)].
  - split; [discriminate|]. split; [discriminate|apply chan_extends_refl].
  - assert (Hext : (exists wire, sent (chan_sock c') = sent (chan_sock c) ++ wire)
                   -> chan_extends c c').
    { intros Hs. split; [exists []; rewrite Hi; reflexivity|].
      split; [eexists; exact Hl|]. split; [exact Hs|]. rewrite Hw. auto. }
    destruct o; try contradiction; (split; [discriminate|]); (split; [discriminate|]).
    + apply Hext. destruct Ho as (data & _ & _ & Hs). eexists; exact Hs.
    + apply Hext. rewrite Ho. exists []. rewrite app_nil_r. reflexivity.
Qed.

Lemma chan_tame_receive : chan_tame (Port_receive E).
Proof.
  intros c o c' H.
  assert (Hsil : o = Blocked -> silent (chan_sock c')).
  { intros ->. unfold Port_receive in H.
    inv_bind_as H header c1 H1; try discriminate.
    2:{ injection H as <-. apply chan_tame_read in H1. apply H1. reflexivity. }
    inv_bind_as H length c2 H2; try discriminate.
    2:{ apply lift_sum_Ret in H2 || (unfold lift_sum in H2;
          destruct (struct_unpack_Q header); discriminate). }
    inv_bind_as H data c3 H3; try discriminate.
    2:{ injection H as <-. apply chan_tame_read in H3. apply H3. reflexivity. }
    exfalso. revert H. unfold bind, gets, log_call, modify, lift_sum, raise, ret.
    destruct (struct_pack_24xQ _); [discriminate|].
    destruct (Box_decrypt E _ _ _); discriminate. }
  apply Port_receive_inv in H. cbv zeta in H.
  destruct H as ((Hs & Hw & _) & (got & Hg & _) & Hcase).
  assert (Hext : (exists more, chan_log c' = chan_log c ++ more)
                 -> chan_extends c c').
  { intro Hl. split; [exists got; exact Hg|]. split; [exact Hl|].
    split; [exists []; rewrite app_nil_r; exact Hs|]. rewrite Hw. auto. }
  destruct Hcase as [(_ & Hl & Ho)|(_ & _ & data & Hl & Ho)].
  - split; [destruct Ho as [[e ->]| ->]; discriminate|].
    split; [exact Hsil|].
    apply Hext. exists []. rewrite app_nil_r. exact Hl.
  - destruct o; try contradiction; (split; [discriminate|]);
      (split; [discriminate|]); apply Hext; eexists; exact Hl.
Qed.

(** A [receive] that returns has taken at least the eight bytes of the
    length off the stream. *)
Lemma receive_consumes (c c' : chan) (a : bytes) :
  Port_receive E c = (Ret a, c') ->
  (List.length (List.concat (incoming (chan_sock c'))) + 8
   <= List.length (List.concat (incoming (chan_sock c))))%nat.
Proof.
  intro H. apply Port_receive_inv in H. cbv zeta in H.
  destruct H as (_ & (got & Hg & Hl) & _).
  rewrite Hg, length_app. specialize (Hl a eq_refl). lia.
Qed.

Lemma chan_tame_send_json (msg : pyobj) : chan_tame (Port_send_json E msg).
Proof. unfold Port_send_json. apply chan_tame_send. Qed.

Lemma chan_tame_receive_json : chan_tame (Port_receive_json E).
Proof.
  unfold Port_receive_json.
  apply chan_tame_bind; [apply chan_tame_receive|intro].
  apply chan_tame_bind; [apply chan_tame_lift_sum|intro].
  destruct (negb (isinstance a0 t_dict)); [apply chan_tame_raise|apply chan_tame_ret].
Qed.

End Tame.

(** Solves [tame] and [chan_tame] goals on computations put together from
    the steps above. *)
Ltac tame_tac :=
  repeat first
    [ apply tame_ret | apply tame_raise | apply tame_lift_sum | apply tame_gets
    | apply tame_create_connection
    | apply chan_tame_ret | apply chan_tame_raise | apply chan_tame_lift_sum
    | apply chan_tame_read | apply chan_tame_sendall | apply chan_tame_shutdown
    | apply chan_tame_set_port | apply chan_tame_send
    | apply chan_tame_receive | apply chan_tame_send_json
    | apply chan_tame_receive_json
    | apply tame_put
    | apply tame_on_port
    | apply tame_bind; [|intro]
    | apply chan_tame_bind; [|intro]
    | assumption
    | match goal with
      | |- tame (if ?b then _ else _) => destruct b
      | |- chan_tame (if ?b then _ else _) => destruct b
      | |- tame (match ?x with _ => _ end) => destruct x
      | |- chan_tame (match ?x with _ => _ end) => destruct x
      end ].

Lemma tame_bind_split {A B : Type} (m : M state A) (k : A -> M state B)
  (s s' : state) (o : outcome B) :
  (forall a, tame (k a)) ->
  bind m k s = (o, s') ->
  exists o1 s1, m s = (o1, s1) /\ extends s1 s'.
Proof.
  intros Hk H. unfold bind in H.
  destruct (m s) as [o1 s1] eqn:Hm. exists o1, s1. split; [reflexivity|].
  destruct o1; try (inversion H; subst; apply extends_refl).
  apply Hk in H. apply H.
Qed.

Section TameClient.

Variable E : Externals.
Variable self : Connection.

Lemma receive_json_consumes (s s' : state) (msg : pyobj) :
  on_port (Port_receive_json E) s = (Ret msg, s') ->
  (pending s' < pending s)%nat.
Proof.
  intro H. apply on_port_inv in H. destruct H as (c' & H & ->).
  apply receive_json_via_receive in H. destruct H as (o1 & H & [raw ->]).
  apply receive_consumes in H. unfold pending. cbn. lia.
Qed.

Lemma tame_setup : tame (_setup E self).
Proof.
  unfold _setup, on_socket.
  repeat (apply tame_bind; [tame_tac|intro]); tame_tac.
Qed.

Lemma tame_init : tame (_init E self).
Proof.
  unfold _init.
  tame_tac.
Qed.

Lemma tame_send_blobs (permuters : list PortablePermuter) :
  tame (send_blobs E permuters).
Proof. induction permuters as [|p ps IH]; cbn [send_blobs]; tame_tac. Qed.

Lemma tame_send_permuters : tame (_send_permuters E self).
Proof.
  unfold _send_permuters.
  apply tame_bind; [apply tame_on_port, chan_tame_send_json|intro].
  apply tame_send_blobs.
Qed.

Lemma tame_result_of (msg : pyobj) : tame (result_of E msg).
Proof.
  unfold result_of.
  apply tame_bind; [tame_tac|intro].
  apply tame_bind; [tame_tac|intro].
  apply tame_bind.
  { destruct (eq_True a0); [|apply tame_ret].
    apply tame_bind; [apply tame_on_port, chan_tame_receive|intro]. tame_tac. }
  intro. tame_tac.
Qed.

Lemma tame_handle_result (msg : pyobj) : tame (handle_result E self msg).
Proof.
  unfold handle_result.
  apply tame_bind; [apply tame_result_of|intro; apply tame_put].
Qed.

(** The branch for a "result" message never gets past its [put]. *)
Lemma handle_result_never_returns (msg : pyobj) (s s' : state) (u : unit) :
  handle_result E self msg s <> (Ret u, s').
Proof.
  unfold handle_result, bind. intro H.
  destruct (result_of E msg s) as [[built| | |] s1]; discriminate.
Qed.

(** The validation of the baselines changes nothing: it returns or
    raises, and the note of a differing hash is never put. *)
Lemma check_base_state (i : nat) (base : pyobj) (s s' : state) (o : outcome unit) :
  check_base E self i base s = (o, s') ->
  s' = s /\ (o = Ret tt \/ exists e, o = Raise e).
Proof.
  unfold check_base, bind, lift_sum, raise, ret.
  destruct (json_prop base "base_score" t_int) as [e|v];
    [intro H; injection H as <- <-; split; [reflexivity|right; eexists; reflexivity]|].
  destruct (json_prop base "base_hash" t_str) as [e|h];
    [intro H; injection H as <- <-; split; [reflexivity|right; eexists; reflexivity]|].
  destruct (nth_error (_permuters self) i) as [p|];
    [|intro H; injection H as <- <-; split; [reflexivity|right; eexists; reflexivity]].
  destruct (negb (int_value v =? base_score p));
    [intro H; injection H as <- <-; split; [reflexivity|right; eexists; reflexivity]|].
  destruct (negb (String.eqb (str_value h) (base_hash p)));
    [rewrite put_raises|];
    intro H; injection H as <- <-; split; try reflexivity;
    [right; eexists; reflexivity|left; reflexivity].
Qed.

Lemma check_bases_state (bases : list pyobj) :
  forall (i : nat) (s s' : state) (o : outcome unit),
    check_bases E self i bases s = (o, s') ->
    s' = s /\ (o = Ret tt \/ exists e, o = Raise e).
Proof.
  induction bases as [|base bases IH]; intros i s s' o H.
  - injection H as <- <-. split; [reflexivity|left; reflexivity].
  - cbn [check_bases] in H. unfold bind in H.
    destruct (check_base E self i base s) as [o1 s1] eqn:H1.
    apply check_base_state in H1. destruct H1 as [-> [->|[e ->]]].
    + apply IH in H. exact H.
    + injection H as <- <-. split; [reflexivity|right; eexists; reflexivity].
Qed.

(** Whatever the server reported, [run] does not get past the request
    for work that precedes the main loop: from the baseline validation
    on it raises, and the state is as it was. *)
Lemma run_stream_raises (msg : pyobj) (s : state) :
  exists e, run_stream E self msg s = (Raise e, s).
Proof.
  unfold run_stream, bind, lift_sum, raise, ret.
  destruct (json_prop msg "perm_bases" t_list) as [e|perm_bases];
    [eexists; reflexivity|].
  destruct (json_array perm_bases t_dict) as [e|bases]; [eexists; reflexivity|].
  destruct (negb (len bases =? len (_permuters self))); [eexists; reflexivity|].
  destruct (check_bases E self 0 bases s) as [o s1] eqn:Hc.
  apply check_bases_state in Hc. destruct Hc as [-> [->|[e ->]]].
  - rewrite put_raises. eexists; reflexivity.
  - eexists; reflexivity.
Qed.

Lemma tame_run_stream (msg : pyobj) : tame (run_stream E self msg).
Proof.
  intros s o s' H. destruct (run_stream_raises msg s) as [e He].
  rewrite He in H. injection H as <- <-.
  split; [discriminate|]. split; [discriminate|apply extends_refl].
Qed.

Lemma tame_run_session : tame (run_session E self).
Proof.
  unfold run_session.
  apply tame_bind; [apply tame_send_permuters|intro].
  apply tame_bind; [apply tame_on_port, chan_tame_receive_json|intro].
  apply tame_bind; [tame_tac|intro].
  destruct (negb (bool_value a1)); [tame_tac|apply tame_run_stream].
Qed.

Lemma tame_run_try : tame (run_try E self).
Proof.
  unfold run_try.
  apply tame_bind; [apply tame_setup|intro].
  apply tame_bind; [apply tame_init|intro].
  destruct (SFltb _ _); [apply tame_ret|apply tame_run_session].
Qed.

End TameClient.

(* ================================================================== *)
(** * How [run] ends *)
(* ================================================================== *)

Lemma untouched_refl (s : state) : untouched s s.
Proof. repeat split. Qed.

Lemma untouched_trans (a b c : state) :
  untouched a b -> untouched b c -> untouched a c.
Proof.
  unfold untouched. intros (H1 & H2 & H3) (G1 & G2 & G3).
  repeat split; congruence.
Qed.

(** A step on the port leaves the queues alone; it leaves the shutdown
    state of the socket alone if it does so on the channel. *)
Lemma on_port_untouched {A : Type} (m : M chan A) :
  (forall c o c', m c = (o, c') ->
                  shut_state (chan_sock c') = shut_state (chan_sock c)) ->
  obeys untouched (on_port m).
Proof.
  intros Hm s o s' H. apply on_port_inv in H. destruct H as (c' & H & ->).
  apply Hm in H. repeat split. exact H.
Qed.

Lemma same_but_incoming_shut (k k' : socket) :
  same_but_incoming k k' -> shut_state k' = shut_state k.
Proof.
  intros (_ & Hw & Hr & Hc & _). unfold shut_state. rewrite Hw, Hr, Hc.
  reflexivity.
Qed.

Lemma read_shut (n : Z) (c c' : chan) (o : outcome bytes) :
  on_sock (socket_read_fixed n) c = (o, c') ->
  shut_state (chan_sock c') = shut_state (chan_sock c).
Proof.
  unfold on_sock, zoom. intro H.
  destruct (socket_read_fixed n (chan_sock c)) as [o1 k1] eqn:Hr.
  injection H as _ <-. apply socket_read_fixed_inv in Hr.
  apply same_but_incoming_shut. apply Hr.
Qed.

Lemma sendall_shut (data : bytes) (c c' : chan) (o : outcome unit) :
  on_sock (sock_sendall data) c = (o, c') ->
  shut_state (chan_sock c') = shut_state (chan_sock c).
Proof.
  unfold on_sock, zoom, sock_sendall, shut_state. intro H.
  destruct (closed (chan_sock c)) eqn:Hc;
    [|destruct (wr_shut (chan_sock c)) eqn:Hw];
    injection H as _ <-; cbn; rewrite ?Hc, ?Hw; reflexivity.
Qed.

Lemma Port_send_shut (E : Externals) (msg : bytes) (c c' : chan) (o : outcome unit) :
  Port_send E msg c = (o, c') ->
  shut_state (chan_sock c') = shut_state (chan_sock c).
Proof.
  unfold Port_send, bind, gets, log_call, modify, lift_sum, raise, ret.
  destruct (struct_pack_24xQ (_send_nonce (chan_port c))) as [e|nonce];
    [intro H; injection H as _ <-; reflexivity|].
  cbn [chan_port chan_sock chan_log set_port].
  destruct (Box_encrypt E (_box (chan_port c)) msg nonce) as [e|data];
    [intro H; injection H as _ <-; reflexivity|].
  destruct (struct_pack_Q (len data)) as [e|ld];
    [intro H; injection H as _ <-; reflexivity|].
  intro H. apply sendall_shut in H. exact H.
Qed.

Lemma Port_receive_shut (E : Externals) (c c' : chan) (o : outcome bytes) :
  Port_receive E c = (o, c') ->
  shut_state (chan_sock c') = shut_state (chan_sock c).
Proof.
  intro H. apply Port_receive_inv in H. cbv zeta in H.
  apply same_but_incoming_shut. apply H.
Qed.

Lemma Port_receive_json_shut (E : Externals) (c c' : chan) (o : outcome pyobj) :
  Port_receive_json E c = (o, c') ->
  shut_state (chan_sock c') = shut_state (chan_sock c).
Proof.
  intro H. apply receive_json_via_receive in H. destruct H as (o1 & H & _).
  exact (Port_receive_shut _ _ _ _ H).
Qed.

Lemma create_connection_untouched : obeys untouched create_connection.
Proof.
  intros s o s' H. unfold create_connection in H.
  destruct (connect_error s); injection H as _ <-; repeat split.
Qed.

(** Solves [obeys untouched] goals on the steps that come before the
    main loop. *)
Ltac untouched_tac :=
  repeat first
    [ apply create_connection_untouched
    | apply on_port_untouched; intros ? ? ?;
      first [ apply Port_send_shut | apply Port_receive_shut
            | apply Port_receive_json_shut | apply read_shut
            | apply sendall_shut
            | (let Hmod := fresh "Hmod" in
               intro Hmod; injection Hmod as _ <-; reflexivity) ]
    | apply obeys_ret; exact untouched_refl
    | apply obeys_raise; exact untouched_refl
    | apply obeys_lift_sum; exact untouched_refl
    | apply obeys_gets; exact untouched_refl
    | apply obeys_bind; [exact untouched_trans| |intro]
    | assumption
    | match goal with
      | |- obeys _ (if ?b then _ else _) => destruct b
      | |- obeys _ (match ?x with _ => _ end) => destruct x
      end ].

Section RunEnds.

Variable E : Externals.
Variable self : Connection.

Lemma setup_untouched : obeys untouched (_setup E self).
Proof. unfold _setup, on_socket. untouched_tac. Qed.

Lemma init_untouched : obeys untouched (_init E self).
Proof. unfold _init. untouched_tac. Qed.

Lemma send_blobs_untouched (permuters : list PortablePermuter) :
  obeys untouched (send_blobs E permuters).
Proof. induction permuters as [|p ps IH]; cbn [send_blobs]; untouched_tac. Qed.

Lemma run_stream_untouched (msg : pyobj) : obeys untouched (run_stream E self msg).
Proof.
  intros s o s' H. destruct (run_stream_raises E self msg s) as [e He].
  rewrite He in H. injection H as _ <-. apply untouched_refl.
Qed.

Lemma run_session_untouched : obeys untouched (run_session E self).
Proof.
  unfold run_session, _send_permuters, Port_send_json.
  apply obeys_bind; [exact untouched_trans| |intro].
  { apply obeys_bind; [exact untouched_trans|untouched_tac|intro].
    apply send_blobs_untouched. }
  apply obeys_bind; [exact untouched_trans|untouched_tac|intro msg].
  apply obeys_bind; [exact untouched_trans|untouched_tac|intro success].
  destruct (negb (bool_value success)); [untouched_tac|].
  apply run_stream_untouched.
Qed.

(** Before the main loop nothing is reported, no task is taken and the
    socket is neither shut down nor closed; the [try] block never gets
    to the main loop. *)
Lemma run_try_untouched : obeys untouched (run_try E self).
Proof.
  unfold run_try.
  apply obeys_bind; [exact untouched_trans|apply setup_untouched|intro].
  apply obeys_bind; [exact untouched_trans|apply init_untouched|intro props].
  destruct (SFltb _ _); [apply obeys_ret; exact untouched_refl|].
  apply run_session_untouched.
Qed.

Lemma run_session_returns (s s' : state) (r : option string) :
  run_session E self s = (Ret r, s') -> left_by_compile_failure r.
Proof.
  unfold run_session. intro H.
  inv_bind H; try discriminate.
  inv_bind H; try discriminate.
  inv_bind H; try discriminate.
  destruct (negb (bool_value a1)).
  - inv_bind H; try discriminate. inversion H; subst.
    eexists; reflexivity.
  - destruct (run_stream_raises E self a0 s2) as [e He].
    rewrite He in H. discriminate.
Qed.

(** The [try] block is left without an exception only by one of its two
    [return] statements, never by the [break] of the main loop. *)
Lemma run_try_returns (s s' : state) (r : option string) :
  run_try E self s = (Ret r, s') ->
  left_by_decline r \/ left_by_compile_failure r.
Proof.
  unfold run_try. intro H.
  inv_bind H; try discriminate.
  inv_bind H; try discriminate.
  destruct (SFltb _ _).
  - inversion H; subst. left. eexists; reflexivity.
  - right. eapply run_session_returns. exact H.
Qed.

(** The [finally] block raises at its first statement: the terminal
    event is not put, and the socket is neither shut down nor closed. *)
Lemma run_finally_raises (reason : option string) (s : state) :
  run_finally self reason s = (Raise no_nickname, s).
Proof. reflexivity. Qed.

(** The value of [finish_reason] with which the [finally] block is
    entered is always a text. *)
Lemma run_reason_spec (s : state) :
  match run_reason E self s with
  | (Ret reason, s') =>
      match run_try E self s with
      | (Ret finish_reason, s1) =>
          s1 = s' /\ reason = finish_reason
          /\ (left_by_decline reason \/ left_by_compile_failure reason)
      | (Raise e, s1) =>
          s1 = s'
          /\ reason = Some (if is_EOFError e then "disconnected"
                            else ("error: " ++ exception_to_string E e)%string)
      | _ => False
      end
  | (Raise _, _) => False
  | (Blocked, s') => run_try E self s = (Blocked, s')
  | (OutOfFuel, _) => False
  end.
Proof.
  unfold run_reason.
  destruct (run_try E self s) as [[fr|e| |] s1] eqn:Htry.
  - split; [reflexivity|]. split; [reflexivity|].
    eapply run_try_returns. exact Htry.
  - destruct (is_EOFError e); split; reflexivity.
  - reflexivity.
  - apply tame_run_try in Htry. destruct Htry as [Hf _]. apply Hf. reflexivity.
Qed.

Lemma run_reason_some (s s' : state) (reason : option string) :
  run_reason E self s = (Ret reason, s') -> exists text, reason = Some text.
Proof.
  intro H. pose proof (run_reason_spec s) as Hs. rewrite H in Hs.
  destruct (run_try E self s) as [[fr|e| |] s1]; try contradiction.
  - destruct Hs as (_ & -> & [[m ->]|[m ->]]); eexists; reflexivity.
  - destruct Hs as (_ & ->). eexists; reflexivity.
Qed.

Lemma run_reason_untouched : obeys untouched (run_reason E self).
Proof.
  intros s o s' H. unfold run_reason in H.
  destruct (run_try E self s) as [[fr|e| |] s1] eqn:Htry;
    apply run_try_untouched in Htry.
  - injection H as _ <-. exact Htry.
  - destruct (is_EOFError e); injection H as _ <-; exact Htry.
  - injection H as _ <-. exact Htry.
  - injection H as _ <-. exact Htry.
Qed.

(** [run] in terms of the [try] block with its handlers. *)
Lemma run_by_reason (s : state) :
  run E self s
  = match run_reason E self s with
    | (Ret _, s') => (Raise no_nickname, s')
    | (Raise e, s') => (Raise e, s')
    | (Blocked, s') => (Blocked, s')
    | (OutOfFuel, s') => (OutOfFuel, s')
    end.
Proof.
  unfold run, bind.
  destruct (run_reason E self s) as [[fr|e| |] s1]; reflexivity.
Qed.

End RunEnds.

(** C7, as the code has it.  [run] never returns and never emits the
    terminal event.  The dataclass [RemoteServer] has no attribute
    [nickname], so the first statement of the [finally] block raises
    [AttributeError] while it builds the tuple for the queue.  Every
    [run] that ends therefore ends with this exception escaping, after
    the [try] block with its handlers had set [finish_reason] to a text;
    the feedback queue and the task queue are as they were before, and
    the socket has been neither shut down nor closed.  The only other
    way for [run] to go on is to wait for ever on a connection that has
    gone silent. *)
Theorem C7_terminal_event_never_emitted (E : Externals) (self : Connection)
  (s : state) :
  match run E self s with
  | (Ret _, _) => False
  | (Raise e, s') =>
      e = no_nickname
      /\ untouched s s'
      /\ exists text, run_reason E self s = (Ret (Some text), s')
  | (Blocked, s') => untouched s s' /\ silent (chan_sock (conn s'))
  | (OutOfFuel, _) => False
  end.
Proof.
  rewrite run_by_reason.
  pose proof (run_reason_spec E self s) as Hspec.
  destruct (run_reason E self s) as [[fr|e| |] s1] eqn:Hr; try contradiction.
  - split; [reflexivity|].
    split; [exact (run_reason_untouched E self _ _ _ Hr)|].
    destruct (run_reason_some E self _ _ _ Hr) as [text ->].
    exists text. reflexivity.
  - split; [exact (run_reason_untouched E self _ _ _ Hr)|].
    apply tame_run_try in Hspec. destruct Hspec as (_ & Hb & _).
    apply Hb. reflexivity.
Qed.

(** A server that refuses the connection: the handler sets the reason,
    and the exception of the [finally] block escapes; the feedback queue
    stays empty. *)
Example C7_connection_refused :
  run_reason Demo.ext (Demo.client Demo.f5) Demo.refused
  = (Ret (Some "error: [Errno 111] Connection refused"), Demo.refused)
  /\ run Demo.ext (Demo.client Demo.f5) Demo.refused
     = (Raise no_nickname, Demo.refused)
  /\ _feedback_queue Demo.refused = [].
Proof. vm_compute. repeat split. Qed.

(* ================================================================== *)
(** * When the main loop ends *)
(* ================================================================== *)

Section LoopEnds.

Variable E : Externals.
Variable self : Connection.


(** The sending step waits only for a task, and its loop bound is not
    an issue. *)
Lemma send_step_tame (finished : bool) (s s' : state) (o : outcome bool) :
  send_step E finished s = (o, s') ->
  o <> OutOfFuel /\ (o = Blocked -> _task_queue s' = []) /\ extends s s'.
Proof.
  unfold send_step. destruct finished; cbn [negb].
  1:{ intro H. injection H as <- <-.
      split; [discriminate|]. split; [discriminate|apply extends_refl]. }
  intro H. unfold bind at 1 in H. unfold task_get at 1 in H.
  destruct (_task_queue s) as [|task rest] eqn:Hq.
  { injection H as <- <-. split; [discriminate|]. split; [auto|apply extends_refl]. }
  set (s1 := mk_state (conn s) (self_sock s) rest (_feedback_queue s)
               (connect_error s) (ephemeral s)) in *.
  assert (H1 : extends s s1).
  { split; [apply chan_extends_refl|]. split; [reflexivity|].
    exists [task]. exact Hq. }
  assert (Ht : forall o2 s2,
             (match task with
              | TaskFinished _ =>
                  on_port (Port_send_json E finish_msg) ;;
                  on_port (SocketPort_shutdown SHUT_WR) ;; ret true
              | TaskWork permuter seed =>
                  on_port (Port_send_json E (work_msg permuter seed)) ;;
                  ret false
              end) s1 = (o2, s2) ->
             o2 <> OutOfFuel /\ o2 <> Blocked /\ extends s1 s2).
  { intros o2 s2 H2.
    assert (Htame : tame (match task with
              | TaskFinished _ =>
                  on_port (Port_send_json E finish_msg) ;;
                  on_port (SocketPort_shutdown SHUT_WR) ;; ret true
              | TaskWork permuter seed =>
                  on_port (Port_send_json E (work_msg permuter seed)) ;;
                  ret false
              end)) by (destruct task; tame_tac).
    pose proof (Htame _ _ _ H2) as (Hf & _ & He).
    split; [exact Hf|]. split; [|exact He].
    intros ->. destruct task as [reason|permuter seed].
    - inv_bind_as H2 u1 sa Ha; try discriminate.
      + inv_bind_as H2 u2 sb Hb; try discriminate.
        apply on_port_inv in Hb. destruct Hb as (cb & Hb & _).
        unfold SocketPort_shutdown, socket_shutdown, on_sock, zoom,
          sock_shutdown in Hb.
        destruct (closed (chan_sock (conn sa))); discriminate.
      + apply on_port_inv in Ha. destruct Ha as (ca & Ha & _).
        apply Port_send_inv in Ha. cbv zeta in Ha.
        destruct Ha as [(_ & [e He'] & _)|(_ & _ & _ & _ & _ & Ho)];
          [discriminate|contradiction].
    - inv_bind_as H2 u1 sa Ha; try discriminate.
      apply on_port_inv in Ha. destruct Ha as (ca & Ha & _).
      apply Port_send_inv in Ha. cbv zeta in Ha.
      destruct Ha as [(_ & [e He'] & _)|(_ & _ & _ & _ & _ & Ho)];
        [discriminate|contradiction]. }
  destruct (Ht _ _ H) as (Hf & Hb & He).
  split; [exact Hf|]. split; [intro; contradiction|].
  eapply extends_trans; eassumption.
Qed.



(** One round is all the main loop ever runs, so any bound of at least
    one round is enough; it waits only for a task or on a silent
    connection, and it only extends the state. *)
Lemma main_loop_tame (fuel : nat) (finished : bool) (s s' : state)
  (o : outcome bool) :
  main_loop E self (S fuel) finished s = (o, s') ->
  o <> OutOfFuel
  /\ (o = Blocked -> _task_queue s' = [] \/ silent (chan_sock (conn s')))
  /\ extends s s'.
Proof.
  cbn [main_loop]. intro H.
  inv_bind_as H finished' s1 H1.
  2-4: apply send_step_tame in H1; destruct H1 as (Hf & Hb & He);
       injection H as <- <-;
       (split; [exact Hf|split; [intro Hx; left; apply Hb; exact Hx|exact He]]).
  apply send_step_tame in H1. destruct H1 as (_ & _ & He1).
  inv_bind_as H msg s2 H2.
  2-4: apply (tame_on_port _ (chan_tame_receive_json E)) in H2;
       destruct H2 as (Hf & Hb & He2);
       injection H as <- <-;
       (split; [first [discriminate|exfalso; apply Hf; reflexivity]|
        split; [intro Hx; first [discriminate Hx|right; apply Hb; reflexivity]|
                eapply extends_trans; eassumption]]).
  apply (tame_on_port _ (chan_tame_receive_json E)) in H2.
  destruct H2 as (_ & _ & He2).
  assert (He02 : extends s s2) by (eapply extends_trans; eassumption).
  unfold bind at 1 in H. unfold lift_sum in H.
  destruct (json_prop msg "type" t_str) as [e|msg_type].
  { injection H as <- <-. split; [discriminate|]. split; [discriminate|assumption]. }
  cbv beta iota in H. unfold ret at 1 in H.
  destruct (String.eqb (str_value msg_type) "finish").
  { injection H as <- <-. split; [discriminate|]. split; [discriminate|assumption]. }
  destruct (String.eqb (str_value msg_type) "need_work").
  { unfold bind at 1 in H. rewrite put_raises in H. injection H as <- <-.
    split; [discriminate|]. split; [discriminate|assumption]. }
  destruct (String.eqb (str_value msg_type) "result").
  { unfold bind at 1 in H.
    destruct (handle_result E self msg s2) as [[u| | |] s3] eqn:Hh.
    - exfalso. exact (handle_result_never_returns E self _ _ _ _ Hh).
    - apply tame_handle_result in Hh. destruct Hh as (_ & _ & He3).
      injection H as <- <-. split; [discriminate|]. split; [discriminate|].
      eapply extends_trans; eassumption.
    - apply tame_handle_result in Hh. destruct Hh as (_ & Hb & He3).
      injection H as <- <-. split; [discriminate|].
      split; [intros _; right; apply Hb; reflexivity|].
      eapply extends_trans; eassumption.
    - apply tame_handle_result in Hh. destruct Hh as (Hf & _).
      exfalso. apply Hf. reflexivity. }
  injection H as <- <-. split; [discriminate|]. split; [discriminate|assumption].
Qed.

End LoopEnds.



(* ================================================================== *)
(** * The priority gate *)
(* ================================================================== *)

Lemma SFleb_not_SFltb (a b : spec_float) :
  SFleb a b = true -> SFltb b a = false.
Proof.
  unfold SFleb, SFltb.
  assert (H : SFcompare b a = option_map CompOpp (SFcompare a b)).
  { destruct a as [sa|sa| |sa ma ea], b as [sb|sb| |sb mb eb]; cbn;
      try reflexivity;
      try (destruct sa; reflexivity); try (destruct sb; reflexivity);
      try (destruct sa, sb; reflexivity).
    change (Pos.compare_cont Eq mb ma) with (Pos.compare mb ma).
    change (Pos.compare_cont Eq ma mb) with (Pos.compare ma mb).
    rewrite (Z.compare_antisym ea eb), (Pos.compare_antisym ma mb).
    destruct sa, sb; try reflexivity;
      destruct (ea ?= eb); try reflexivity;
      destruct (Pos.compare ma mb); reflexivity. }
  rewrite H. destruct (SFcompare a b) as [[| |]|]; cbn; congruence.
Qed.

Lemma encrypt_payloads_app (a b : list box_call) :
  encrypt_payloads (a ++ b) = encrypt_payloads a ++ encrypt_payloads b.
Proof. unfold encrypt_payloads. apply flat_map_app. Qed.

Lemma only_received_refl (s : state) : only_received s s.
Proof. repeat split. Qed.

Lemma only_received_trans (a b c : state) :
  only_received a b -> only_received b c -> only_received a c.
Proof.
  unfold only_received. intros (H1 & H2 & H3 & H4) (G1 & G2 & G3 & G4).
  repeat split; congruence.
Qed.

Lemma receive_only_received (E : Externals) :
  obeys only_received (on_port (Port_receive E)).
Proof.
  intros s o s' H. apply on_port_inv in H. destruct H as (c' & H & ->).
  apply Port_receive_inv in H. cbv zeta in H.
  destruct H as ((Hsent & _) & _ & Hcase).
  unfold only_received. cbn [conn set_conn _task_queue].
  split; [exact Hsent|].
  destruct Hcase as [(Hp & Hl & _)|(_ & Hp & data & Hl & _)]; rewrite Hp, Hl.
  - repeat split.
  - rewrite encrypt_payloads_app. cbn. rewrite app_nil_r. repeat split.
Qed.

Lemma receive_json_only_received (E : Externals) :
  obeys only_received (on_port (Port_receive_json E)).
Proof.
  intros s o s' H. apply on_port_inv in H. destruct H as (c' & H & ->).
  apply receive_json_via_receive in H. destruct H as (o1 & Hr & _).
  apply (receive_only_received E s o1 (set_conn c' s)).
  unfold on_port, zoom. rewrite Hr. reflexivity.
Qed.

Section Descriptors.

Variable E : Externals.
Variable self : Connection.

Lemma handed_over_refl (s : state) : handed_over s s [].
Proof.
  unfold handed_over. cbn. rewrite app_nil_r.
  repeat (split; [reflexivity || lia|]). reflexivity.
Qed.

Lemma handed_over_trans (a b c : state) (m1 m2 : list bytes) :
  handed_over a b m1 -> handed_over b c m2 -> handed_over a c (m1 ++ m2).
Proof.
  intros (H1 & H2 & H3 & H4 & H5 & H6) (K1 & K2 & K3 & K4 & K5 & K6).
  unfold handed_over, len in *. rewrite length_app.
  rewrite K1, H1, app_assoc, K2, H2, K3, H3, K4, H4, K5, H5, K6, H6.
  repeat (split; [reflexivity || lia|]). reflexivity.
Qed.

(** One [send]: the message reaches [encrypt] unless the counter is
    outside u64, and a send that returns has handed it over. *)
Lemma send_hands_over (msg : bytes) (s s' : state) (o : outcome unit) :
  on_port (Port_send E msg) s = (o, s') ->
  match o with
  | Ret _ => handed_over s s' [msg]
  | Raise _ => handed_over s s' [] \/ handed_over s s' [msg]
  | _ => False
  end.
Proof.
  intro H. apply on_port_inv in H. destruct H as (c' & H & ->).
  apply Port_send_inv in H. cbv zeta in H.
  destruct H as [(-> & [e ->] & _)|(_ & Hp & Hl & Hi & _ & Ho)].
  - left. pose proof (handed_over_refl s) as Hr.
    unfold handed_over in *. cbn [conn set_conn _task_queue _feedback_queue].
    exact Hr.
  - assert (Hh : handed_over s (set_conn c' s) [msg]).
    { unfold handed_over. cbn [conn set_conn _task_queue _feedback_queue].
      rewrite Hp, Hl, Hi, encrypt_payloads_app. cbn.
      repeat (split; [reflexivity|]). reflexivity. }
    destruct o; [exact Hh|right; exact Hh|contradiction|contradiction].
Qed.

(** The second loop of [_send_permuters]: two blobs per descriptor. *)
Lemma send_blobs_in_order (permuters : list PortablePermuter) (s : state) :
  match send_blobs E permuters s with
  | (Ret _, s') =>
      handed_over s s'
        (flat_map (fun p => [compressed_source p; target_o_bin p]) permuters)
  | (Raise _, s') =>
      exists msgs more,
        flat_map (fun p => [compressed_source p; target_o_bin p]) permuters
        = msgs ++ more
        /\ handed_over s s' msgs
  | _ => False
  end.
Proof.
  revert s. induction permuters as [|p ps IH]; intro s; cbn [send_blobs flat_map].
  - apply handed_over_refl.
  - unfold bind at 1.
    destruct (on_port (Port_send E (compressed_source p)) s) as [o1 s1] eqn:H1.
    apply send_hands_over in H1.
    destruct o1 as [u1|e1| |]; try contradiction.
    2:{ destruct H1 as [H1|H1].
        - exists [], (compressed_source p :: target_o_bin p :: flat_map
                        (fun p => [compressed_source p; target_o_bin p]) ps).
          split; [reflexivity|exact H1].
        - exists [compressed_source p], (target_o_bin p :: flat_map
                        (fun p => [compressed_source p; target_o_bin p]) ps).
          split; [reflexivity|exact H1]. }
    unfold bind at 1.
    destruct (on_port (Port_send E (target_o_bin p)) s1) as [o2 s2] eqn:H2.
    apply send_hands_over in H2.
    destruct o2 as [u2|e2| |]; try contradiction.
    2:{ destruct H2 as [H2|H2].
        - exists [compressed_source p], (target_o_bin p :: flat_map
                        (fun p => [compressed_source p; target_o_bin p]) ps).
          split; [reflexivity|].
          exact (handed_over_trans _ _ _ _ _ H1 H2).
        - exists [compressed_source p; target_o_bin p],
            (flat_map (fun p => [compressed_source p; target_o_bin p]) ps).
          split; [reflexivity|].
          exact (handed_over_trans _ _ _ _ _ H1 H2). }
    pose proof (handed_over_trans _ _ _ _ _ H1 H2) as H12. cbn [app] in H12.
    specialize (IH s2).
    destruct (send_blobs E ps s2) as [[u3|e3| |] s3]; try contradiction.
    + exact (handed_over_trans _ _ _ _ _ H12 IH).
    + destruct IH as (msgs & more & Hsplit & IH).
      exists ([compressed_source p; target_o_bin p] ++ msgs), more.
      split; [cbn; rewrite Hsplit; reflexivity|].
      exact (handed_over_trans _ _ _ _ _ H12 IH).
Qed.

(** [_send_permuters]: the metadata message, then the blobs. *)
Lemma send_permuters_hands_over (s : state) :
  match _send_permuters E self s with
  | (Ret _, s') =>
      handed_over s s' (descriptor_messages E self)
      /\ len (descriptor_messages E self) = 1 + 2 * len (_permuters self)
  | (Raise _, s') =>
      exists msgs more,
        descriptor_messages E self = msgs ++ more
        /\ handed_over s s' msgs
  | _ => False
  end.
Proof.
  unfold _send_permuters, descriptor_messages, Port_send_json.
  unfold bind at 1.
  destruct (on_port (Port_send E (json_dumps E (init_obj self))) s)
    as [o1 s1] eqn:H1.
  apply send_hands_over in H1.
  destruct o1 as [u1|e1| |]; try contradiction.
  2:{ destruct H1 as [H1|H1].
      - exists [], (json_dumps E (init_obj self)
                    :: flat_map (fun p => [compressed_source p; target_o_bin p])
                         (_permuters self)).
        split; [reflexivity|exact H1].
      - exists [json_dumps E (init_obj self)],
          (flat_map (fun p => [compressed_source p; target_o_bin p])
             (_permuters self)).
        split; [reflexivity|exact H1]. }
  pose proof (send_blobs_in_order (_permuters self) s1) as H2.
  destruct (send_blobs E (_permuters self) s1) as [[u2|e2| |] s2];
    try contradiction.
  - split; [exact (handed_over_trans _ _ _ _ _ H1 H2)|].
    unfold len. cbn [List.length].
    assert (Hl : forall ps : list PortablePermuter,
               List.length (flat_map (fun p => [compressed_source p; target_o_bin p]) ps)
               = (2 * List.length ps)%nat).
    { induction ps as [|q qs IHq]; cbn [flat_map List.length app]; [reflexivity|].
      rewrite IHq. lia. }
    rewrite Hl. lia.
  - destruct H2 as (msgs & more & Hsplit & H2).
    exists (json_dumps E (init_obj self) :: msgs), more.
    split; [cbn; rewrite Hsplit; reflexivity|].
    exact (handed_over_trans _ _ _ _ _ H1 H2).
Qed.

End Descriptors.

Section Gate.

Variable E : Externals.
Variable self : Connection.

(** After [_setup] the port is the client port that has received once. *)
Lemma setup_port (s s0 : state) :
  _setup E self s = (Ret tt, s0) ->
  exists box, chan_port (conn s0) = after_receive (Port_init box true).
Proof.
  unfold _setup. intro H.
  inv_bind_as H u1 s1 H1; try discriminate.
  inv_bind_as H key s2 H2; try discriminate.
  inv_bind_as H version s3 H3; try discriminate.
  inv_bind_as H u4 s4 H4; try discriminate.
  inv_bind_as H msg s5 H5; try discriminate.
  inv_bind_as H inner s6 H6; try discriminate.
  inv_bind_as H pk s7 H7; try discriminate.
  inv_bind_as H u8 s8 H8; try discriminate.
  inv_bind_as H raw s9 H9; try discriminate.
  inversion H; subst. clear H.
  exists (mk_Box (private_bytes key) (public_bytes pk)).
  inversion H8; subst. clear H8.
  unfold on_port, zoom in H9. cbn [conn set_conn] in H9.
  destruct (Port_receive E _) as [o c] eqn:Hr in H9.
  inversion H9; subst. clear H9. cbn [conn set_conn].
  apply Port_receive_inv in Hr. cbv zeta in Hr.
  destruct Hr as (_ & _ & [(_ & _ & [[e He]|He])|(_ & Hp & _)]);
    [discriminate|discriminate|].
  exact Hp.
Qed.

(** After [_init] the port has sent once more and received once more. *)
Lemma init_port (s0 s1 : state) (props : ServerProps) :
  _init E self s0 = (Ret props, s1) ->
  chan_port (conn s1) = after_receive (after_send (chan_port (conn s0))).
Proof.
  unfold _init. intro H.
  inv_bind_as H u1 sa H1; try discriminate.
  inv_bind_as H raw sb H2; try discriminate.
  inv_bind_as H obj sc H3; try discriminate.
  inv_bind_as H mp sd H4; try discriminate.
  inv_bind_as H nc se H5; try discriminate.
  inversion H; subst. clear H.
  apply lift_sum_Ret in H3, H4, H5.
  destruct H3 as [_ ->]. destruct H4 as [_ ->]. destruct H5 as [_ ->].
  unfold on_port, zoom in H1, H2.
  destruct (Port_send E (_grant self) (conn s0)) as [o1 c1] eqn:Hs.
  injection H1 as -> <-. cbn [conn set_conn] in H2.
  destruct (Port_receive E c1) as [o2 c2] eqn:Hr.
  injection H2 as -> <-. cbn [conn set_conn].
  apply Port_send_inv in Hs. cbv zeta in Hs.
  destruct Hs as [(_ & [e He] & _)|(_ & Hp1 & _)]; [discriminate|].
  apply Port_receive_inv in Hr. cbv zeta in Hr.
  destruct Hr as (_ & _ & [(_ & _ & [[e He]|He])|(_ & Hp2 & _)]);
    [discriminate|discriminate|].
  rewrite Hp2, Hp1. reflexivity.
Qed.

(** [run] leaves the state as its [try] block left it. *)
Lemma run_state (s : state) : snd (run E self s) = snd (run_try E self s).
Proof.
  rewrite run_by_reason. unfold run_reason.
  destruct (run_try E self s) as [[fr|e| |] s1]; try reflexivity.
  destruct (is_EOFError e); reflexivity.
Qed.

(** After the descriptors nothing more is handed to [encrypt]. *)
Lemma after_descriptors_only_received (s s' : state) (o : outcome (option string)) :
  (msg <- on_port (Port_receive_json E) ;;
   success <- lift_sum (json_prop msg "success" t_bool) ;;
   if negb (bool_value success) then
     error <- lift_sum (json_prop msg "error" t_str) ;;
     ret (Some ("failed to compile: " ++ str_value error)%string)
   else run_stream E self msg) s = (o, s') ->
  only_received s s'.
Proof.
  revert s o s'.
  change (obeys only_received
            (msg <- on_port (Port_receive_json E) ;;
             success <- lift_sum (json_prop msg "success" t_bool) ;;
             if negb (bool_value success) then
               error <- lift_sum (json_prop msg "error" t_str) ;;
               ret (Some ("failed to compile: " ++ str_value error)%string)
             else run_stream E self msg)).
  apply obeys_bind; [exact only_received_trans|apply receive_json_only_received|].
  intro msg.
  apply obeys_bind; [exact only_received_trans|
                     apply obeys_lift_sum; exact only_received_refl|].
  intro success. destruct (negb (bool_value success)).
  - apply obeys_bind; [exact only_received_trans|
                       apply obeys_lift_sum; exact only_received_refl|].
    intro. apply obeys_ret. exact only_received_refl.
  - intros s o s' H. destruct (run_stream_raises E self msg s) as [e He].
    rewrite He in H. injection H as _ <-. apply only_received_refl.
Qed.

End Gate.

(** C5, as the code has it.  Once [_setup] and [_init] have returned the
    server's properties.  If the caller's priority is strictly below
    [min_priority], the [try] block returns at once with the reason
    "skipping due to priority requirement ..."; after the capabilities
    nothing is encrypted, written or pulled, the state being the one
    [_init] left.  But the reason is never reported: the [finally] block
    raises [AttributeError] (see C7), and that is how [run] ends.  If the
    priority is greater than or equal to [min_priority], the descriptors
    are transferred: the next call on the box encrypts the metadata
    message under nonce 2, and the messages that the whole [run] hands to
    [encrypt] from there on are the metadata message and then the two
    blobs of each descriptor in the order of the list, all of them if
    [_send_permuters] returns, a prefix of them if it raises, and
    nothing else. *)
Theorem C5_priority_gate (E : Externals) (self : Connection)
  (s s0 s1 : state) (props : ServerProps) :
  _setup E self s = (Ret tt, s0) ->
  _init E self s0 = (Ret props, s1) ->
  (SFltb (_priority self) (min_priority props) = true ->
   run_reason E self s
   = (Ret (Some ("skipping due to priority requirement "
                 ++ fmt_float E (min_priority props))%string), s1)
   /\ run E self s = (Raise no_nickname, s1))
  /\ (SFleb (min_priority props) (_priority self) = true ->
      let s' := snd (run E self s) in
      (exists rest,
          chan_log (conn s')
          = chan_log (conn s1)
            ++ Encrypt (json_dumps E (init_obj self)) (nonce_of 2) :: rest)
      /\ exists msgs more,
           descriptor_messages E self = msgs ++ more
           /\ encrypt_payloads (chan_log (conn s'))
              = encrypt_payloads (chan_log (conn s1)) ++ msgs
           /\ (fst (_send_permuters E self s1) = Ret tt -> more = [])).
Proof.
  intros Hsetup Hinit.
  assert (Htry : run_try E self s
                 = (if SFltb (_priority self) (min_priority props)
                    then ret (Some ("skipping due to priority requirement "
                                    ++ fmt_float E (min_priority props))%string)
                    else run_session E self) s1).
  { unfold run_try, bind. rewrite Hsetup, Hinit. reflexivity. }
  split.
  - intro Hlt. rewrite Hlt in Htry.
    assert (Hr : run_reason E self s
                 = (Ret (Some ("skipping due to priority requirement "
                               ++ fmt_float E (min_priority props))%string), s1))
      by (unfold run_reason; rewrite Htry; reflexivity).
    split; [exact Hr|]. rewrite run_by_reason, Hr. reflexivity.
  - intro Hle. cbv zeta. apply SFleb_not_SFltb in Hle. rewrite Hle in Htry.
    rewrite run_state, Htry.
    (* the port's send counter is 2 *)
    destruct (setup_port E self _ _ Hsetup) as [box Hp0].
    pose proof (init_port E self _ _ _ Hinit) as Hp1.
    rewrite Hp0 in Hp1.
    assert (Hnonce : _send_nonce (chan_port (conn s1)) = 2)
      by (rewrite Hp1; reflexivity).
    destruct (run_session E self s1) as [o s3] eqn:Hsession. cbn [snd].
    split.
    + unfold run_session in Hsession.
      apply tame_bind_split in Hsession.
      2:{ intro. apply tame_bind; [tame_tac|intro].
          apply tame_bind; [tame_tac|intro].
          destruct (negb (bool_value a1)); [tame_tac|apply tame_run_stream]. }
      destruct Hsession as (oA & sA & HA & (_ & [mA HlA] & _) & _).
      unfold _send_permuters in HA.
      apply tame_bind_split in HA; [|intro; apply tame_send_blobs].
      destruct HA as (oB & sB & HB & (_ & [mB HlB] & _) & _).
      unfold on_port, zoom in HB.
      destruct (Port_send_json E (init_obj self) (conn s1)) as [o1 c1] eqn:Hs.
      injection HB as _ <-. cbn [conn set_conn] in HlB.
      apply Port_send_inv in Hs. cbv zeta in Hs. rewrite Hnonce in Hs.
      destruct Hs as [(_ & _ & Hout)|(_ & _ & Hl & _)]; [exfalso; apply Hout; lia|].
      exists (mB ++ mA). rewrite HlA, HlB, Hl, <- !app_assoc. reflexivity.
    + unfold run_session in Hsession. unfold bind at 1 in Hsession.
      pose proof (send_permuters_hands_over E self s1) as Hsend.
      destruct (_send_permuters E self s1) as [[u|e| |] s2]; try contradiction.
      * destruct Hsend as [(Hpay & _) _].
        apply after_descriptors_only_received in Hsession.
        destruct Hsession as (_ & Hsame & _).
        exists (descriptor_messages E self), [].
        rewrite app_nil_r, Hsame, Hpay. auto.
      * injection Hsession as _ <-.
        destruct Hsend as (msgs & more & Hsplit & (Hpay & _)).
        exists msgs, more. split; [exact Hsplit|]. split; [exact Hpay|].
        cbn [fst]. discriminate.
Qed.

(** The caller declares priority 3.0, the server asks for 5.0. *)
Lemma C5_witness :
  _setup Demo.ext (Demo.client Demo.f3) Demo.gate_start
  = (Ret tt, Demo.gate_set_up Demo.f3)
  /\ _init Demo.ext (Demo.client Demo.f3) (Demo.gate_set_up Demo.f3)
     = (Ret (mk_ServerProps Demo.f5 Demo.f8), Demo.gate_ready Demo.f3)
  /\ run_reason Demo.ext (Demo.client Demo.f3) Demo.gate_start
     = (Ret (Some "skipping due to priority requirement 5.0"),
        Demo.gate_ready Demo.f3)
  /\ run Demo.ext (Demo.client Demo.f3) Demo.gate_start
     = (Raise no_nickname, Demo.gate_ready Demo.f3).
Proof.
  assert (H1 : _setup Demo.ext (Demo.client Demo.f3) Demo.gate_start
               = (Ret tt, Demo.gate_set_up Demo.f3))
    by (vm_compute; reflexivity).
  assert (H2 : _init Demo.ext (Demo.client Demo.f3) (Demo.gate_set_up Demo.f3)
               = (Ret (mk_ServerProps Demo.f5 Demo.f8), Demo.gate_ready Demo.f3))
    by (vm_compute; reflexivity).
  split; [exact H1|]. split; [exact H2|].
  exact (proj1 (C5_priority_gate Demo.ext (Demo.client Demo.f3) _ _ _ _ H1 H2)
           eq_refl).
Defined.

(** With priority 5.0 against the same server the descriptors are sent:
    the metadata message, then the two blobs of the one descriptor; no
    event is reported here either. *)
Example C5_example_proceeds :
  let r := run Demo.ext (Demo.client Demo.f5) Demo.gate_start in
  skipn (List.length (encrypt_payloads (chan_log (conn (Demo.gate_ready Demo.f5)))))
    (encrypt_payloads (chan_log (conn (snd r))))
  = [ json_dumps Demo.ext (init_obj (Demo.client Demo.f5)); [x0a]; [x0b] ]
  /\ _feedback_queue (snd r) = [].
Proof. vm_compute. split; reflexivity. Qed.

(* ================================================================== *)
(** * Baseline validation *)
(* ================================================================== *)

Lemma skipn_cons_nth {A : Type} (l : list A) :
  forall i x rest, skipn i l = x :: rest ->
    nth_error l i = Some x /\ skipn (S i) l = rest.
Proof.
  induction l as [|y l IH]; intros i x rest H.
  - destruct i; discriminate.
  - destruct i as [|i].
    + inversion H; subst. split; reflexivity.
    + apply IH in H. exact H.
Qed.

Section Baselines.

Variable E : Externals.
Variable self : Connection.

(** [check_base], case by case: where the code would put its note, the
    tuple cannot be built. *)
Lemma check_base_run (i : nat) (base : pyobj) (s : state) :
  check_base E self i base s
  = match json_prop base "base_score" t_int with
    | inl e => (Raise e, s)
    | inr v =>
        match json_prop base "base_hash" t_str with
        | inl e => (Raise e, s)
        | inr h =>
            match nth_error (_permuters self) i with
            | None => (Raise (PyExc (OtherError "IndexError")
                                "list index out of range"), s)
            | Some p =>
                if negb (int_value v =? base_score p) then
                  (Raise (PyExc ValueError
                            ("mismatching base score! (" ++ fmt_int E v
                             ++ " instead of " ++ fmt_int E (PyInt (base_score p))
                             ++ ")")%string), s)
                else if negb (String.eqb (str_value h) (base_hash p)) then
                  (Raise no_nickname, s)
                else (Ret tt, s)
            end
        end
    end.
Proof.
  unfold check_base, bind, lift_sum, raise, ret.
  destruct (json_prop base "base_score" t_int) as [e|v]; [reflexivity|].
  destruct (json_prop base "base_hash" t_str) as [e|h]; [reflexivity|].
  destruct (nth_error (_permuters self) i) as [p|]; [|reflexivity].
  destruct (negb (int_value v =? base_score p)); [reflexivity|].
  destruct (negb (String.eqb (str_value h) (base_hash p))); reflexivity.
Qed.

Lemma check_base_agrees (i : nat) (base : pyobj) (p : PortablePermuter)
  (s : state) :
  nth_error (_permuters self) i = Some p ->
  agrees base p ->
  check_base E self i base s = (Ret tt, s).
Proof.
  intros Hp [(v & h & Hv & Hh & Heq) Hd].
  rewrite check_base_run, Hv, Hh, Hp.
  replace (int_value v =? base_score p) with true
    by (symmetry; apply Z.eqb_eq; exact Heq).
  unfold hash_differs in Hd. cbn [fst snd] in Hd. rewrite Hh in Hd.
  cbn [negb]. rewrite Hd. reflexivity.
Qed.

(** When score and hash agree for every descriptor the validation
    returns, and has changed nothing. *)
Lemma check_bases_agree (bases : list pyobj) :
  forall (i : nat) (s : state),
    Forall2 agrees bases (skipn i (_permuters self)) ->
    check_bases E self i bases s = (Ret tt, s).
Proof.
  induction bases as [|base bases IH]; intros i s H.
  - reflexivity.
  - inversion H as [|? p ? rest Hag Hrest Hb Hp]; subst.
    symmetry in Hp. apply skipn_cons_nth in Hp. destruct Hp as [Hnth Hskip].
    cbn [check_bases]. unfold bind.
    rewrite (check_base_agrees i base p s Hnth Hag).
    apply IH. rewrite Hskip. exact Hrest.
Qed.

(** The validation stops at the first descriptor that does not pass,
    with the exception raised for it. *)
Lemma check_bases_stops_at (bases : list pyobj) :
  forall (i j : nat) (base : pyobj) (p : PortablePermuter) (s : state) (e : exn),
    (forall k b q, (k < j)%nat -> nth_error bases k = Some b ->
                   nth_error (_permuters self) (i + k) = Some q -> agrees b q) ->
    nth_error bases j = Some base ->
    nth_error (_permuters self) (i + j) = Some p ->
    check_base E self (i + j) base s = (Raise e, s) ->
    check_bases E self i bases s = (Raise e, s).
Proof.
  induction bases as [|b bases IH]; intros i j base p s e Hpre Hb Hp Hc.
  - destruct j; discriminate.
  - cbn [check_bases]. unfold bind. destruct j as [|j].
    + injection Hb as ->. rewrite Nat.add_0_r in Hc. rewrite Hc. reflexivity.
    + assert (Hq : exists q, nth_error (_permuters self) i = Some q).
      { destruct (nth_error (_permuters self) i) as [q|] eqn:Hn;
          [eexists; reflexivity|].
        apply nth_error_None in Hn.
        assert (Hs : nth_error (_permuters self) (i + S j) <> None)
          by (rewrite Hp; discriminate).
        apply nth_error_Some in Hs. lia. }
      destruct Hq as [q Hq].
      assert (Hag : agrees b q).
      { apply (Hpre 0%nat b q); [lia|reflexivity|].
        rewrite Nat.add_0_r. exact Hq. }
      rewrite (check_base_agrees i b q s Hq Hag).
      apply (IH (S i) j base p s e).
      * intros k b' q' Hk Hb' Hq'. apply (Hpre (S k) b' q'); [lia|exact Hb'|].
        rewrite <- Hq'. f_equal. lia.
      * exact Hb.
      * rewrite <- Hp. f_equal. lia.
      * replace (S i + j)%nat with (i + S j)%nat by lia. exact Hc.
Qed.

(** A descriptor whose score differs makes the validation raise. *)
Lemma check_bases_differ (bases : list pyobj) :
  forall (i j : nat) (s : state) (base : pyobj) (p : PortablePermuter),
    nth_error bases j = Some base ->
    nth_error (_permuters self) (i + j) = Some p ->
    score_differs base p ->
    exists e, check_bases E self i bases s = (Raise e, s).
Proof.
  induction bases as [|b bases IH]; intros i j s base p Hb Hp Hd.
  - destruct j; discriminate.
  - cbn [check_bases]. unfold bind.
    destruct j as [|j].
    + inversion Hb; subst. rewrite Nat.add_0_r in Hp.
      rewrite check_base_run. destruct Hd as (v & Hv & Hne).
      rewrite Hv, Hp.
      destruct (json_prop base "base_hash" t_str); [eexists; reflexivity|].
      replace (int_value v =? base_score p) with false
        by (symmetry; apply Z.eqb_neq; exact Hne).
      eexists; reflexivity.
    + destruct (check_base E self i b s) as [o s1] eqn:H1.
      apply check_base_state in H1. destruct H1 as [-> [->|[e ->]]];
        [|eexists; reflexivity].
      apply (IH (S i) j s base p Hb); [|exact Hd].
      rewrite <- Hp. f_equal. lia.
Qed.

End Baselines.

(** C6, as the code has it.  Baseline validation, given the list
    [bases] that the server reported, one entry per descriptor.  A
    descriptor whose reported score differs from the local one aborts
    the session: the validation raises and no streaming starts; when it
    is the first descriptor that does not pass, the exception is the
    [ValueError] "mismatching base score! ...".  A descriptor whose
    score is the local one and whose hash differs aborts the session as
    well: where the note was to be put the tuple for the queue cannot be
    built, [AttributeError] is raised (see C7), no note is emitted and
    the session does not proceed.  When score and hash agree for every
    descriptor the validation returns without a note, and the request
    for work that follows raises the same [AttributeError].  In each
    case the state is left as it was: nothing is reported, nothing is
    streamed. *)
Theorem C6_baseline_validation (E : Externals) (self : Connection)
  (msg : pyobj) (bases : list pyobj) (s : state) :
  json_prop msg "perm_bases" t_list = inr (PyList bases) ->
  json_array (PyList bases) t_dict = inr bases ->
  List.length bases = List.length (_permuters self) ->
  ((exists j base p,
       nth_error bases j = Some base
       /\ nth_error (_permuters self) j = Some p
       /\ score_differs base p) ->
   exists e,
     check_bases E self 0 bases s = (Raise e, s)
     /\ run_stream E self msg s = (Raise e, s))
  /\ (forall j base p v h,
         (forall k b q, (k < j)%nat -> nth_error bases k = Some b ->
                        nth_error (_permuters self) k = Some q -> agrees b q) ->
         nth_error bases j = Some base ->
         nth_error (_permuters self) j = Some p ->
         json_prop base "base_score" t_int = inr v ->
         json_prop base "base_hash" t_str = inr h ->
         (int_value v <> base_score p ->
          run_stream E self msg s
          = (Raise (PyExc ValueError
                      ("mismatching base score! (" ++ fmt_int E v
                       ++ " instead of " ++ fmt_int E (PyInt (base_score p))
                       ++ ")")%string), s))
         /\ (int_value v = base_score p ->
             str_value h <> base_hash p ->
             run_stream E self msg s = (Raise no_nickname, s)))
  /\ (Forall2 agrees bases (_permuters self) ->
      check_bases E self 0 bases s = (Ret tt, s)
      /\ run_stream E self msg s = (Raise no_nickname, s)).
Proof.
  intros Hprop Harr Hlen.
  assert (Hrun : run_stream E self msg s
                 = (check_bases E self 0 bases ;;
                    put self NeedMoreWork ;;
                    fuel <- gets pending ;;
                    main_loop E self (S fuel) false ;;
                    ret None) s).
  { unfold run_stream. unfold bind at 1. rewrite Hprop. cbn [lift_sum ret].
    unfold bind at 1. rewrite Harr. cbn [lift_sum ret].
    replace (len bases =? len (_permuters self)) with true
      by (symmetry; apply Z.eqb_eq; unfold len; rewrite Hlen; reflexivity).
    reflexivity. }
  split; [|split].
  - intros (j & base & p & Hb & Hp & Hd).
    destruct (check_bases_differ E self bases 0 j s base p Hb Hp Hd) as [e He].
    exists e. split; [exact He|].
    rewrite Hrun. unfold bind at 1. rewrite He. reflexivity.
  - intros j base p v h Hpre Hb Hp Hv Hh.
    assert (Hstop : forall e,
               check_base E self j base s = (Raise e, s) ->
               run_stream E self msg s = (Raise e, s)).
    { intros e Hc. rewrite Hrun. unfold bind at 1.
      rewrite (check_bases_stops_at E self bases 0 j base p s e);
        [reflexivity|exact Hpre|exact Hb|exact Hp|exact Hc]. }
    split.
    + intro Hne. apply Hstop. rewrite check_base_run, Hv, Hh, Hp.
      replace (int_value v =? base_score p) with false
        by (symmetry; apply Z.eqb_neq; exact Hne).
      reflexivity.
    + intros Heq Hne. apply Hstop. rewrite check_base_run, Hv, Hh, Hp.
      replace (int_value v =? base_score p) with true
        by (symmetry; apply Z.eqb_eq; exact Heq).
      replace (String.eqb (str_value h) (base_hash p)) with false
        by (symmetry; apply String.eqb_neq; exact Hne).
      reflexivity.
  - intro Hagree.
    pose proof (check_bases_agree E self bases 0 s Hagree) as Hc.
    split; [exact Hc|].
    rewrite Hrun. unfold bind at 1. rewrite Hc. reflexivity.
Qed.

(** Score 100 and hash "xyz" against local 100 and "abc": no note, the
    session ends. *)
Lemma C6_witness :
  json_prop (Demo.compiled 100 "xyz") "perm_bases" t_list
  = inr (PyList Demo.other_hash)
  /\ json_array (PyList Demo.other_hash) t_dict = inr Demo.other_hash
  /\ List.length Demo.other_hash
     = List.length (_permuters (Demo.client Demo.f5))
  /\ run_stream Demo.ext (Demo.client Demo.f5) (Demo.compiled 100 "xyz") Demo.idle
     = (Raise no_nickname, Demo.idle).
Proof.
  repeat (split; [reflexivity|]).
  refine (proj2 (proj1 (proj2 (C6_baseline_validation Demo.ext
                                 (Demo.client Demo.f5)
                                 (Demo.compiled 100 "xyz") Demo.other_hash
                                 Demo.idle eq_refl eq_refl eq_refl))
                   0%nat _ Demo.permuter0 (PyInt 100) (PyStr "xyz")
                   _ eq_refl eq_refl eq_refl eq_refl)
            eq_refl _).
  - intros k b q Hk. inversion Hk.
  - cbn. discriminate.
Defined.

(** The baseline gate of the specification, on whole runs: equal score
    and hash, a differing score, a differing hash.  The reason with
    which the [finally] block is entered, and what is reported. *)
Example C6_example_gate :
  let run_with := fun reported =>
    let s := Demo.start
               [Demo.server_stream
                  [ [x00]; Demo.js (Demo.capabilities (PyFloat Demo.f5));
                    Demo.js reported; Demo.js finish_msg ]]
               [TaskFinished None] in
    (fst (run_reason Demo.ext (Demo.client Demo.f5) s),
     fst (run Demo.ext (Demo.client Demo.f5) s),
     Demo.feedback_of (run Demo.ext (Demo.client Demo.f5) s)) in
  run_with (Demo.compiled 100 "abc")
  = (Ret (Some "error: 'RemoteServer' object has no attribute 'nickname'"),
     Raise no_nickname, [])
  /\ run_with (Demo.compiled 99 "abc")
     = (Ret (Some "error: mismatching base score! (99 instead of 100)"),
        Raise no_nickname, [])
  /\ run_with (Demo.compiled 100 "xyz")
     = (Ret (Some "error: 'RemoteServer' object has no attribute 'nickname'"),
        Raise no_nickname, []).
Proof. vm_compute. repeat split. Qed.

(* ================================================================== *)
(** * The capabilities message *)
(* ================================================================== *)

Lemma isinstance_float (v : pyobj) :
  isinstance v t_float = true <-> exists f, v = PyFloat f.
Proof.
  split.
  - destruct v; cbn; try discriminate. intros _. eexists; reflexivity.
  - intros [f ->]. reflexivity.
Qed.

Lemma json_prop_dict (d : list (string * pyobj)) (prop : string) (t : pytype) :
  json_prop (PyDict d) prop t
  = if isinstance (dict_get d prop) t then inr (dict_get d prop)
    else inl (PyExc ValueError
                ("Member " ++ prop ++ " must have type " ++ type_name t
                 ++ "; got " ++ found_type_name (dict_get d prop))%string).
Proof.
  unfold json_prop, py_get. destruct (isinstance (dict_get d prop) t); reflexivity.
Qed.

Lemma json_prop_inr (obj v : pyobj) (prop : string) (t : pytype) :
  json_prop obj prop t = inr v ->
  exists d, obj = PyDict d /\ dict_get d prop = v /\ isinstance v t = true.
Proof.
  destruct obj; try (cbn; discriminate).
  rewrite json_prop_dict.
  destruct (isinstance (dict_get d prop) t) eqn:Hi; [|discriminate].
  intro H. inversion H; subst. exists d. auto.
Qed.

(** C9.  Once [_setup] has returned, the grant has been sent and the
    capabilities message received and parsed as [obj]: [_init] returns
    server properties only if [obj] is an object whose "min_priority"
    and "num_cpus" are both floating-point numbers, and then returns
    these; if either of them is anything else (an integer, absent, any
    other type) [json_prop] raises [ValueError] and the session fails:
    [_init] raises it, and the general handler of [run] takes it as the
    reason "error: ..." with which the [try] block ends.  An integer is
    rejected, not converted. *)
Theorem C9_capabilities_must_be_floats (E : Externals) (self : Connection)
  (s0 s sa sb : state) (raw : bytes) (obj : pyobj) :
  _setup E self s0 = (Ret tt, s) ->
  on_port (Port_send E (_grant self)) s = (Ret tt, sa) ->
  on_port (Port_receive E) sa = (Ret raw, sb) ->
  json_loads E raw = inr obj ->
  (forall props s',
      _init E self s = (Ret props, s') ->
      exists d f1 f2,
        obj = PyDict d
        /\ dict_get d "min_priority" = PyFloat f1
        /\ dict_get d "num_cpus" = PyFloat f2
        /\ props = mk_ServerProps f1 f2)
  /\ (forall d,
         obj = PyDict d ->
         (forall f, dict_get d "min_priority" <> PyFloat f)
         \/ (forall f, dict_get d "num_cpus" <> PyFloat f) ->
         exists e,
           _init E self s = (Raise e, sb)
           /\ exc_class e = ValueError
           /\ run_reason E self s0
              = (Ret (Some ("error: " ++ exception_to_string E e)%string), sb))
  /\ (forall d n,
         obj = PyDict d ->
         dict_get d "min_priority" = PyInt n ->
         _init E self s
         = (Raise (PyExc ValueError
                     "Member min_priority must have type float; got int"), sb)).
Proof.
  intros Hsetup Hsend Hrecv Hload.
  assert (Hinit : _init E self s
                  = match json_prop obj "min_priority" t_float with
                    | inl e => (Raise e, sb)
                    | inr m =>
                        match json_prop obj "num_cpus" t_float with
                        | inl e => (Raise e, sb)
                        | inr n => (Ret (mk_ServerProps (float_value m) (float_value n)), sb)
                        end
                    end).
  { unfold _init, bind. rewrite Hsend, Hrecv, Hload. cbn [lift_sum ret].
    destruct (json_prop obj "min_priority" t_float); [reflexivity|].
    cbn [lift_sum ret].
    destruct (json_prop obj "num_cpus" t_float); reflexivity. }
  split; [|split].
  - intros props s' H. rewrite Hinit in H.
    destruct (json_prop obj "min_priority" t_float) as [e|m] eqn:Hm; [discriminate|].
    destruct (json_prop obj "num_cpus" t_float) as [e|n] eqn:Hn; [discriminate|].
    inversion H; subst.
    apply json_prop_inr in Hm. destruct Hm as (d & -> & Hd1 & Hi1).
    apply json_prop_inr in Hn. destruct Hn as (d' & Hd & Hd2 & Hi2).
    inversion Hd; subst d'.
    apply isinstance_float in Hi1, Hi2.
    destruct Hi1 as [f1 ->]. destruct Hi2 as [f2 ->].
    exists d, f1, f2. auto.
  - intros d -> Hbad.
    assert (Hraise : exists e, _init E self s = (Raise e, sb)
                               /\ exc_class e = ValueError).
    { rewrite Hinit, !json_prop_dict.
      destruct (isinstance (dict_get d "min_priority") t_float) eqn:H1.
      - destruct (isinstance (dict_get d "num_cpus") t_float) eqn:H2.
        + exfalso. apply isinstance_float in H1, H2.
          destruct H1 as [f1 H1]. destruct H2 as [f2 H2].
          destruct Hbad as [Hb|Hb]; [exact (Hb f1 H1)|exact (Hb f2 H2)].
        + eexists. split; reflexivity.
      - eexists. split; reflexivity. }
    destruct Hraise as (e & He & Hc).
    exists e. split; [exact He|]. split; [exact Hc|].
    unfold run_reason, run_try, bind. rewrite Hsetup, He.
    unfold is_EOFError. rewrite Hc. reflexivity.
  - intros d n -> Hn. rewrite Hinit, json_prop_dict, Hn. reflexivity.
Qed.

(** The capabilities [{"min_priority": 5, "num_cpus": 8.0}]. *)
Lemma C9_witness :
  _setup Demo.ext (Demo.client Demo.f5) Demo.int_caps_start
  = (Ret tt, Demo.int_caps_set_up)
  /\ on_port (Port_send Demo.ext (_grant (Demo.client Demo.f5))) Demo.int_caps_set_up
     = (Ret tt, Demo.int_caps_sent)
  /\ on_port (Port_receive Demo.ext) Demo.int_caps_sent
     = (Ret (Demo.js (Demo.capabilities (PyInt 5))), Demo.int_caps_received)
  /\ json_loads Demo.ext (Demo.js (Demo.capabilities (PyInt 5)))
     = inr (Demo.capabilities (PyInt 5))
  /\ _init Demo.ext (Demo.client Demo.f5) Demo.int_caps_set_up
     = (Raise (PyExc ValueError
                 "Member min_priority must have type float; got int"),
        Demo.int_caps_received).
Proof.
  assert (H1 : _setup Demo.ext (Demo.client Demo.f5) Demo.int_caps_start
               = (Ret tt, Demo.int_caps_set_up)) by (vm_compute; reflexivity).
  assert (H2 : on_port (Port_send Demo.ext (_grant (Demo.client Demo.f5)))
                 Demo.int_caps_set_up
               = (Ret tt, Demo.int_caps_sent)) by (vm_compute; reflexivity).
  assert (H3 : on_port (Port_receive Demo.ext) Demo.int_caps_sent
               = (Ret (Demo.js (Demo.capabilities (PyInt 5))),
                  Demo.int_caps_received)) by (vm_compute; reflexivity).
  assert (H4 : json_loads Demo.ext (Demo.js (Demo.capabilities (PyInt 5)))
               = inr (Demo.capabilities (PyInt 5))) by (vm_compute; reflexivity).
  repeat (split; [assumption|]).
  exact (proj2 (proj2 (C9_capabilities_must_be_floats Demo.ext
                         (Demo.client Demo.f5) _ _ _ _ _ _ H1 H2 H3 H4))
           _ 5 eq_refl eq_refl).
Defined.

(* ================================================================== *)
(** * Results with and without source *)
(* ================================================================== *)






(** The same result with and without the announcement. *)
Example C10_example :
  fst (result_of Demo.ext (PyDict Demo.with_source) Demo.source_pending)
  = Ret (PyInt 0, CandidateResult (PyInt 1) "h" (Some "src") (mk_Profiler []))
  /\ result_of Demo.ext (Demo.result_msg 1 []) Demo.source_pending
     = (Ret (PyInt 0, CandidateResult (PyInt 1) "h" None (mk_Profiler [])),
        Demo.source_pending)
  /\ result_of Demo.ext (Demo.result_msg 1 [("has_source", PyStr "yes")])
       Demo.source_pending
     = (Ret (PyInt 0, CandidateResult (PyInt 1) "h" None (mk_Profiler [])),
        Demo.source_pending).
Proof. vm_compute. repeat split. Qed.

(* ================================================================== *)
(** * A stream that ends early *)
(* ================================================================== *)

(** On an open socket whose stream ends before [n] bytes have come, a
    read of [n] bytes raises the plain [Exception("eof")]. *)
Lemma short_read_raises_plain_exception (n : Z) (k : socket) :
  closed k = false ->
  ending k = EndOfStream ->
  (List.length (List.concat (incoming k)) < Z.to_nat n)%nat ->
  fst (socket_read_fixed n k) = Raise (PyExc Exception "eof").
Proof.
  intros Hc He Hlen.
  destruct (socket_read_fixed n k) as [o k'] eqn:H.
  apply socket_read_fixed_inv in H. destruct H as (_ & Ho).
  destruct o as [d|e| |]; try contradiction.
  - destruct Ho as [Hcat Hd]. rewrite Hcat, length_app in Hlen. lia.
  - destruct Ho as (_ & [->|[[_ Hcl]|[_ Hb]]]); [reflexivity|congruence|congruence].
  - destruct Ho as (_ & _ & Hs). congruence.
Qed.

(** The same after this side shut down reading: what is queued is
    still delivered, then [recv] returns nothing. *)
Lemma short_read_after_shutdown (n : Z) (k : socket) :
  closed k = false ->
  rd_shut k = true ->
  (List.length (List.concat (incoming k)) < Z.to_nat n)%nat ->
  fst (socket_read_fixed n k) = Raise (PyExc Exception "eof").
Proof.
  unfold socket_read_fixed.
  generalize (@nil bytes) as chunks. generalize (le_n (Z.to_nat n)).
  generalize (Z.to_nat n) at 2 4 as fuel.
  intros fuel. revert n k.
  induction fuel as [|fuel IH]; intros n k Hf chunks Hc Hrd Hlen.
  - lia.
  - cbn [socket_read_fixed_loop].
    destruct (n >? 0) eqn:Hn; [|rewrite Z.gtb_ltb in Hn; apply Z.ltb_ge in Hn; lia].
    unfold bind. destruct (sock_recv (Z.min n 4096) k) as [o k1] eqn:Hr.
    pose proof Hr as Hr'. apply sock_recv_inv in Hr'.
    destruct Hr' as [(_ & _ & Hrd1 & Hc1 & _) Ho].
    unfold sock_recv in Hr. rewrite Hc in Hr.
    destruct o as [data|e| |].
    + destruct data as [|b data]; [reflexivity|].
      destruct Ho as [Hcat Hl].
      apply IH.
      * unfold len. cbn [List.length] in *. lia.
      * congruence.
      * congruence.
      * rewrite Hcat, length_app in Hlen. unfold len.
        cbn [List.length] in *. lia.
    + destruct (incoming k); [rewrite Hrd in Hr; discriminate|].
      destruct (skipn _ _); discriminate.
    + destruct (incoming k); [rewrite Hrd in Hr; discriminate|].
      destruct (skipn _ _); discriminate.
    + contradiction.
Qed.

(** On a readable socket that holds fewer than [n] bytes, how the
    stream goes on decides how the read of [n] bytes ends. *)
Lemma short_read_by_ending (fuel : nat) :
  forall (n : Z) (chunks : list bytes) (k : socket),
    (Z.to_nat n <= fuel)%nat ->
    readable k ->
    (List.length (List.concat (incoming k)) < Z.to_nat n)%nat ->
    fst (socket_read_fixed_loop fuel n chunks k)
    = match ending k with
      | EndOfStream => Raise (PyExc Exception "eof")
      | Broken e => Raise e
      | Silent => Blocked
      end.
Proof.
  induction fuel as [|fuel IH]; intros n chunks k Hf Hr Hlen; [lia|].
  cbn [socket_read_fixed_loop].
  destruct (n >? 0) eqn:Hn; [|rewrite Z.gtb_ltb in Hn; apply Z.ltb_ge in Hn; lia].
  apply Z.gtb_lt in Hn.
  destruct Hr as (Hc & Hrd & Hne).
  unfold bind, sock_recv. rewrite Hc.
  destruct (incoming k) as [|piece rest] eqn:Hi.
  { rewrite Hrd. destruct (ending k); reflexivity. }
  apply Forall_cons_iff in Hne. destruct Hne as [Hp Hrest].
  set (m := Z.to_nat (Z.min n 4096)).
  assert (Hm : (1 <= m)%nat) by (unfold m; lia).
  assert (Hdata : exists b data, firstn m piece = b :: data).
  { destruct piece as [|b piece]; [contradiction|].
    destruct m as [|m']; [lia|]. cbn [firstn]. eexists _, _. reflexivity. }
  destruct Hdata as (b & data & Hd).
  assert (Hle : (List.length (b :: data) <= List.length piece)%nat).
  { rewrite <- Hd, length_firstn. lia. }
  assert (Hsplit : List.length piece
                   = (List.length (b :: data) + List.length (skipn m piece))%nat).
  { rewrite <- Hd, <- length_app, firstn_skipn. reflexivity. }
  cbn [List.concat] in Hlen. rewrite length_app in Hlen.
  assert (Hgo : forall k1,
             closed k1 = false -> rd_shut k1 = false -> ending k1 = ending k ->
             Forall (fun piece => piece <> []) (incoming k1) ->
             List.length (List.concat (incoming k1))
             = (List.length (skipn m piece) + List.length (List.concat rest))%nat ->
             fst (socket_read_fixed_loop fuel (n - len (b :: data))
                    (chunks ++ [b :: data]) k1)
             = match ending k with
               | EndOfStream => Raise (PyExc Exception "eof")
               | Broken e => Raise e
               | Silent => Blocked
               end).
  { intros k1 Hc1 Hrd1 He1 Hne1 Hl1. rewrite <- He1. apply IH.
    - unfold len. cbn [List.length] in *. lia.
    - repeat split; assumption.
    - rewrite Hl1. unfold len. cbn [List.length] in *. lia. }
  rewrite Hd.
  destruct (skipn m piece) as [|x more] eqn:Hs.
  - apply Hgo; try assumption; try reflexivity.
  - apply Hgo; try assumption; try reflexivity.
    + cbn [incoming set_incoming]. constructor; [discriminate|exact Hrest].
    + cbn [incoming set_incoming List.concat]. rewrite length_app. reflexivity.
Qed.

(** C3.  A server that accepts the connection and closes it without
    sending a byte: the first read of [_setup] falls short.  The
    exception that [socket_read_fixed] raises on any short read of an
    open socket is a plain [Exception], not an [EOFError], so it is the
    general handler that catches it: the [try] block of [run] ends with
    the reason "error: ..." and not with "disconnected".  Nor is that
    reason reported: the [finally] block raises [AttributeError] (see
    C7), and the feedback queue is as it was. *)
Theorem C3_short_read_gives_generic_error (E : Externals) (self : Connection)
  (p : Port) (tasks : list Task) (feedback : list (Feedback * string))
  (key : PrivateKey) :
  let s := mk_state (mk_chan (mk_socket [] [] false false false EndOfStream) p [])
             false tasks feedback None key in
  let s' := mk_state (mk_chan (mk_socket [] (hello E self key) false false false
                                 EndOfStream) p [])
              true tasks feedback None key in
  let reason := Some ("error: " ++ exception_to_string E (PyExc Exception "eof"))%string in
  run_reason E self s = (Ret reason, s')
  /\ reason <> Some "disconnected"
  /\ run E self s = (Raise no_nickname, s')
  /\ _feedback_queue s' = feedback
  /\ (forall n k,
         closed k = false ->
         ending k = EndOfStream ->
         (List.length (List.concat (incoming k)) < Z.to_nat n)%nat ->
         fst (socket_read_fixed n k) = Raise (PyExc Exception "eof"))
  /\ is_EOFError (PyExc Exception "eof") = false.
Proof.
  cbv zeta.
  split; [vm_compute; reflexivity|].
  split; [cbn; discriminate|].
  split; [vm_compute; reflexivity|].
  split; [reflexivity|].
  split; [apply short_read_raises_plain_exception|reflexivity].
Qed.

(* ================================================================== *)
(** * The concrete instance at work *)
(* ================================================================== *)

Example demo_dumps_finish :
  string_of_list_byte (Demo.js finish_msg)
  = ("{" ++ Demo.dq ++ "type" ++ Demo.dq ++ ": " ++ Demo.dq ++ "finish"
     ++ Demo.dq ++ "}")%string.
Proof. reflexivity. Qed.

(** The loop-termination scenario of the specification: two tasks and
    the sentinel against a server that answers [need_work], two results
    and [finish].  The run ends at the request for work that precedes
    the loop; no task is taken and nothing is reported. *)
Example demo_loop_termination :
  let server :=
    Demo.server_stream
      [ [x00]; Demo.js (Demo.capabilities (PyFloat Demo.f5));
        Demo.js (Demo.compiled 100 "abc");
        Demo.js Demo.need_work_msg;
        Demo.js (Demo.result_msg 1 []);
        Demo.js (Demo.result_msg 2 []) ;
        Demo.js finish_msg ] in
  let s := Demo.start [server] [TaskWork 0 1; TaskWork 0 2; TaskFinished None] in
  fst (run_reason Demo.ext (Demo.client Demo.f5) s)
  = Ret (Some "error: 'RemoteServer' object has no attribute 'nickname'")
  /\ fst (run Demo.ext (Demo.client Demo.f5) s) = Raise no_nickname
  /\ Demo.feedback_of (run Demo.ext (Demo.client Demo.f5) s) = []
  /\ _task_queue (snd (run Demo.ext (Demo.client Demo.f5) s))
     = [TaskWork 0 1; TaskWork 0 2; TaskFinished None]
  /\ closed (chan_sock (conn (snd (run Demo.ext (Demo.client Demo.f5) s))))
     = false.
Proof. vm_compute. repeat split. Qed.

(** The loop body by itself, entered with a work task and the sentinel
    queued: when the server answers the work task with "finish", the
    loop is left with the flag still false and the sentinel still in
    the queue. *)
Example demo_loop_by_itself :
  let r := main_loop Demo.ext (Demo.client Demo.f5)
             (S (pending Demo.early_finish)) false Demo.early_finish in
  fst r = Ret false
  /\ _task_queue (snd r) = [TaskFinished None]
  /\ encrypt_nonces (chan_log (conn (snd r))) = [nonce_of 0].
Proof. vm_compute. repeat split. Qed.

(** The server closes the stream in the middle of its handshake line,
    and in the middle of the answer to the descriptors. *)
Example demo_short_reads :
  fst (run_reason Demo.ext (Demo.client Demo.f5)
         (Demo.start [firstn 50 (Demo.server_stream [])] []))
  = Ret (Some "error: eof")
  /\ fst (run_reason Demo.ext (Demo.client Demo.f5)
            (Demo.start
               [Demo.server_stream
                  [ [x00]; Demo.js (Demo.capabilities (PyFloat Demo.f5)) ]
                ++ [x00; x00; x00]]
               [TaskWork 0 1]))
     = Ret (Some "error: eof").
Proof. vm_compute. split; reflexivity. Qed.

(** The same handshake with the box of NaCl: the first message cannot
    be opened, because its nonce has thirty-two bytes. *)
Example demo_run_with_strict_box :
  fst (run_reason Demo.strict_ext (Demo.client Demo.f5) Demo.gate_start)
  = Ret (Some "error: The nonce must be exactly 24 bytes long")
  /\ fst (run Demo.strict_ext (Demo.client Demo.f5) Demo.gate_start)
     = Raise no_nickname.
Proof. vm_compute. split; reflexivity. Qed.
(* ================================================================== *)
(** * Further properties: reading, framing, JSON messages *)
(* ================================================================== *)

Lemma be_decode_nonneg (bs : bytes) : 0 <= be_decode bs.
Proof.
  unfold be_decode.
  assert (H : forall acc, 0 <= acc ->
            0 <= fold_left (fun a b => a * 256 + Z_of_byte b) bs acc).
  { induction bs as [|b bs IH]; intros acc Ha; cbn [fold_left]; [exact Ha|].
    apply IH. unfold Z_of_byte. lia. }
  apply H. lia.
Qed.

(** X1.  [socket_read_fixed(sock, n)] on any socket.  When it returns,
    the result is exactly the next [n] bytes of the stream (none for
    [n <= 0]) and the bytes after them are still to come.  When it
    raises, it has taken bytes off the stream only, and the exception is
    the plain "eof" after a [recv] that returned nothing, the error of a
    closed socket, or the error with which the connection broke (a
    reset, say).  It can also wait for ever, on an open connection on
    which nothing more arrives; its loop bound is never the reason for
    its end.  What was written to the socket and its shutdown state are
    never touched.  Which of these happens is decided by the stream: on
    a readable socket that holds [n] bytes or more the call returns; on
    one that holds fewer it raises "eof" if the stream ends there,
    raises the error of the connection if it broke, and waits for ever
    if it stays silent; after reading was shut down on this side a
    stream that holds fewer bytes gives "eof". *)
Theorem socket_read_fixed_exact (n : Z) (k : socket) :
  match socket_read_fixed n k with
  | (Ret d, k') =>
      List.concat (incoming k) = d ++ List.concat (incoming k')
      /\ len d = Z.max 0 n
      /\ same_but_incoming k k'
  | (Raise e, k') =>
      (exists got, List.concat (incoming k) = got ++ List.concat (incoming k'))
      /\ (e = PyExc Exception "eof"
          \/ (exc_class e = OSError /\ closed k = true)
          \/ (closed k = false /\ ending k = Broken e))
      /\ same_but_incoming k k'
  | (Blocked, k') =>
      (exists got, List.concat (incoming k) = got ++ List.concat (incoming k'))
      /\ silent k
      /\ same_but_incoming k k'
  | (OutOfFuel, _) => False
  end
  /\ (readable k ->
      (Z.to_nat n <= List.length (List.concat (incoming k)))%nat ->
      fst (socket_read_fixed n k)
      = Ret (firstn (Z.to_nat n) (List.concat (incoming k))))
  /\ (readable k ->
      (List.length (List.concat (incoming k)) < Z.to_nat n)%nat ->
      fst (socket_read_fixed n k)
      = match ending k with
        | EndOfStream => Raise (PyExc Exception "eof")
        | Broken e => Raise e
        | Silent => Blocked
        end)
  /\ (closed k = false ->
      rd_shut k = true ->
      (List.length (List.concat (incoming k)) < Z.to_nat n)%nat ->
      fst (socket_read_fixed n k) = Raise (PyExc Exception "eof")).
Proof.
  split; [|split; [|split]].
  - destruct (socket_read_fixed n k) as [o k'] eqn:H.
    apply socket_read_fixed_inv in H. destruct H as [Hs Ho].
    destruct o as [d|e| |]; try contradiction.
    + destruct Ho as [Hc Hl]. repeat split; try apply Hs; [exact Hc|].
      unfold len. lia.
    + destruct Ho as [Hg He]. repeat split; try apply Hs; assumption.
    + destruct Ho as (Hg & Hc & He). repeat split; try apply Hs; assumption.
  - intros Hr Hlen.
    destruct (Z_le_gt_dec n 0) as [Hn|Hn].
    { replace (Z.to_nat n) with 0%nat by lia. unfold socket_read_fixed.
      replace (Z.to_nat n) with 0%nat by lia. cbn [socket_read_fixed_loop].
      replace (n >? 0) with false by (symmetry; rewrite Z.gtb_ltb; apply Z.ltb_ge; lia).
      reflexivity. }
    destruct (socket_read_fixed_ok k
                (firstn (Z.to_nat n) (List.concat (incoming k)))
                (skipn (Z.to_nat n) (List.concat (incoming k))) Hr)
      as (k' & Hrun & _).
    { symmetry. apply firstn_skipn. }
    replace (len (firstn (Z.to_nat n) (List.concat (incoming k)))) with n in Hrun
      by (unfold len; rewrite length_firstn; lia).
    rewrite Hrun. reflexivity.
  - intros Hr Hlen. unfold socket_read_fixed.
    apply short_read_by_ending; [lia|exact Hr|exact Hlen].
  - apply short_read_after_shutdown.
Qed.

(** X2.  On a socket that is open and whose stream still holds the
    bytes [pre] followed by [rest], [socket_read_fixed(sock, len(pre))]
    returns [pre] and leaves [rest], however the stream delivers the
    bytes piece by piece. *)
Theorem socket_read_fixed_any_cutting (k : socket) (pre rest : bytes) :
  readable k ->
  List.concat (incoming k) = pre ++ rest ->
  fst (socket_read_fixed (len pre) k) = Ret pre
  /\ List.concat (incoming (snd (socket_read_fixed (len pre) k))) = rest.
Proof.
  intros Hr Hc.
  destruct (socket_read_fixed_ok k pre rest Hr Hc) as (k' & -> & Hrest & _).
  split; [reflexivity|exact Hrest].
Qed.

Lemma socket_read_fixed_any_cutting_witness :
  readable Demo.cut_socket
  /\ fst (socket_read_fixed 40 Demo.cut_socket)
     = Ret (firstn 40 (List.concat (incoming Demo.cut_socket))).
Proof.
  assert (Hr : readable Demo.cut_socket)
    by (unfold readable; vm_compute; repeat split; repeat constructor; discriminate).
  split; [exact Hr|].
  exact (proj1 (socket_read_fixed_any_cutting Demo.cut_socket
                  (firstn 40 (List.concat (incoming Demo.cut_socket)))
                  (skipn 40 (List.concat (incoming Demo.cut_socket)))
                  Hr (eq_sym (firstn_skipn 40 _)))).
Defined.

Section Framing.

Variable E : Externals.

(** X3.  [Port.receive] on any port: when it returns, it has taken
    exactly one frame off the stream, eight bytes of header and as many
    bytes of data as the header says in big-endian, and what it returns
    is what the box made of that data under the nonce of the receive
    counter, which has moved on by two; nothing was written.  When it
    raises, it has only taken bytes off the stream; the same holds when
    it waits for ever, which it does only on a silent connection. *)
Theorem Port_receive_takes_one_frame (c : chan) :
  let p := chan_port c in
  match Port_receive E c with
  | (Ret a, c') =>
      exists header data,
        List.concat (incoming (chan_sock c))
        = header ++ data ++ List.concat (incoming (chan_sock c'))
        /\ List.length header = 8%nat
        /\ len data = be_decode header
        /\ Box_decrypt E (_box p) data (nonce_of (_receive_nonce p)) = inr a
        /\ chan_port c' = after_receive p
        /\ sent (chan_sock c') = sent (chan_sock c)
  | (Raise e, c') =>
      (exists got, List.concat (incoming (chan_sock c))
                   = got ++ List.concat (incoming (chan_sock c')))
      /\ sent (chan_sock c') = sent (chan_sock c)
  | (Blocked, c') =>
      (exists got, List.concat (incoming (chan_sock c))
                   = got ++ List.concat (incoming (chan_sock c')))
      /\ sent (chan_sock c') = sent (chan_sock c)
      /\ silent (chan_sock c')
  | (OutOfFuel, _) => False
  end.
Proof.
  cbv zeta.
  destruct (Port_receive E c) as [o c'] eqn:H.
  pose proof (chan_tame_receive E c o c' H) as (Hf & Hb & Hg & _ & _ & _).
  pose proof (Port_receive_inv E c c' o H) as ((Hsent & _) & _ & _).
  destruct o as [a|e| |];
    [|split; assumption
     |split; [assumption|split; [assumption|apply Hb; reflexivity]]
     |apply Hf; reflexivity].
  clear Hf Hb Hg.
  unfold Port_receive in H.
  inv_bind_as H header c1 H1; try discriminate.
  inv_bind_as H length c2 H2; try discriminate.
  inv_bind_as H data c3 H3; try discriminate.
  apply lift_sum_Ret in H2. destruct H2 as [Hu ->].
  unfold on_sock, zoom in H1, H3.
  destruct (socket_read_fixed 8 (chan_sock c)) as [o1 k1] eqn:R1.
  injection H1 as -> <-. cbn [chan_sock set_sock] in H3.
  destruct (socket_read_fixed length k1) as [o2 k2] eqn:R2.
  injection H3 as -> <-.
  apply socket_read_fixed_inv in R1, R2.
  destruct R1 as [_ [Hc1 Hl1]]. destruct R2 as [_ [Hc2 Hl2]].
  unfold struct_unpack_Q in Hu.
  destruct (len header =? 8); [|discriminate]. injection Hu as <-.
  revert H. unfold bind, gets, log_call, modify, lift_sum, raise, ret.
  cbn [chan_port chan_sock chan_log set_sock set_port].
  destruct (struct_pack_24xQ (_receive_nonce (chan_port c))) as [e|nonce] eqn:Hn;
    [discriminate|].
  apply struct_pack_24xQ_inv in Hn. destruct Hn as [_ ->].
  destruct (Box_decrypt E (_box (chan_port c)) data
              (nonce_of (_receive_nonce (chan_port c)))) as [e|pt] eqn:Hd;
    [discriminate|].
  intro H. injection H as <- <-. cbn [chan_port chan_sock].
  exists header, data. rewrite Hc1, Hc2.
  split; [reflexivity|]. split; [exact Hl1|].
  split; [pose proof (be_decode_nonneg header); unfold len; lia|].
  split; [exact Hd|]. split; [reflexivity|exact Hsent].
Qed.

(** X4.  A JSON object sent with [send_json] on one port arrives with
    [receive_json] on the other: for two ports whose boxes belong
    together and whose counters agree (the sender's send counter is the
    receiver's receive counter), a message that is a dict and that
    [json.loads] reads back from its [json.dumps], and a receiver that
    reads what the sender wrote. *)
Theorem send_json_receive_json (msg : pyobj) (wire rest : bytes)
  (cs cs' cr : chan) :
  box_pair E (_box (chan_port cs)) (_box (chan_port cr)) ->
  _send_nonce (chan_port cs) = _receive_nonce (chan_port cr) ->
  isinstance msg t_dict = true ->
  json_loads E (json_dumps E msg) = inr msg ->
  Port_send_json E msg cs = (Ret tt, cs') ->
  sent (chan_sock cs') = sent (chan_sock cs) ++ wire ->
  readable (chan_sock cr) ->
  List.concat (incoming (chan_sock cr)) = wire ++ rest ->
  fst (Port_receive_json E cr) = Ret msg
  /\ List.concat (incoming (chan_sock (snd (Port_receive_json E cr)))) = rest
  /\ _send_nonce (chan_port cs')
     = _receive_nonce (chan_port (snd (Port_receive_json E cr))).
Proof.
  intros Hbox Hnonce Hdict Hjson Hsend Hwire Hread Hin.
  unfold Port_send_json in Hsend.
  destruct (roundtrip_one E _ _ _ _ _ _ Hbox Hnonce Hsend Hwire Hread Hin)
    as (cr' & Hrecv & Hrest & _ & Hpr & Hps).
  assert (Hrj : Port_receive_json E cr = (Ret msg, cr')).
  { unfold Port_receive_json, bind. rewrite Hrecv, Hjson. cbn [lift_sum ret].
    rewrite Hdict. reflexivity. }
  rewrite Hrj. cbn [fst snd].
  split; [reflexivity|]. split; [exact Hrest|].
  rewrite Hpr, Hps. cbn. rewrite Hnonce. reflexivity.
Qed.

(** X5.  [receive_json] returns dicts only.  A message that decrypts
    and parses to any other JSON value is rejected with [ValueError];
    by then its frame is off the stream and its nonce is used, as after
    the [receive] alone. *)
Theorem receive_json_only_dicts (c : chan) :
  (forall v c', Port_receive_json E c = (Ret v, c') -> exists d, v = PyDict d)
  /\ (forall raw v c',
         Port_receive E c = (Ret raw, c') ->
         json_loads E raw = inr v ->
         (forall d, v <> PyDict d) ->
         Port_receive_json E c
         = (Raise (PyExc ValueError "Top-level JSON value must be a dictionary"),
            c')
         /\ _receive_nonce (chan_port c') = _receive_nonce (chan_port c) + 2).
Proof.
  split.
  - intros v c' H. unfold Port_receive_json in H.
    inv_bind_as H raw c1 H1; try discriminate.
    inv_bind_as H v1 c2 H2; try discriminate.
    destruct (isinstance v1 t_dict) eqn:Hi; cbn [negb] in H; [|discriminate].
    injection H as <- _. destruct v1; try discriminate. eexists; reflexivity.
  - intros raw v c' Hr Hj Hnd. split.
    + unfold Port_receive_json, bind. rewrite Hr, Hj. cbn [lift_sum ret].
      destruct v; try reflexivity. exfalso. exact (Hnd d eq_refl).
    + apply Port_receive_inv in Hr. cbv zeta in Hr.
      destruct Hr as (_ & _ & [(_ & _ & [[e He]|He])|(_ & -> & _)]);
        [discriminate|discriminate|].
      reflexivity.
Qed.

End Framing.

(** The "finish" message from a client port to a server port. *)
Lemma send_json_receive_json_witness :
  Port_send_json Demo.ext finish_msg Demo.json_sender = (Ret tt, Demo.json_sent)
  /\ fst (Port_receive_json Demo.ext Demo.json_receiver) = Ret finish_msg.
Proof.
  assert (Hs : Port_send_json Demo.ext finish_msg Demo.json_sender
               = (Ret tt, Demo.json_sent)) by (vm_compute; reflexivity).
  split; [exact Hs|].
  refine (proj1 (send_json_receive_json Demo.ext finish_msg
                   (sent (chan_sock Demo.json_sent)) []
                   Demo.json_sender Demo.json_sent Demo.json_receiver
                   (demo_box_pair _ _) eq_refl eq_refl _ Hs _ _ _)).
  - vm_compute. reflexivity.
  - reflexivity.
  - unfold readable. vm_compute. repeat split; repeat constructor; discriminate.
  - vm_compute. reflexivity.
Defined.

(* ================================================================== *)
(** * Further properties: results and profiles *)
(* ================================================================== *)

Lemma profiler_loop_spec (E : Externals) (d : list (string * pyobj))
  (keys : list string) :
  forall acc : Profiler,
    match _profiler_from_json_loop E (PyDict d) keys acc with
    | inr p =>
        map (stat_entry E d) keys
        = map Some (skipn (List.length (stats acc)) (stats p))
        /\ firstn (List.length (stats acc)) (stats p) = stats acc
    | inl e =>
        exists key, In key keys
          /\ ((StatType_item E key = None /\ e = PyExc KeyError key)
              \/ ((forall f, dict_get d key <> PyFloat f)
                  /\ exc_class e = ValueError))
    end.
Proof.
  induction keys as [|key keys IH]; intro acc; cbn [_profiler_from_json_loop].
  - rewrite skipn_all, firstn_all. split; reflexivity.
  - destruct (StatType_item E key) as [stat|] eqn:Hst.
    2:{ exists key. split; [left; reflexivity|]. left. split; [exact Hst|reflexivity]. }
    rewrite json_prop_dict.
    destruct (isinstance (dict_get d key) t_float) eqn:Hi.
    2:{ exists key. split; [left; reflexivity|]. right. split; [|reflexivity].
        intros f Hf. rewrite Hf in Hi. discriminate. }
    apply isinstance_float in Hi. destruct Hi as [f Hf].
    specialize (IH (add_stat acc stat (float_value (dict_get d key)))).
    destruct (_profiler_from_json_loop E (PyDict d) keys _) as [e|p].
    + destruct IH as (k & Hk & Hc). exists k. split; [right; exact Hk|exact Hc].
    + destruct IH as [Hmap Hfirst].
      cbn [add_stat stats] in Hmap, Hfirst. rewrite length_app in Hmap, Hfirst.
      cbn [List.length] in Hmap, Hfirst.
      assert (Hp : stats p = stats acc ++ (stat, f)
                             :: skipn (List.length (stats acc) + 1) (stats p)).
      { rewrite <- (firstn_skipn (List.length (stats acc) + 1) (stats p)) at 1.
        rewrite Hfirst, Hf, <- app_assoc. reflexivity. }
      split.
      * cbn [map]. unfold stat_entry at 1. rewrite Hst, Hf, Hmap.
        rewrite Hp at 2. rewrite skipn_app, skipn_all, Nat.sub_diag. reflexivity.
      * rewrite Hp, firstn_app, firstn_all, Nat.sub_diag.
        cbn [firstn]. apply app_nil_r.
Qed.

(** X6.  [_profiler_from_json] on a JSON object: it returns a profiler
    only if every key names a stat type and every value is a float, and
    then it holds exactly one stat per entry, in the order of the keys;
    otherwise it raises [KeyError] for the first key that names no stat
    type, or [ValueError] for the first value that is not a float (an
    integer time is not accepted).  The empty object gives the empty
    profiler. *)
Theorem profiler_from_json_spec (E : Externals) (d : list (string * pyobj)) :
  match _profiler_from_json E (PyDict d) with
  | inr p => map (stat_entry E d) (map fst d) = map Some (stats p)
  | inl e =>
      exists key, In key (map fst d)
        /\ ((StatType_item E key = None /\ e = PyExc KeyError key)
            \/ ((forall f, dict_get d key <> PyFloat f)
                /\ exc_class e = ValueError))
  end.
Proof.
  unfold _profiler_from_json. cbn [dict_keys].
  pose proof (profiler_loop_spec E d (map fst d) (mk_Profiler [])) as H.
  destruct (_profiler_from_json_loop E (PyDict d) (map fst d) (mk_Profiler []));
    [exact H|]. apply H.
Qed.

(** X7.  [_result_from_json] on a JSON object.  With an "error" key
    the result is an [EvalError] carrying that text and no seed, whatever
    else the message holds and whatever source was passed; an "error"
    that is not a string (also [null]) raises [ValueError].  Without the
    key the result is a [CandidateResult] made of the object's "score",
    which must be an integer, its "hash", which must be a string, the
    source passed in, and the profiler read from its "profiler" object;
    if one of them is missing or of another type the call raises. *)
Theorem result_from_json_spec (E : Externals) (d : list (string * pyobj))
  (source : option string) :
  if dict_has d "error" then
    match dict_get d "error" with
    | PyStr text =>
        _result_from_json E (PyDict d) source = inr (EvalError text None)
    | _ =>
        exists e, _result_from_json E (PyDict d) source = inl e
                  /\ exc_class e = ValueError
    end
  else
    match _result_from_json E (PyDict d) source with
    | inr r =>
        exists hash prof profiler,
          r = CandidateResult (dict_get d "score") hash source profiler
          /\ isinstance (dict_get d "score") t_int = true
          /\ dict_get d "hash" = PyStr hash
          /\ dict_get d "profiler" = PyDict prof
          /\ _profiler_from_json E (PyDict prof) = inr profiler
    | inl e =>
        isinstance (dict_get d "profiler") t_dict = false
        \/ (exists prof, dict_get d "profiler" = PyDict prof
                         /\ _profiler_from_json E (PyDict prof) = inl e)
        \/ isinstance (dict_get d "score") t_int = false
        \/ isinstance (dict_get d "hash") t_str = false
    end.
Proof.
  unfold _result_from_json. cbn [key_in].
  destruct (dict_has d "error").
  - rewrite json_prop_dict.
    destruct (dict_get d "error"); cbn [isinstance str_value negb];
      try (eexists; split; reflexivity).
  - rewrite !json_prop_dict.
    destruct (isinstance (dict_get d "profiler") t_dict) eqn:Hp; [|left; reflexivity].
    destruct (dict_get d "profiler") as [| | | | | |prof] eqn:Hprof; try discriminate.
    destruct (_profiler_from_json E (PyDict prof)) as [e|profiler] eqn:Hpf.
    { right. left. exists prof. split; [reflexivity|exact Hpf]. }
    destruct (isinstance (dict_get d "score") t_int) eqn:Hs;
      [|right; right; left; reflexivity].
    destruct (isinstance (dict_get d "hash") t_str) eqn:Hh;
      [|right; right; right; reflexivity].
    destruct (dict_get d "hash") as [| | | |hash| |] eqn:Hhash; try discriminate.
    exists hash, prof, profiler. cbn [str_value]. auto.
Qed.

Lemma dict_get_absent (d : list (string * pyobj)) (k : string) :
  dict_has d k = false -> dict_get d k = PyNone.
Proof.
  induction d as [|[k' v] d IH]; cbn [dict_has dict_get]; [reflexivity|].
  destruct (String.eqb k' k); cbn [orb]; [discriminate|exact IH].
Qed.

(** X24.  [json_prop(obj, prop, t)] on a JSON object.  It returns
    [obj.get(prop)] exactly when that value is an instance of [t], and
    converts nothing: a [bool] passes as an [int], but an [int] is no
    [float], a [float] no [int], and [None] is nothing.  Otherwise it
    raises [ValueError] with the text "Member <prop> must have type
    <t>; got <type of the value>", where an absent member counts as
    [None] and is reported as [NoneType]. *)
Theorem json_prop_spec (d : list (string * pyobj)) (prop : string) (t : pytype) :
  (forall v,
      json_prop (PyDict d) prop t = inr v
      <-> (dict_get d prop = v /\ isinstance v t = true))
  /\ (isinstance (dict_get d prop) t = false ->
      json_prop (PyDict d) prop t
      = inl (PyExc ValueError
               ("Member " ++ prop ++ " must have type " ++ type_name t
                ++ "; got " ++ found_type_name (dict_get d prop))%string))
  /\ (dict_has d prop = false ->
      json_prop (PyDict d) prop t
      = inl (PyExc ValueError
               ("Member " ++ prop ++ " must have type " ++ type_name t
                ++ "; got NoneType")%string))
  /\ (forall v,
        isinstance v t = true
        <-> match t with
            | t_bool => exists b, v = PyBool b
            | t_int => (exists b, v = PyBool b) \/ (exists n, v = PyInt n)
            | t_float => exists f, v = PyFloat f
            | t_str => exists text, v = PyStr text
            | t_list => exists l, v = PyList l
            | t_dict => exists entries, v = PyDict entries
            end).
Proof.
  split; [|split; [|split]].
  - intro v. rewrite json_prop_dict. split.
    + destruct (isinstance (dict_get d prop) t) eqn:Hi; [|discriminate].
      intro H. injection H as <-. split; [reflexivity|exact Hi].
    + intros [<- Hi]. rewrite Hi. reflexivity.
  - intro Hi. rewrite json_prop_dict, Hi. reflexivity.
  - intro Hd. rewrite json_prop_dict, (dict_get_absent d prop Hd).
    destruct t; reflexivity.
  - intro v. split.
    + destruct v, t; cbn [isinstance]; try discriminate; intros _;
        try (eexists; reflexivity);
        [left; eexists; reflexivity|right; eexists; reflexivity].
    + destruct t; intro H;
        repeat match goal with
               | H : _ \/ _ |- _ => destruct H as [H|H]
               | H : exists _, _ |- _ => destruct H as [? H]
               end; subst; reflexivity.
Qed.

(* ================================================================== *)
(** * Further properties: what the main loop sends *)
(* ================================================================== *)

Section LoopSends.

Variable E : Externals.
Variable self : Connection.

Lemma put_only_received (f : Feedback) : obeys only_received (put self f).
Proof.
  intros s o s' H. rewrite put_raises in H. injection H as _ <-.
  apply only_received_refl.
Qed.

Lemma handle_result_only_received (msg : pyobj) :
  obeys only_received (handle_result E self msg).
Proof.
  unfold handle_result.
  repeat first
    [ apply put_only_received
    | apply receive_only_received
    | apply obeys_ret; exact only_received_refl
    | apply obeys_lift_sum; exact only_received_refl
    | apply obeys_bind; [exact only_received_trans| |intro]
    | match goal with
      | |- obeys _ (if ?b then _ else _) => destruct b
      end ].
Qed.

(** X8.  Once the flag [finished] is set the main loop only receives:
    however it ends, it has written no byte, handed no message to
    [encrypt], left the send counter alone and taken no task from the
    queue.  The server's results keep being received and reported until
    its "finish" arrives, but nothing is sent after the client's own
    "finish". *)
Theorem main_loop_finished_only_receives (fuel : nat) (s : state) :
  only_received s (snd (main_loop E self fuel true s)).
Proof.
  destruct (main_loop E self fuel true s) as [o s'] eqn:H. cbn [snd].
  revert H.
  apply (main_loop_obeys only_received only_received_refl only_received_trans
           E self (fun finished => finished = true)); [| | | |reflexivity].
  - intros finished ->. split.
    + apply obeys_ret. exact only_received_refl.
    + intros s0 f' s0' H. inversion H. reflexivity.
  - exact (receive_json_only_received E).
  - apply put_only_received.
  - apply handle_result_only_received.
Qed.

Lemma forwarded_refl (s : state) : forwarded E s s.
Proof.
  exists []. split; [reflexivity|]. intros _ _. cbn.
  rewrite app_nil_r. split; [lia|reflexivity].
Qed.

Lemma forwarded_trans (a b c : state) :
  forwarded E a b -> forwarded E b c -> forwarded E a c.
Proof.
  intros (p1 & Hq1 & H1) (p2 & Hq2 & H2).
  exists (p1 ++ p2). split; [rewrite Hq1, Hq2, app_assoc; reflexivity|].
  unfold len in *. rewrite length_app. intros H0 Hle.
  destruct H1 as [Hn1 Hl1]; [exact H0|lia|].
  destruct H2 as [Hn2 Hl2]; [lia|lia|].
  split; [lia|]. rewrite Hl2, Hl1, map_app, app_assoc. reflexivity.
Qed.

Lemma only_received_forwarded (s s' : state) :
  only_received s s' -> forwarded E s s'.
Proof.
  intros (_ & Hl & Hn & Hq). exists []. split; [rewrite Hq; reflexivity|].
  intros _ _. cbn. rewrite Hl, Hn, app_nil_r. split; [lia|reflexivity].
Qed.

Lemma send_json_forwards (task : Task) (payload : pyobj) (s : state) :
  json_dumps E payload = task_payload E task ->
  forall o s',
    on_port (Port_send_json E payload) s = (o, s') ->
    _task_queue s' = _task_queue s
    /\ (0 <= _send_nonce (chan_port (conn s)) ->
        _send_nonce (chan_port (conn s)) + 2 <= 2 ^ 64 ->
        _send_nonce (chan_port (conn s')) = _send_nonce (chan_port (conn s)) + 2
        /\ encrypt_payloads (chan_log (conn s'))
           = encrypt_payloads (chan_log (conn s)) ++ [task_payload E task]).
Proof.
  intros Hpay o s' H. apply on_port_inv in H. destruct H as (c' & H & ->).
  cbn [conn set_conn _task_queue]. split; [reflexivity|].
  intros H0 Hle. unfold Port_send_json in H.
  apply Port_send_inv in H. cbv zeta in H.
  destruct H as [(_ & _ & Hout)|(_ & Hp & Hl & _)]; [exfalso; apply Hout; lia|].
  rewrite Hp, Hl, encrypt_payloads_app, Hpay. cbn. split; reflexivity.
Qed.

Lemma send_step_forwarded (finished : bool) :
  obeys (forwarded E) (send_step E finished).
Proof.
  intros s o s' H. unfold send_step in H.
  destruct (negb finished); [|inversion H; subst; apply forwarded_refl].
  inv_bind_as H task s1 H1;
    try (unfold task_get in H1; destruct (_task_queue s); discriminate).
  { unfold task_get in H1.
    destruct (_task_queue s) as [|t rest] eqn:Hq; [discriminate|].
    injection H1 as -> <-.
    assert (Hstep : forall payload o2 s2,
              json_dumps E payload = task_payload E task ->
              on_port (Port_send_json E payload)
                (mk_state (conn s) (self_sock s) rest (_feedback_queue s)
                   (connect_error s) (ephemeral s)) = (o2, s2) ->
              forwarded E s s2).
    { intros payload o2 s2 Hpay H2.
      destruct (send_json_forwards task payload _ Hpay _ _ H2) as [Hq2 Hn].
      cbn [conn _task_queue] in Hq2, Hn.
      exists [task]. split; [rewrite Hq2, Hq; reflexivity|].
      intros H0 Hle. unfold len in Hle. cbn [List.length] in Hle.
      destruct (Hn H0 ltac:(lia)) as [Hn1 Hn2].
      unfold len. cbn [List.length map]. split; [lia|exact Hn2]. }
    destruct task as [reason|permuter seed].
    - inv_bind_as H u s2 H2;
        try (injection H as _ <-; eapply Hstep; [reflexivity|exact H2]).
      pose proof (Hstep _ _ _ eq_refl H2) as Hf.
      inv_bind_as H u3 s3 H3.
      all: assert (Hsh : only_received s2 s3)
        by (apply on_port_inv in H3; destruct H3 as (c' & H3 & ->);
            unfold SocketPort_shutdown, socket_shutdown, on_sock, zoom,
              sock_shutdown in H3;
            destruct (closed (chan_sock (conn s2)));
            injection H3 as _ <-; repeat split).
      all: injection H as _ <-.
      all: eapply forwarded_trans; [exact Hf|apply only_received_forwarded; exact Hsh].
    - inv_bind_as H u s2 H2;
        (injection H as _ <-; eapply Hstep; [reflexivity|exact H2]). }
  all: unfold task_get in H1; destruct (_task_queue s) eqn:Hq; try discriminate.
  injection H1 as <-. injection H as _ <-. apply forwarded_refl.
Qed.

(** X9.  However the main loop ends, the tasks it took are a prefix of
    the task queue, and, while the send counter stays within u64, the
    messages it handed to [encrypt] are exactly those of the tasks
    taken, in queue order: the work message of each task with its
    descriptor index and seed, the "finish" message for the sentinel.
    No task is skipped, repeated or sent out of order, and nothing else
    is sent. *)
Theorem main_loop_forwards_tasks (fuel : nat) (finished : bool) (s : state) :
  0 <= _send_nonce (chan_port (conn s)) ->
  _send_nonce (chan_port (conn s)) + 2 * len (_task_queue s) <= 2 ^ 64 ->
  let s' := snd (main_loop E self fuel finished s) in
  exists pulled,
    _task_queue s = pulled ++ _task_queue s'
    /\ encrypt_payloads (chan_log (conn s'))
       = encrypt_payloads (chan_log (conn s)) ++ map (task_payload E) pulled.
Proof.
  intros H0 Hle. cbv zeta.
  destruct (main_loop E self fuel finished s) as [o s'] eqn:H. cbn [snd].
  assert (Hf : forwarded E s s').
  { revert H.
    apply (main_loop_obeys (forwarded E) forwarded_refl forwarded_trans
             E self (fun _ => True)); [| | | |exact I].
    - intros f _. split; [apply send_step_forwarded|auto].
    - intros a o1 b Hx. apply only_received_forwarded.
      exact (receive_json_only_received E _ _ _ Hx).
    - intros a o1 b Hx. apply only_received_forwarded.
      exact (put_only_received _ _ _ _ Hx).
    - intros msg a o1 b Hx. apply only_received_forwarded.
      exact (handle_result_only_received _ _ _ _ Hx). }
  destruct Hf as (pulled & Hq & Hn). exists pulled. split; [exact Hq|].
  apply Hn; [exact H0|].
  rewrite Hq in Hle. unfold len in *. rewrite length_app in Hle. lia.
Qed.

End LoopSends.

Lemma main_loop_forwards_tasks_witness :
  0 <= _send_nonce (chan_port (conn Demo.late_finish))
  /\ _send_nonce (chan_port (conn Demo.late_finish))
     + 2 * len (_task_queue Demo.late_finish) <= 2 ^ 64
  /\ exists pulled,
       _task_queue Demo.late_finish
       = pulled ++ _task_queue (snd (main_loop Demo.ext (Demo.client Demo.f5)
                                       3 false Demo.late_finish))
       /\ encrypt_payloads
            (chan_log (conn (snd (main_loop Demo.ext (Demo.client Demo.f5)
                                    3 false Demo.late_finish))))
          = encrypt_payloads (chan_log (conn Demo.late_finish))
            ++ map (task_payload Demo.ext) pulled.
Proof.
  assert (H0 : 0 <= _send_nonce (chan_port (conn Demo.late_finish)))
    by (vm_compute; discriminate).
  assert (Hle : _send_nonce (chan_port (conn Demo.late_finish))
                + 2 * len (_task_queue Demo.late_finish) <= 2 ^ 64)
    by (vm_compute; discriminate).
  split; [exact H0|]. split; [exact Hle|].
  exact (main_loop_forwards_tasks Demo.ext (Demo.client Demo.f5) 3 false
           Demo.late_finish H0 Hle).
Defined.

(* ================================================================== *)
(** * Further properties: events, teardown, descriptor transfer *)
(* ================================================================== *)

Section Descriptors.

Variable E : Externals.
Variable self : Connection.

(** X12.  [_send_permuters] hands its messages to [encrypt] in one
    fixed order: first the metadata message with the priority and every
    descriptor, then for each descriptor, in the order of the list, its
    compressed source followed by its object file.  When it returns,
    exactly these [1 + 2 * len(permuters)] messages were handed over;
    when it raises, a prefix of them.  Each message advanced the send
    counter by two; nothing was read, and no task or event was touched. *)
Theorem send_permuters_in_order (s : state) :
  match _send_permuters E self s with
  | (Ret _, s') =>
      handed_over s s' (descriptor_messages E self)
      /\ len (descriptor_messages E self) = 1 + 2 * len (_permuters self)
  | (Raise _, s') =>
      exists msgs more,
        descriptor_messages E self = msgs ++ more
        /\ handed_over s s' msgs
  | _ => False
  end.
Proof. exact (send_permuters_hands_over E self s). Qed.

End Descriptors.

Section Handshake.

Variable E : Externals.
Variable self : Connection.

Lemma app_one_neq {A : Type} (l : list A) (x : A) : l ++ [x] <> l.
Proof.
  intro H. apply (f_equal (@List.length A)) in H.
  rewrite length_app in H. cbn in H. lia.
Qed.

(** How far [_setup] got, read off the state it leaves: nothing written
    yet; the hello written and nothing decrypted; or the reply verified
    and the first message decrypted. *)
Lemma setup_stages (s s' : state) (o : outcome unit) :
  _setup E self s = (o, s') ->
  _task_queue s' = _task_queue s
  /\ _feedback_queue s' = _feedback_queue s
  /\ ((conn s' = conn s /\ o <> Ret tt)
      \/ (chan_log (conn s') = chan_log (conn s)
          /\ sent (chan_sock (conn s'))
             = sent (chan_sock (conn s)) ++ hello E self (ephemeral s)
          /\ o <> Ret tt)
      \/ (sent (chan_sock (conn s'))
          = sent (chan_sock (conn s)) ++ hello E self (ephemeral s)
          /\ exists reply rest inner key data,
               List.concat (incoming (chan_sock (conn s))) = reply ++ rest
               /\ len reply = 103
               /\ verify_with_magic E (bytes_of "SERVER")
                    (ver_key (_server self)) reply = inr inner
               /\ PublicKey_new E inner = inr key
               /\ chan_log (conn s') = chan_log (conn s) ++ [Decrypt data (nonce_of 1)]
               /\ chan_port (conn s')
                  = after_receive
                      (Port_init (mk_Box (private_bytes (ephemeral s))
                                    (public_bytes key)) true))).
Proof.
  unfold _setup. intro H.
  inv_bind_as H u1 s1 H1.
  2-4: unfold create_connection in H1; destruct (connect_error s);
       inversion H1; subst; inversion H; subst;
       (split; [reflexivity|split; [reflexivity|
          left; split; [reflexivity|discriminate]]]).
  assert (Hs1 : s1 = mk_state (conn s) true (_task_queue s) (_feedback_queue s)
                       (connect_error s) (ephemeral s)).
  { unfold create_connection in H1. destruct (connect_error s); inversion H1.
    reflexivity. }
  clear H1. subst s1.
  inv_bind_as H key s2 H2; try discriminate.
  injection H2 as <- <-. cbn [ephemeral].
  inv_bind_as H version s3 H3; try discriminate.
  injection H3 as <- <-.
  inv_bind_as H u4 s4 H4.
  2-4: unfold on_socket, on_port, on_sock, zoom, sock_sendall in H4;
       cbn [conn] in H4;
       destruct (closed (chan_sock (conn s))); [|destruct (wr_shut (chan_sock (conn s)))];
       inversion H4; subst; inversion H; subst;
       cbn [conn set_conn _task_queue _feedback_queue set_sock];
       (split; [reflexivity|split; [reflexivity|
          left; split; [destruct (conn s); reflexivity|discriminate]]]).
  assert (Hs4 : _task_queue s4 = _task_queue s
                /\ _feedback_queue s4 = _feedback_queue s
                /\ ephemeral s4 = ephemeral s
                /\ chan_log (conn s4) = chan_log (conn s)
                /\ incoming (chan_sock (conn s4)) = incoming (chan_sock (conn s))
                /\ sent (chan_sock (conn s4))
                   = sent (chan_sock (conn s)) ++ hello E self (ephemeral s)).
  { unfold on_socket, on_port, on_sock, zoom, sock_sendall in H4.
    cbn [conn] in H4.
    destruct (closed (chan_sock (conn s))); [discriminate|].
    destruct (wr_shut (chan_sock (conn s))); [discriminate|].
    injection H4 as _ <-.
    cbn [conn set_conn _task_queue _feedback_queue set_sock chan_sock chan_log
         incoming sent ephemeral].
    repeat (split; [reflexivity|]). reflexivity. }
  clear H4. destruct Hs4 as (Ht4 & Hf4 & He4 & Hl4 & Hi4 & Hw4).
  inv_bind_as H msg s5 H5.
  all: apply on_port_inv in H5; destruct H5 as (c5 & H5 & ->);
       unfold on_sock, zoom in H5;
       destruct (socket_read_fixed (7 + 32 + 64) (chan_sock (conn s4)))
         as [o5 k5] eqn:Hr;
       injection H5 as -> <-;
       apply socket_read_fixed_inv in Hr; destruct Hr as [(Hw5 & _) Hr].
  2-4: inversion H; subst;
       cbn [conn set_conn _task_queue _feedback_queue set_sock chan_sock chan_log];
       (split; [exact Ht4|split; [exact Hf4|
          right; left; split; [exact Hl4|
            split; [rewrite Hw5; exact Hw4|discriminate]]]]).
  destruct Hr as [Hcat Hlen].
  set (s5 := set_conn (set_sock k5 (conn s4)) s4) in *.
  assert (Hs5 : _task_queue s5 = _task_queue s
                /\ _feedback_queue s5 = _feedback_queue s
                /\ chan_log (conn s5) = chan_log (conn s)
                /\ sent (chan_sock (conn s5))
                   = sent (chan_sock (conn s)) ++ hello E self (ephemeral s)).
  { subst s5. cbn [conn set_conn _task_queue _feedback_queue set_sock chan_sock chan_log].
    rewrite Hw5. auto. }
  destruct Hs5 as (Ht5 & Hf5 & Hl5 & Hsent5).
  assert (Hinc5 : incoming (chan_sock (conn s5)) = incoming k5) by reflexivity.
  clearbody s5.
  inv_bind_as H inner s6 H6.
  all: pose proof (lift_sum_state _ _ _ _ H6) as ->.
  2-4: inversion H; subst;
       (split; [exact Ht5|split; [exact Hf5|
          right; left; split; [exact Hl5|split; [exact Hsent5|discriminate]]]]).
  apply lift_sum_Ret in H6. destruct H6 as [Hver _].
  inv_bind_as H pk s7 H7.
  all: pose proof (lift_sum_state _ _ _ _ H7) as ->.
  2-4: inversion H; subst;
       (split; [exact Ht5|split; [exact Hf5|
          right; left; split; [exact Hl5|split; [exact Hsent5|discriminate]]]]).
  apply lift_sum_Ret in H7. destruct H7 as [Hkey _].
  inv_bind_as H u8 s8 H8; try discriminate.
  unfold on_port, zoom, modify in H8. injection H8 as <-.
  inv_bind_as H raw s9 H9.
  all: apply on_port_inv in H9; destruct H9 as (c9 & H9 & ->);
       cbn [conn set_conn] in H9;
       apply Port_receive_inv in H9; cbv zeta in H9;
       cbn [conn set_conn chan_sock chan_port chan_log set_port Port_init
            _receive_nonce _box] in H9;
       destruct H9 as ((Hw9 & _) & _ & H9).
  all: inversion H; subst; clear H.
  all: cbn [conn set_conn _task_queue _feedback_queue].
  all: (split; [exact Ht5|split; [exact Hf5|]]).
  all: destruct H9 as [(_ & Hl9 & He9)|(_ & Hp9 & data & Hl9 & _)].
  all: cbn [conn set_conn chan_sock chan_port chan_log set_port Port_init
            _receive_nonce] in *.
  all: try (destruct He9 as [[? He9]|He9]; discriminate).
  all: try (right; left; split; [rewrite Hl9; exact Hl5|
            split; [rewrite Hw9; exact Hsent5|discriminate]]).
  all: right; right; (split; [rewrite Hw9; exact Hsent5|]);
       exists msg, (List.concat (incoming k5)), inner, pk, data;
       rewrite <- Hi4;
       (split; [exact Hcat|
        split; [unfold len; rewrite Hlen; reflexivity|
        split; [exact Hver|
        split; [exact Hkey|
        split; [rewrite Hl9, Hl5; reflexivity|
        exact Hp9]]]]]).
Qed.

(** X13.  [_setup] authenticates before it decrypts.  It never hands
    anything to [encrypt] and never touches the queues.  It writes the
    hello (version 1 in four bytes, the verification key, the signed
    ephemeral key) once or, if the socket cannot be written, nothing;
    nothing is read before the hello is written.  A box call is made
    only after the first 103 bytes of the stream have passed
    [verify_with_magic] under the verification key configured for this
    server and have given a public key; it is then one [decrypt] under
    nonce 1 with the box built from the ephemeral key and that public
    key.  [_setup] returns only after that call. *)
Theorem setup_verifies_before_decrypting (s : state) :
  let s' := snd (_setup E self s) in
  let k := chan_sock (conn s) in
  let k' := chan_sock (conn s') in
  encrypt_payloads (chan_log (conn s')) = encrypt_payloads (chan_log (conn s))
  /\ _task_queue s' = _task_queue s
  /\ _feedback_queue s' = _feedback_queue s
  /\ (sent k' = sent k \/ sent k' = sent k ++ hello E self (ephemeral s))
  /\ (incoming k' <> incoming k -> sent k' = sent k ++ hello E self (ephemeral s))
  /\ (chan_log (conn s') <> chan_log (conn s) ->
      exists reply rest inner key data,
        List.concat (incoming k) = reply ++ rest
        /\ len reply = 103
        /\ verify_with_magic E (bytes_of "SERVER") (ver_key (_server self)) reply
           = inr inner
        /\ PublicKey_new E inner = inr key
        /\ chan_log (conn s') = chan_log (conn s) ++ [Decrypt data (nonce_of 1)]
        /\ _box (chan_port (conn s'))
           = mk_Box (private_bytes (ephemeral s)) (public_bytes key))
  /\ (fst (_setup E self s) = Ret tt -> chan_log (conn s') <> chan_log (conn s)).
Proof.
  cbv zeta. destruct (_setup E self s) as [o s'] eqn:H. cbn [fst snd].
  apply setup_stages in H.
  destruct H as (Ht & Hf & [(Hc & Ho)|[(Hl & Hw & Ho)|(Hw & Hd)]]).
  - rewrite Hc. repeat (split; [reflexivity || assumption|]).
    split; [left; reflexivity|].
    split; [intro Hn; exfalso; apply Hn; reflexivity|].
    split; [intro Hn; exfalso; apply Hn; reflexivity|].
    intros ->. exfalso. apply Ho. reflexivity.
  - rewrite Hl. repeat (split; [reflexivity || assumption|]).
    split; [right; exact Hw|].
    split; [intros _; exact Hw|].
    split; [intro Hn; exfalso; apply Hn; reflexivity|].
    intros ->. exfalso. apply Ho. reflexivity.
  - destruct Hd as (reply & rest & inner & key & data & H1 & H2 & H3 & H4 & Hl & Hp).
    split; [rewrite Hl, encrypt_payloads_app; cbn; apply app_nil_r|].
    repeat (split; [assumption|]).
    split; [right; exact Hw|].
    split; [intros _; exact Hw|].
    split; [|intros _; rewrite Hl; apply app_one_neq].
    intros _. exists reply, rest, inner, key, data.
    repeat (split; [assumption|]). rewrite Hp. reflexivity.
Qed.

(** [_setup] returns only after its [receive] has returned. *)
Lemma setup_returns_after_receive (s s' : state) :
  _setup E self s = (Ret tt, s') ->
  exists c raw c', Port_receive E c = (Ret raw, c').
Proof.
  unfold _setup. intro H.
  inv_bind_as H u1 s1 H1; try discriminate.
  inv_bind_as H key s2 H2; try discriminate.
  inv_bind_as H version s3 H3; try discriminate.
  inv_bind_as H u4 s4 H4; try discriminate.
  inv_bind_as H msg s5 H5; try discriminate.
  inv_bind_as H inner s6 H6; try discriminate.
  inv_bind_as H pk s7 H7; try discriminate.
  inv_bind_as H u8 s8 H8; try discriminate.
  inv_bind_as H raw s9 H9; try discriminate.
  apply on_port_inv in H9. destruct H9 as (c9 & H9 & _).
  exists (conn s8), raw, c9. exact H9.
Qed.

(** X11.  With a box that takes nonces of twenty-four bytes only, as
    the boxes of NaCl do, no [run] gets past [_setup]: its [receive]
    cannot open the server's first message, since the nonce it builds
    has thirty-two bytes.  [_setup] never returns, [run] leaves the
    state as [_setup] left it, and nothing is ever handed to [encrypt]:
    no grant, no descriptor, no work. *)
Theorem strict_box_stops_run_in_setup (s : state) :
  strict_box E ->
  fst (_setup E self s) <> Ret tt
  /\ snd (run E self s) = snd (_setup E self s)
  /\ encrypt_payloads (chan_log (conn (snd (run E self s))))
     = encrypt_payloads (chan_log (conn s)).
Proof.
  intro strict.
  assert (Hno : fst (_setup E self s) <> Ret tt).
  { destruct (_setup E self s) as [o s0] eqn:H0. cbn [fst]. intros ->.
    apply setup_returns_after_receive in H0.
    destruct H0 as (c & raw & c' & Hr).
    apply (strict_receive_never_returns E strict c raw).
    rewrite Hr. reflexivity. }
  assert (Hstate : snd (run E self s) = snd (_setup E self s)).
  { rewrite run_state. unfold run_try, bind.
    destruct (_setup E self s) as [[[]| | |] s0]; try reflexivity.
    exfalso. apply Hno. reflexivity. }
  split; [exact Hno|]. split; [exact Hstate|].
  rewrite Hstate.
  destruct (_setup E self s) as [o s0] eqn:H0. cbn [snd].
  apply setup_stages in H0.
  destruct H0 as (_ & _ & [(Hc & _)|[(Hl & _)|(_ & Hd)]]).
  - rewrite Hc. reflexivity.
  - rewrite Hl. reflexivity.
  - destruct Hd as (_ & _ & _ & _ & data & _ & _ & _ & _ & Hl & _).
    rewrite Hl, encrypt_payloads_app. cbn. apply app_nil_r.
Qed.

(** The box calls of the [try] block: none, or the decryption of the
    server's first message, or that followed by the encryption of the
    grant and whatever comes later. *)
Lemma run_try_first_calls (s s' : state) (o : outcome (option string)) :
  run_try E self s = (o, s') ->
  exists calls,
    chan_log (conn s') = chan_log (conn s) ++ calls
    /\ match calls with
       | [] => True
       | first :: later =>
           (exists data, first = Decrypt data (nonce_of 1))
           /\ match later with
              | [] => True
              | second :: _ => second = Encrypt (_grant self) (nonce_of 0)
              end
       end.
Proof.
  unfold run_try. intro H. unfold bind at 1 in H.
  destruct (_setup E self s) as [o0 s0] eqn:H0.
  apply setup_stages in H0.
  destruct H0 as (_ & _ & [(Hc & Ho)|[(Hl & _ & Ho)|(_ & Hd)]]).
  - destruct o0 as [[]| | |]; [exfalso; apply Ho; reflexivity| | |];
      injection H as _ <-; exists []; rewrite Hc, app_nil_r; auto.
  - destruct o0 as [[]| | |]; [exfalso; apply Ho; reflexivity| | |];
      injection H as _ <-; exists []; rewrite Hl, app_nil_r; auto.
  - destruct Hd as (_ & _ & _ & key & data & _ & _ & _ & _ & Hl & Hp).
    assert (Hstop : exists calls,
               chan_log (conn s0) = chan_log (conn s) ++ calls
               /\ match calls with
                  | [] => True
                  | first :: later =>
                      (exists data, first = Decrypt data (nonce_of 1))
                      /\ match later with
                         | [] => True
                         | second :: _ => second = Encrypt (_grant self) (nonce_of 0)
                         end
                  end).
    { exists [Decrypt data (nonce_of 1)]. split; [exact Hl|].
      split; [eexists; reflexivity|exact I]. }
    destruct o0 as [u| | |]; try (injection H as _ <-; exact Hstop).
    clear Hstop.
    (* [_init] begins by sending the grant *)
    unfold bind at 1 in H.
    destruct (_init E self s0) as [oi si] eqn:Hi.
    assert (Hgrant : exists more,
               chan_log (conn si)
               = chan_log (conn s0) ++ Encrypt (_grant self) (nonce_of 0) :: more).
    { unfold _init in Hi.
      apply tame_bind_split in Hi; [|intro; tame_tac].
      destruct Hi as (o1 & s1 & Hsend & ((_ & [more Hmore] & _) & _)).
      apply on_port_inv in Hsend. destruct Hsend as (c1 & Hsend & ->).
      apply Port_send_inv in Hsend. cbv zeta in Hsend.
      rewrite Hp in Hsend. cbn [after_receive Port_init _send_nonce] in Hsend.
      destruct Hsend as [(_ & _ & Hout)|(_ & _ & Hlog & _)];
        [exfalso; apply Hout; lia|].
      exists more. rewrite Hmore. cbn [conn set_conn]. rewrite Hlog.
      rewrite <- app_assoc. reflexivity. }
    destruct Hgrant as [more Hgrant].
    assert (Hrest : exists later, chan_log (conn s') = chan_log (conn si) ++ later).
    { destruct oi as [props| | |];
        try (injection H as _ <-; exists []; rewrite app_nil_r; reflexivity).
      assert (Ht : tame (if SFltb (_priority self) (min_priority props)
                         then ret (Some ("skipping due to priority requirement "
                                         ++ fmt_float E (min_priority props))%string)
                         else run_session E self))
        by (destruct (SFltb _ _); [apply tame_ret|apply tame_run_session]).
      apply Ht in H. destruct H as (_ & _ & ((_ & Hlog & _) & _)). exact Hlog. }
    destruct Hrest as [later Hrest].
    exists (Decrypt data (nonce_of 1) :: Encrypt (_grant self) (nonce_of 0)
            :: more ++ later).
    split; [|split; [eexists; reflexivity|reflexivity]].
    rewrite Hrest, Hgrant, Hl, <- !app_assoc. reflexivity.
Qed.

(** X23.  The box calls of a whole [run] begin in one fixed way: the
    first is the decryption of the server's first message under nonce 1,
    and the second, if there is one, is the encryption of the grant
    under nonce 0.  So nothing is encrypted before the server's key was
    verified and its first message received, and the first thing the
    client encrypts is the grant. *)
Theorem run_encrypts_grant_first (s : state) :
  exists calls,
    chan_log (conn (snd (run E self s))) = chan_log (conn s) ++ calls
    /\ match calls with
       | [] => True
       | first :: later =>
           (exists data, first = Decrypt data (nonce_of 1))
           /\ match later with
              | [] => True
              | second :: _ => second = Encrypt (_grant self) (nonce_of 0)
              end
       end.
Proof.
  rewrite run_state.
  destruct (run_try E self s) as [o s1] eqn:Htry. cbn [snd].
  exact (run_try_first_calls _ _ _ Htry).
Qed.

End Handshake.

(** The handshake of the priority gate with the box of NaCl. *)
Lemma strict_box_stops_run_in_setup_witness :
  strict_box Demo.strict_ext
  /\ fst (_setup Demo.strict_ext (Demo.client Demo.f5) Demo.gate_start) <> Ret tt
  /\ encrypt_payloads
       (chan_log (conn (snd (run Demo.strict_ext (Demo.client Demo.f5)
                               Demo.gate_start))))
     = [].
Proof.
  split; [exact demo_strict_box|].
  destruct (strict_box_stops_run_in_setup Demo.strict_ext (Demo.client Demo.f5)
              Demo.gate_start demo_strict_box) as (H1 & _ & H3).
  split; [exact H1|exact H3].
Defined.

(* ================================================================== *)
(** * Further properties: portable build scripts *)
(* ================================================================== *)

Lemma str_append_assoc (a b c : string) :
  ((a ++ b) ++ c = a ++ (b ++ c))%string.
Proof. induction a as [|x a IH]; cbn; [reflexivity|rewrite IH; reflexivity]. Qed.

Lemma str_append_nil_r (a : string) : (a ++ "")%string = a.
Proof. induction a as [|x a IH]; cbn; [reflexivity|rewrite IH; reflexivity]. Qed.

Lemma str_len_append (a b : string) :
  str_len (a ++ b) = str_len a + str_len b.
Proof.
  unfold str_len. induction a as [|x a IH]; cbn [String.append String.length].
  - lia.
  - rewrite !Nat2Z.inj_succ. lia.
Qed.

Lemma str_len_nonneg (a : string) : 0 <= str_len a.
Proof. unfold str_len. lia. Qed.

Lemma str_drop_append (a b : string) :
  str_drop (String.length a) (a ++ b) = b.
Proof. induction a as [|x a IH]; cbn; [reflexivity|exact IH]. Qed.

Lemma str_take_append (a b : string) :
  str_take (String.length a) (a ++ b) = a.
Proof. induction a as [|x a IH]; cbn; [reflexivity|rewrite IH; reflexivity]. Qed.

Lemma has_char_append (c : ascii) (a b : string) :
  has_char c (a ++ b) = has_char c a || has_char c b.
Proof.
  induction a as [|x a IH]; cbn; [reflexivity|].
  rewrite IH, orb_assoc. reflexivity.
Qed.

Lemma has_char_drop (c : ascii) (n : nat) (s : string) :
  has_char c s = false -> has_char c (str_drop n s) = false.
Proof.
  revert s. induction n as [|n IH]; intros s H; [exact H|].
  destruct s as [|a s]; [reflexivity|]. cbn in *.
  apply orb_false_iff in H. apply IH, H.
Qed.

Lemma has_char_take (c : ascii) (n : nat) (s : string) :
  has_char c s = false -> has_char c (str_take n s) = false.
Proof.
  revert s. induction n as [|n IH]; intros s H; [reflexivity|].
  destruct s as [|a s]; [reflexivity|]. cbn in *.
  apply orb_false_iff in H. destruct H as [Ha Hs].
  rewrite Ha. cbn. apply IH, Hs.
Qed.

(** ** Splitting into lines and joining again *)

Lemma str_split_nonempty (sep : ascii) (s : string) : str_split sep s <> [].
Proof.
  destruct s as [|c s]; cbn; [discriminate|].
  destruct (Ascii.eqb c sep); [discriminate|].
  destruct (str_split sep s); discriminate.
Qed.

Lemma str_split_no_sep (sep : ascii) (s : string) :
  Forall (fun piece => has_char sep piece = false) (str_split sep s).
Proof.
  induction s as [|c s IH]; cbn [str_split].
  - repeat constructor.
  - destruct (Ascii.eqb c sep) eqn:Hc.
    + constructor; [reflexivity|exact IH].
    + destruct (str_split sep s) as [|p ps].
      * repeat constructor. cbn. rewrite Hc. reflexivity.
      * apply Forall_cons_iff in IH. destruct IH as [Hp Hps].
        constructor; [|exact Hps]. cbn. rewrite Hc. exact Hp.
Qed.

Lemma str_join_cons (sep p : string) (ps : list string) :
  ps <> [] ->
  str_join sep (p :: ps) = (p ++ sep ++ str_join sep ps)%string.
Proof. destruct ps; [congruence|reflexivity]. Qed.

Lemma join_split (s : string) : str_join newline (str_split "010" s) = s.
Proof.
  induction s as [|c s IH]; [reflexivity|]. cbn [str_split].
  destruct (Ascii.eqb c "010") eqn:Hc.
  - apply Ascii.eqb_eq in Hc. subst c.
    rewrite str_join_cons by apply str_split_nonempty.
    rewrite IH. reflexivity.
  - pose proof (str_split_nonempty "010" s) as Hne.
    destruct (str_split "010" s) as [|p ps]; [congruence|].
    destruct ps as [|q qs].
    + cbn in *. rewrite IH. reflexivity.
    + rewrite str_join_cons by discriminate.
      rewrite str_join_cons in IH by discriminate.
      cbn [String.append]. rewrite IH. reflexivity.
Qed.

Lemma split_append_line (p rest : string) :
  has_char "010" p = false ->
  str_split "010" (p ++ newline ++ rest) = p :: str_split "010" rest.
Proof.
  intro Hp. induction p as [|c p IH]; [reflexivity|].
  cbn in Hp. apply orb_false_iff in Hp. destruct Hp as [Hc Hp].
  cbn [String.append str_split]. rewrite Hc, (IH Hp). reflexivity.
Qed.

Lemma split_one_line (p : string) :
  has_char "010" p = false -> str_split "010" p = [p].
Proof.
  intro Hp. induction p as [|c p IH]; [reflexivity|].
  cbn in Hp. apply orb_false_iff in Hp. destruct Hp as [Hc Hp].
  cbn [str_split]. rewrite Hc, (IH Hp). reflexivity.
Qed.

Lemma split_join (lines : list string) :
  lines <> [] ->
  Forall (fun line => has_char "010" line = false) lines ->
  str_split "010" (str_join newline lines) = lines.
Proof.
  induction lines as [|p ps IH]; [congruence|]. intros _ Hall.
  apply Forall_cons_iff in Hall. destruct Hall as [Hp Hps].
  destruct ps as [|q qs].
  - cbn. apply split_one_line, Hp.
  - rewrite str_join_cons by discriminate.
    rewrite split_append_line by exact Hp.
    rewrite IH; [reflexivity|discriminate|exact Hps].
Qed.

(** ** The two patterns *)

Lemma re_abs_startswith (line : string) :
  re_match re_abs line = str_startswith "/" line || str_startswith "'/" line.
Proof.
  destruct line as [|a [|b r]]; cbn; try reflexivity.
  - destruct (Ascii.eqb a "/"), (Ascii.eqb a "'"); reflexivity.
  - destruct (Ascii.eqb a "/"), (Ascii.eqb a "'"), (Ascii.eqb b "/"); reflexivity.
Qed.

Lemma re_cd_abs_startswith (line : string) :
  re_match re_cd_abs line
  = str_startswith "cd /" line || str_startswith "cd '/" line.
Proof.
  destruct line as [|a [|b [|c [|d [|e r]]]]]; cbn;
    repeat match goal with
           | |- context [Ascii.eqb ?x ?y] => destruct (Ascii.eqb x y)
           end; reflexivity.
Qed.

Lemma mentions_root_re (line : string) :
  mentions_root line = re_match re_cd_abs line || re_match re_abs line.
Proof.
  unfold mentions_root. rewrite re_abs_startswith, re_cd_abs_startswith.
  rewrite orb_assoc. reflexivity.
Qed.

(** ** [find] and [rfind] *)

Lemma find_from_range (sub s : string) (i : Z) :
  find_from sub s i = -1
  \/ i <= find_from sub s i <= i + str_len s.
Proof.
  revert i. induction s as [|a s IH]; intro i; cbn [find_from].
  - destruct (str_startswith sub ""); [right; cbn; lia|left; reflexivity].
  - destruct (str_startswith sub (String a s)).
    + right. pose proof (str_len_nonneg (String a s)). lia.
    + destruct (IH (i + 1)) as [H|H]; [left; exact H|right].
      unfold str_len in *. cbn [String.length]. rewrite Nat2Z.inj_succ. lia.
Qed.

Lemma rfind_from_range (c : ascii) (s : string) (i stop last : Z) :
  rfind_from c s i stop last = last
  \/ i <= rfind_from c s i stop last < stop.
Proof.
  revert i last. induction s as [|a s IH]; intros i last; cbn [rfind_from].
  - left. reflexivity.
  - destruct (i <? stop) eqn:Hi; [|left; reflexivity].
    apply Z.ltb_lt in Hi.
    destruct (IH (i + 1) (if Ascii.eqb a c then i else last)) as [H|H].
    + rewrite H. destruct (Ascii.eqb a c); [right; lia|left; reflexivity].
    + right. lia.
Qed.

Lemma find_from_step (sub : string) (a : ascii) (s : string) (i : Z) :
  str_startswith sub (String a s) = false ->
  find_from sub (String a s) i = find_from sub s (i + 1).
Proof. intro H. cbn [find_from]. rewrite H. reflexivity. Qed.

Lemma rfind_from_step (c a : ascii) (s : string) (i stop last : Z) :
  i < stop ->
  rfind_from c (String a s) i stop last
  = rfind_from c s (i + 1) stop (if Ascii.eqb a c then i else last).
Proof.
  intro H. cbn [rfind_from].
  replace (i <? stop) with true by (symmetry; apply Z.ltb_lt; exact H).
  reflexivity.
Qed.

(** A character in front that is not the first of [sub] is stepped over. *)
Lemma find_from_skip (c : ascii) (sub a b : string) (i : Z) :
  has_char c a = false ->
  find_from (String c sub) (a ++ b) i
  = find_from (String c sub) b (i + str_len a).
Proof.
  revert i. induction a as [|x a IH]; intros i Ha.
  - cbn [String.append]. unfold str_len. cbn. rewrite Z.add_0_r. reflexivity.
  - cbn in Ha. apply orb_false_iff in Ha. destruct Ha as [Hx Ha].
    cbn [String.append find_from str_startswith].
    rewrite Hx. cbn [andb].
    rewrite (IH (i + 1) Ha). f_equal.
    unfold str_len. cbn [String.length]. rewrite Nat2Z.inj_succ. lia.
Qed.

(** What lies at or after [stop] is not looked at. *)
Lemma rfind_from_stop (c : ascii) (a b : string) (i last : Z) :
  rfind_from c (a ++ b) i (i + str_len a) last
  = rfind_from c a i (i + str_len a) last.
Proof.
  revert i last. induction a as [|x a IH]; intros i last.
  - cbn [String.append]. unfold str_len. cbn [String.length Z.of_nat].
    rewrite Z.add_0_r. destruct b; cbn [rfind_from]; [reflexivity|].
    rewrite Z.ltb_irrefl. reflexivity.
  - cbn [String.append rfind_from].
    assert (Hs : i + str_len (String x a) = (i + 1) + str_len a).
    { unfold str_len. cbn [String.length]. rewrite Nat2Z.inj_succ. lia. }
    rewrite Hs. destruct (i <? i + 1 + str_len a); [apply IH|reflexivity].
Qed.

Lemma rfind_from_none (c : ascii) (s : string) (i stop last : Z) :
  has_char c s = false -> rfind_from c s i stop last = last.
Proof.
  revert i. induction s as [|x s IH]; intros i H; [reflexivity|].
  cbn in H. apply orb_false_iff in H. destruct H as [Hx Hs].
  cbn [rfind_from]. rewrite Hx. destruct (i <? stop); [apply IH, Hs|reflexivity].
Qed.

(** The last [c] of a string all of which lies below [stop]. *)
Lemma rfind_from_last (c : ascii) (a b : string) (i stop last : Z) :
  has_char c b = false ->
  i + str_len (a ++ String c b) <= stop ->
  rfind_from c (a ++ String c b) i stop last = i + str_len a.
Proof.
  revert i last. induction a as [|x a IH]; intros i last Hb Hstop.
  - cbn [String.append rfind_from] in *.
    assert (Hl : 0 < str_len (String c b))
      by (unfold str_len; cbn [String.length]; lia).
    replace (i <? stop) with true by (symmetry; apply Z.ltb_lt; lia).
    rewrite Ascii.eqb_refl, rfind_from_none by exact Hb.
    unfold str_len. cbn. lia.
  - cbn [String.append rfind_from] in *.
    assert (Hl : str_len (String x (a ++ String c b))
                 = 1 + str_len (a ++ String c b))
      by (unfold str_len; cbn [String.length]; rewrite Nat2Z.inj_succ; lia).
    pose proof (str_len_nonneg (a ++ String c b)).
    replace (i <? stop) with true by (symmetry; apply Z.ltb_lt; lia).
    rewrite IH by (try exact Hb; lia).
    unfold str_len. cbn [String.length]. rewrite Nat2Z.inj_succ. lia.
Qed.

(** ** The loop body *)

(** The assertion of the loop body holds and [line[0]] exists: the body
    never raises. *)
Lemma portable_line_returns (line : string) :
  exists r, portable_line line = inr r.
Proof.
  unfold portable_line.
  destruct (re_match re_cd_abs line); [eexists; reflexivity|].
  destruct (re_match re_abs line) eqn:Habs; [|eexists; reflexivity].
  rewrite re_abs_startswith in Habs.
  destruct line as [|c0 rest]; [discriminate|].
  cbv zeta.
  match goal with
  | |- context [str_rfind ?l ?c ?stop =? -1] =>
      assert (Hl : 0 <= str_rfind l c stop)
  end.
  2:{ match goal with
      | |- context [?x =? -1] => destruct (x =? -1) eqn:Hx
      end; [apply Z.eqb_eq in Hx; lia|eexists; reflexivity]. }
  destruct (Ascii.eqb c0 "'") eqn:Hq.
  - (* quoted: the line is ['/...] *)
    apply Ascii.eqb_eq in Hq. subst c0.
    destruct rest as [|c1 rest]; [discriminate|].
    cbn in Habs. rewrite andb_true_r in Habs.
    apply Ascii.eqb_eq in Habs. subst c1.
    unfold str_find. change ("'" ++ " ")%string with "' ".
    rewrite !find_from_step by reflexivity.
    set (l := String "'" (String "/" rest)).
    assert (Hlen : 2 <= str_len l).
    { unfold l, str_len. cbn [String.length]. rewrite !Nat2Z.inj_succ. lia. }
    set (ind := if find_from "' " rest (0 + 1 + 1) =? -1 then str_len l
                else find_from "' " rest (0 + 1 + 1) + str_len "'").
    assert (Hind : 2 <= ind).
    { unfold ind. destruct (find_from_range "' " rest (0 + 1 + 1)) as [H|H].
      - rewrite H. exact Hlen.
      - destruct (find_from "' " rest (0 + 1 + 1) =? -1); [exact Hlen|].
        change (str_len "'") with 1. lia. }
    unfold str_rfind, l. rewrite !rfind_from_step by lia.
    change (Ascii.eqb "/" "/") with true. cbv iota.
    destruct (rfind_from_range "/" rest (0 + 1 + 1) ind (0 + 1)) as [H|H]; lia.
  - (* not quoted: the line is [/...] *)
    cbn in Habs. rewrite Hq in Habs.
    destruct (Ascii.eqb c0 "/") eqn:Hs; [|discriminate].
    apply Ascii.eqb_eq in Hs. subst c0.
    unfold str_find. change ("" ++ " ")%string with " ".
    rewrite !find_from_step by reflexivity.
    set (l := String "/" rest).
    assert (Hlen : 1 <= str_len l).
    { unfold l, str_len. cbn [String.length]. rewrite !Nat2Z.inj_succ. lia. }
    set (ind := if find_from " " rest (0 + 1) =? -1 then str_len l
                else find_from " " rest (0 + 1) + str_len "").
    assert (Hind : 1 <= ind).
    { unfold ind. destruct (find_from_range " " rest (0 + 1)) as [H|H].
      - rewrite H. exact Hlen.
      - destruct (find_from " " rest (0 + 1) =? -1); [exact Hlen|].
        change (str_len "") with 0. lia. }
    unfold str_rfind, l. rewrite !rfind_from_step by lia.
    change (Ascii.eqb "/" "/") with true. cbv iota.
    destruct (rfind_from_range "/" rest (0 + 1) ind 0) as [H|H]; lia.
Qed.

(** What the loop body does with a line: it drops it, keeps it as it
    is, or puts a call of [which] in front. *)
Lemma portable_line_cases (line : string) :
  (portable_line line = inr None /\ mentions_root line = true)
  \/ (portable_line line = inr (Some line) /\ mentions_root line = false)
  \/ (exists line',
        portable_line line = inr (Some line')
        /\ mentions_root line = true
        /\ mentions_root line' = false
        /\ (has_char "010" line = false -> has_char "010" line' = false)).
Proof.
  destruct (portable_line_returns line) as [r Hr].
  rewrite mentions_root_re.
  unfold portable_line in *.
  destruct (re_match re_cd_abs line).
  { left. split; [reflexivity|reflexivity]. }
  destruct (re_match re_abs line).
  2:{ right. left. split; reflexivity. }
  right. right.
  destruct line as [|c0 rest]; [discriminate|].
  cbv zeta in *.
  match type of Hr with
  | (if ?b then _ else _) = _ => destruct b; [discriminate|]
  end.
  eexists. split; [reflexivity|]. split; [reflexivity|].
  split; [reflexivity|].
  intro Hnl.
  rewrite !has_char_append.
  unfold str_slice, str_slice_from.
  rewrite has_char_take by (apply has_char_drop; exact Hnl).
  rewrite has_char_drop by exact Hnl.
  destruct (Ascii.eqb c0 "'"); reflexivity.
Qed.

Lemma portable_lines_acc (todo lines : list string) :
  portable_lines todo lines
  = match portable_lines todo [] with
    | inl e => inl e
    | inr more => inr (lines ++ more)
    end.
Proof.
  revert lines. induction todo as [|line rest IH]; intro lines; cbn [portable_lines].
  - rewrite app_nil_r. reflexivity.
  - destruct (portable_line line) as [e|[line'|]]; [reflexivity| |apply IH].
    rewrite (IH (lines ++ [line'])), (IH ([] ++ [line'])).
    destruct (portable_lines rest []); [reflexivity|].
    rewrite <- app_assoc. reflexivity.
Qed.

Lemma portable_lines_returns (todo lines : list string) :
  exists out, portable_lines todo lines = inr out.
Proof.
  revert lines. induction todo as [|line rest IH]; intro lines; cbn [portable_lines].
  - eexists. reflexivity.
  - destruct (portable_line_returns line) as [[line'|] ->]; apply IH.
Qed.

(** Lines that do not mention the root all come through. *)
Lemma portable_lines_keep (todo : list string) :
  Forall (fun line => mentions_root line = false) todo ->
  portable_lines todo [] = inr todo.
Proof.
  induction todo as [|line rest IH]; intro H; [reflexivity|].
  apply Forall_cons_iff in H. destruct H as [Hl Hrest].
  cbn [portable_lines].
  destruct (portable_line_cases line) as [[_ Hm]|[[-> _]|(l' & _ & Hm & _)]];
    try congruence.
  rewrite portable_lines_acc, (IH Hrest). reflexivity.
Qed.

(** What the loop leaves: lines that do not mention the root and, for
    input lines without a line break, have none either. *)
Lemma portable_lines_clean (todo out : list string) :
  Forall (fun line => has_char "010" line = false) todo ->
  portable_lines todo [] = inr out ->
  Forall (fun line => mentions_root line = false
                      /\ has_char "010" line = false) out.
Proof.
  revert out. induction todo as [|line rest IH]; intros out Hnl H.
  - injection H as <-. constructor.
  - apply Forall_cons_iff in Hnl. destruct Hnl as [Hl Hrest].
    cbn [portable_lines] in H.
    destruct (portable_line_cases line)
      as [[Hp _]|[[Hp Hm]|(l' & Hp & _ & Hm & Hk)]]; rewrite Hp in H.
    + apply IH; assumption.
    + rewrite portable_lines_acc in H.
      destruct (portable_lines rest []) as [e|more] eqn:Hmore; [discriminate|].
      injection H as <-. constructor; [split; assumption|].
      apply IH; [assumption|reflexivity].
    + rewrite portable_lines_acc in H.
      destruct (portable_lines rest []) as [e|more] eqn:Hmore; [discriminate|].
      injection H as <-. constructor; [split; [exact Hm|apply Hk, Hl]|].
      apply IH; [assumption|reflexivity].
Qed.

(** The lines of the result, as [split] finds them again. *)
Lemma script_lines (source : string) :
  exists lines,
    _make_script_portable source = inr (str_join newline lines)
    /\ Forall (fun line => mentions_root line = false) lines
    /\ str_split "010" (str_join newline lines)
       = match lines with [] => [""] | _ :: _ => lines end.
Proof.
  unfold _make_script_portable.
  destruct (portable_lines_returns (str_split "010" source) []) as [lines H].
  rewrite H. exists lines. split; [reflexivity|].
  apply portable_lines_clean in H; [|apply str_split_no_sep].
  split; [eapply Forall_impl; [|exact H]; cbn; intros a Ha; apply Ha|].
  destruct lines as [|l ls]; [reflexivity|].
  apply split_join; [discriminate|].
  eapply Forall_impl; [|exact H]. cbn. intros a Ha. apply Ha.
Qed.

(** X14.  [_make_script_portable] never raises: on every line that
    starts with [/] or ['/] the index [line[0]] exists and the assertion
    [lastind != -1] holds, whatever follows on the line. *)
Theorem make_script_portable_never_raises (source : string) :
  exists out, _make_script_portable source = inr out.
Proof.
  unfold _make_script_portable.
  destruct (portable_lines_returns (str_split "010" source) []) as [lines ->].
  eexists. reflexivity.
Qed.

(** X15.  No line of the script that [_make_script_portable] returns
    starts with [cd /], [cd '/], [/] or ['/], and the function changes
    nothing when it is applied to its own result. *)
Theorem make_script_portable_idempotent (source : string) :
  match _make_script_portable source with
  | inr out =>
      Forall (fun line => mentions_root line = false) (str_split "010" out)
      /\ _make_script_portable out = inr out
  | inl _ => True
  end.
Proof.
  unfold _make_script_portable at 1.
  destruct (portable_lines (str_split "010" source) []) as [e|lines] eqn:H;
    [exact I|].
  apply portable_lines_clean in H; [|apply str_split_no_sep].
  destruct lines as [|l ls].
  - split; [repeat constructor|reflexivity].
  - assert (Hsplit : str_split "010" (str_join newline (l :: ls)) = l :: ls).
    { apply split_join; [discriminate|].
      eapply Forall_impl; [|exact H]. cbn. intros a Ha. apply Ha. }
    assert (Hroot : Forall (fun line => mentions_root line = false) (l :: ls)).
    { eapply Forall_impl; [|exact H]. cbn. intros a Ha. apply Ha. }
    rewrite Hsplit. split; [exact Hroot|].
    unfold _make_script_portable. rewrite Hsplit.
    rewrite (portable_lines_keep _ Hroot). reflexivity.
Qed.

(** X16.  A script none of whose lines starts with [cd /], [cd '/],
    [/] or ['/] is returned as it is, byte for byte. *)
Theorem make_script_portable_keeps_relative (source : string) :
  Forall (fun line => mentions_root line = false) (str_split "010" source) ->
  _make_script_portable source = inr source.
Proof.
  intro H. unfold _make_script_portable.
  rewrite (portable_lines_keep _ H), join_split. reflexivity.
Qed.

(** ** The rewriting of a command line *)

Lemma str_length_len (a : string) : Z.to_nat (str_len a) = String.length a.
Proof. unfold str_len. apply Nat2Z.id. Qed.

Lemma str_len_cons (c : ascii) (s : string) :
  str_len (String c s) = 1 + str_len s.
Proof. unfold str_len. cbn [String.length]. rewrite Nat2Z.inj_succ. lia. Qed.

Lemma str_len_nil : str_len "" = 0.
Proof. reflexivity. Qed.

(** Lengths of concatenations, by arithmetic. *)
Ltac str_len_tac :=
  repeat first [rewrite str_len_append | rewrite str_len_cons
               | rewrite str_len_nil];
  lia.

(** The three parts of a line [pre/name post] cut at [ind], the end of
    [name]. *)
Lemma slice_parts (pre name post : string) :
  has_char "/" name = false ->
  let line := (pre ++ String "/" name ++ post)%string in
  let ind := str_len (pre ++ String "/" name) in
  str_rfind line "/" ind = str_len pre
  /\ str_slice line (str_len pre + 1) ind = name
  /\ str_slice_from line ind = post.
Proof.
  intros Hname line ind.
  assert (Hline : line = ((pre ++ String "/" name) ++ post)%string).
  { unfold line. rewrite str_append_assoc. reflexivity. }
  split; [|split].
  - unfold str_rfind. rewrite Hline.
    change ind with (0 + str_len (pre ++ String "/" name)).
    rewrite rfind_from_stop, rfind_from_last; [reflexivity|exact Hname|lia].
  - unfold str_slice.
    assert (Hcut : line = ((pre ++ "/") ++ name ++ post)%string).
    { unfold line. rewrite !str_append_assoc. reflexivity. }
    assert (Hd : Z.to_nat (str_len pre + 1) = String.length (pre ++ "/")).
    { rewrite <- str_length_len, str_len_append. reflexivity. }
    assert (Ht : Z.to_nat (ind - (str_len pre + 1)) = String.length name).
    { rewrite <- str_length_len. f_equal. unfold ind.
      rewrite str_len_append. unfold str_len at 2. cbn [String.length].
      rewrite Nat2Z.inj_succ. unfold str_len. lia. }
    rewrite Hd, Ht, Hcut, str_drop_append, str_take_append. reflexivity.
  - unfold str_slice_from, ind.
    rewrite str_length_len, Hline, str_drop_append. reflexivity.
Qed.

(** X17.  What the rewriting does to a command line.  A line that
    calls a program by an absolute path, [top/name] followed by nothing
    or by a space and arguments, becomes [$(which name)] with the same
    arguments: the directory is dropped and nothing else changes.  The
    same holds for a path in single quotes, which may contain spaces,
    and the quotes are kept around the name. *)
Theorem portable_line_rewrites_command (quoted : bool) (top name rest : string) :
  let quote := if quoted then "'" else "" in
  let closing := (if quoted then "'" else " ")%char in
  str_startswith "/" (top ++ "/") = true ->
  has_char "/" name = false ->
  has_char closing top = false ->
  has_char closing name = false ->
  rest = "" \/ str_startswith " " rest = true ->
  portable_line (quote ++ top ++ "/" ++ name ++ quote ++ rest)
  = inr (Some ("$(which " ++ quote ++ name ++ quote ++ ")" ++ rest)%string).
Proof.
  intros quote closing Htop Hname Hctop Hcname Hrest.
  (* the path starts with a slash *)
  assert (Hhead : exists tail, forall x : string,
             (top ++ "/" ++ x)%string = String "/" (tail ++ x)).
  { destruct top as [|t0 top'].
    - exists "". reflexivity.
    - cbn in Htop. rewrite andb_true_r in Htop.
      apply Ascii.eqb_eq in Htop. subst t0.
      exists (top' ++ "/")%string. intro x. cbn.
      rewrite str_append_assoc. reflexivity. }
  destruct Hhead as [tail Hhead].
  set (pre := (quote ++ top)%string).
  set (name' := (name ++ quote)%string).
  assert (Hline : (quote ++ top ++ "/" ++ name ++ quote ++ rest)%string
                  = (pre ++ String "/" name' ++ rest)%string).
  { unfold pre, name'. rewrite str_append_assoc.
    change ("/" ++ name ++ quote ++ rest)%string
      with (String "/" (name ++ quote ++ rest)).
    change (String "/" (name ++ quote) ++ rest)%string
      with (String "/" ((name ++ quote) ++ rest)).
    rewrite str_append_assoc. reflexivity. }
  assert (Hname' : has_char "/" name' = false).
  { unfold name'. rewrite has_char_append, Hname. unfold quote.
    destruct quoted; reflexivity. }
  destruct (slice_parts pre name' rest Hname') as (Hrfind & Hslice & Hfrom).
  cbv zeta in Hrfind, Hslice, Hfrom.
  (* where the path ends *)
  assert (Hind : (if str_find (pre ++ String "/" name' ++ rest) (quote ++ " ") =? -1
                  then str_len (pre ++ String "/" name' ++ rest)
                  else str_find (pre ++ String "/" name' ++ rest) (quote ++ " ")
                       + str_len quote)
                 = str_len (pre ++ String "/" name')).
  { rewrite <- Hline. unfold str_find, pre, name', quote, closing in *.
    destruct quoted.
    - change ("'" ++ " ")%string with "' ".
      change ("'" ++ top ++ "/" ++ name ++ "'" ++ rest)%string
        with (String "'" (top ++ "/" ++ name ++ String "'" rest)).
      rewrite Hhead.
      rewrite find_from_step by reflexivity.
      rewrite <- Hhead.
      replace (top ++ "/" ++ name ++ String "'" rest)%string
        with ((top ++ "/" ++ name) ++ String "'" rest)%string
        by (rewrite !str_append_assoc; reflexivity).
      rewrite find_from_skip
        by (rewrite !has_char_append, Hctop, Hcname; reflexivity).
      assert (Hl : str_len (("'" ++ top) ++ String "/" (name ++ "'"))
                   = 0 + 1 + str_len (top ++ "/" ++ name) + 1)
        by str_len_tac.
      pose proof (str_len_nonneg (top ++ "/" ++ name)) as Hpos.
      destruct Hrest as [->|Hsp].
      + rewrite find_from_step by reflexivity. cbn [find_from str_startswith].
        rewrite Z.eqb_refl, Hl. str_len_tac.
      + destruct rest as [|r0 rest']; [discriminate|].
        cbn in Hsp. rewrite andb_true_r in Hsp.
        apply Ascii.eqb_eq in Hsp. subst r0.
        cbn [find_from str_startswith].
        change (Ascii.eqb "'" "'") with true.
        change (Ascii.eqb " " " ") with true. cbn [andb].
        replace (0 + 1 + str_len (top ++ "/" ++ name) =? -1) with false
          by (symmetry; apply Z.eqb_neq; lia).
        rewrite Hl. change (str_len "'") with 1. lia.
    - change ("" ++ " ")%string with " ".
      change ("" ++ top ++ "/" ++ name ++ "" ++ rest)%string
        with (top ++ "/" ++ name ++ rest)%string.
      replace (top ++ "/" ++ name ++ rest)%string
        with ((top ++ "/" ++ name) ++ rest)%string
        by (rewrite !str_append_assoc; reflexivity).
      rewrite find_from_skip
        by (rewrite !has_char_append, Hctop, Hcname; reflexivity).
      assert (Hl : str_len (("" ++ top) ++ String "/" (name ++ ""))
                   = 0 + str_len (top ++ "/" ++ name))
        by str_len_tac.
      pose proof (str_len_nonneg (top ++ "/" ++ name)) as Hpos.
      destruct Hrest as [->|Hsp].
      + cbn [find_from str_startswith]. rewrite Z.eqb_refl, Hl. str_len_tac.
      + destruct rest as [|r0 rest']; [discriminate|].
        cbn in Hsp. rewrite andb_true_r in Hsp.
        apply Ascii.eqb_eq in Hsp. subst r0.
        cbn [find_from str_startswith].
        change (Ascii.eqb " " " ") with true. cbn [andb].
        replace (0 + str_len (top ++ "/" ++ name) =? -1) with false
          by (symmetry; apply Z.eqb_neq; lia).
        rewrite Hl. change (str_len "") with 0. lia. }
  (* the line matches the second pattern only, and its first character
     decides the quote *)
  assert (Hshape : exists c0 r,
             (pre ++ String "/" name' ++ rest)%string = String c0 r
             /\ (if Ascii.eqb c0 "'" then "'" else "") = quote
             /\ re_match re_cd_abs (String c0 r) = false
             /\ re_match re_abs (String c0 r) = true).
  { rewrite <- Hline. unfold quote. destruct quoted.
    - exists "'"%char, (top ++ "/" ++ name ++ "'" ++ rest)%string.
      split; [reflexivity|]. split; [reflexivity|]. split; [reflexivity|].
      rewrite Hhead. reflexivity.
    - change ("" ++ top ++ "/" ++ name ++ "" ++ rest)%string
        with (top ++ "/" ++ name ++ "" ++ rest)%string.
      rewrite Hhead. eexists _, _. split; [reflexivity|].
      split; [reflexivity|]. split; reflexivity. }
  destruct Hshape as (c0 & r & Hc0 & Hquote & Hcd & Habs).
  rewrite Hline. unfold portable_line.
  rewrite Hc0, Hcd, Habs, Hquote, <- Hc0. cbv zeta.
  rewrite Hind, Hrfind.
  pose proof (str_len_nonneg pre) as Hpos.
  replace (str_len pre =? -1) with false by (symmetry; apply Z.eqb_neq; lia).
  rewrite Hslice, Hfrom. unfold name'.
  rewrite !str_append_assoc. reflexivity.
Qed.

Lemma make_script_portable_keeps_relative_witness :
  Forall (fun line => mentions_root line = false)
    (str_split "010" Demo.relative_script)
  /\ _make_script_portable Demo.relative_script = inr Demo.relative_script.
Proof.
  assert (H : Forall (fun line => mentions_root line = false)
                (str_split "010" Demo.relative_script))
    by (vm_compute; repeat constructor).
  split; [exact H|].
  exact (make_script_portable_keeps_relative Demo.relative_script H).
Defined.

Lemma portable_line_rewrites_command_witness :
  portable_line ("'" ++ Demo.tools_dir ++ "/" ++ "cc" ++ "'" ++ " -o a.o")
  = inr (Some ("$(which " ++ "'" ++ "cc" ++ "'" ++ ")" ++ " -o a.o")%string).
Proof.
  exact (portable_line_rewrites_command true Demo.tools_dir "cc" " -o a.o"
           eq_refl eq_refl eq_refl eq_refl (or_intror eq_refl)).
Defined.

(* ================================================================== *)
(** * Further properties: descriptors and the start of the client *)
(* ================================================================== *)

Section Portable.

Variable V : Surroundings.

(** X18.  [PortablePermuter(permuter)] copies the descriptor's fields,
    compresses its source, reads the target object as it is, and stores
    the compile script only after [_make_script_portable]: no line of
    the stored script starts with [cd /], [cd '/], [/] or ['/].  It
    raises only what opening or reading one of the two files raises, the
    target object first; the rewriting of the script never fails. *)
Theorem portable_permuter_init_spec (permuter : Permuter) :
  match PortablePermuter_init V permuter with
  | inr portable =>
      fn_name portable = permuter_fn_name permuter
      /\ filename portable = source_file permuter
      /\ keep_prob portable = permuter_keep_prob permuter
      /\ stack_differences portable = scorer_stack_differences permuter
      /\ compressed_source portable
         = zlib_compress V (encode_utf8 V (permuter_source permuter))
      /\ base_score portable = permuter_base_score permuter
      /\ base_hash portable = permuter_base_hash permuter
      /\ read_binary V (scorer_target_o permuter) = inr (target_o_bin portable)
      /\ (exists text,
            read_text V (compiler_compile_cmd permuter) = inr text
            /\ _make_script_portable text = inr (compile_script portable))
      /\ Forall (fun line => mentions_root line = false)
           (str_split "010" (compile_script portable))
  | inl e =>
      read_binary V (scorer_target_o permuter) = inl e
      \/ (exists target,
            read_binary V (scorer_target_o permuter) = inr target
            /\ read_text V (compiler_compile_cmd permuter) = inl e)
  end.
Proof.
  unfold PortablePermuter_init.
  destruct (read_binary V (scorer_target_o permuter)) as [e|target];
    [left; reflexivity|].
  destruct (read_text V (compiler_compile_cmd permuter)) as [e|text].
  { right. exists target. split; reflexivity. }
  destruct (script_lines text) as (lines & Hs & Hroot & Hsplit).
  rewrite Hs. cbn.
  repeat (split; [reflexivity|]).
  split; [exists text; split; [reflexivity|exact Hs]|].
  rewrite Hsplit. destruct lines; [repeat constructor|exact Hroot].
Qed.

Lemma portable_init_raises (permuter : Permuter) (e : exn) :
  PortablePermuter_init V permuter = inl e ->
  read_binary V (scorer_target_o permuter) = inl e
  \/ read_text V (compiler_compile_cmd permuter) = inl e.
Proof.
  unfold PortablePermuter_init.
  destruct (read_binary V (scorer_target_o permuter)) as [e1|target];
    [intro H; injection H as ->; left; reflexivity|].
  destruct (read_text V (compiler_compile_cmd permuter)) as [e2|text];
    [intro H; injection H as ->; right; reflexivity|].
  destruct (script_lines text) as (lines & -> & _). discriminate.
Qed.

Lemma portable_all_inv (permuters : list Permuter) :
  match portable_all V permuters with
  | inr portables => List.length portables = List.length permuters
  | inl e => exists p, In p permuters /\ PortablePermuter_init V p = inl e
  end.
Proof.
  induction permuters as [|p rest IH]; cbn [portable_all]; [reflexivity|].
  destruct (PortablePermuter_init V p) as [e|portable] eqn:Hp.
  { exists p. split; [left; reflexivity|exact Hp]. }
  destruct (portable_all V rest) as [e|portables].
  - destruct IH as (q & Hq & He). exists q. split; [right; exact Hq|exact He].
  - cbn. rewrite IH. reflexivity.
Qed.

(** X19.  [start_client] starts no thread and makes no connection: its
    list of servers is empty, so a call that returns has printed the
    one line "No permuter@home servers online." and returns the empty
    list.  The descriptors are built before anything is printed: if a
    file of one of them cannot be read, the call raises that error and
    has printed nothing. *)
Theorem start_client_starts_no_thread (config : Config)
  (permuters : list Permuter) (priority : spec_float) (w : process) :
  match start_client V config permuters priority w with
  | (Ret threads, w') =>
      threads = []
      /\ threads_started w' = threads_started w
      /\ stdout w' = stdout w ++ ["No permuter@home servers online."]
      /\ exists portables,
           portable_all V permuters = inr portables
           /\ List.length portables = List.length permuters
  | (Raise e, w') =>
      w' = w
      /\ exists p,
           In p permuters
           /\ (read_binary V (scorer_target_o p) = inl e
               \/ read_text V (compiler_compile_cmd p) = inl e)
  | _ => False
  end.
Proof.
  unfold start_client. cbv zeta. unfold bind at 1.
  pose proof (portable_all_inv permuters) as Hall.
  destruct (portable_all V permuters) as [e|portables]; cbn.
  - split; [reflexivity|]. destruct Hall as (p & Hin & Hp).
    exists p. split; [exact Hin|]. apply portable_init_raises, Hp.
  - repeat (split; [reflexivity|]). exists portables. split; [reflexivity|exact Hall].
Qed.

End Portable.

(* ================================================================== *)
(** * Further properties: the configuration file *)
(* ================================================================== *)

Section ConfigFile.

Variable L : ConfigLib.

Lemma truthy_read (obj : list (string * pyobj)) (key : string) :
  truthy (read obj key t_str) = true ->
  exists temp,
    dict_get obj key = PyStr temp /\ temp <> ""
    /\ text_of (read obj key t_str) = temp.
Proof.
  unfold read, truthy, text_of.
  destruct (dict_get obj key) as [| | | |text| |]; cbn; try discriminate.
  intro H. exists text. split; [reflexivity|]. split; [|reflexivity].
  intros ->. discriminate.
Qed.

Lemma read_config_body_inv (file : exn + string) (o : outcome unit)
  (config : RawConfig.t) :
  read_config_body L file RawConfig.empty = (o, config) ->
  (o = Ret tt \/ exists e, o = Raise e)
  /\ (forall e, file = inl e -> config = RawConfig.empty)
  /\ (forall key, RawConfig.auth_verify_key config = Some key ->
        key_read_from L file "auth_public_key" (VerifyKey_new L) key)
  /\ (forall key, RawConfig.signing_key config = Some key ->
        key_read_from L file "secret_key" (SigningKey_new L) key).
Proof.
  unfold read_config_body, key_read_from.
  destruct file as [e0|text].
  { intro H. injection H as <- <-.
    split; [right; eexists; reflexivity|]. split; [reflexivity|].
    split; intros key Hk; discriminate. }
  unfold bind at 1. cbn [lift_sum ret].
  destruct (toml_load L text) as [e1|obj] eqn:Hobj.
  { intro H. injection H as <- <-.
    split; [right; eexists; reflexivity|]. split; [discriminate|].
    split; intros key Hk; discriminate. }
  unfold bind at 1. cbn [lift_sum ret]. cbv zeta.
  intro H.
  (* the verification key *)
  assert (H1 : exists o1 c1,
             (if truthy (read obj "auth_public_key" t_str) then
                raw <- lift_sum (HexEncoder_decode L
                                   (text_of (read obj "auth_public_key" t_str))) ;;
                key <- lift_sum (VerifyKey_new L raw) ;;
                modify (fun config =>
                          RawConfig.mk (RawConfig.auth_server config) (Some key)
                            (RawConfig.signing_key config)
                            (RawConfig.initial_setup_nickname config))
              else ret tt) RawConfig.empty = (o1, c1)
             /\ (o1 = Ret tt \/ exists e, o1 = Raise e)
             /\ RawConfig.signing_key c1 = None
             /\ (forall key, RawConfig.auth_verify_key c1 = Some key ->
                   exists temp raw,
                     dict_get obj "auth_public_key" = PyStr temp /\ temp <> ""
                     /\ HexEncoder_decode L temp = inr raw
                     /\ VerifyKey_new L raw = inr key)).
  { destruct (truthy (read obj "auth_public_key" t_str)) eqn:Ht.
    2:{ eexists _, _. split; [reflexivity|]. split; [left; reflexivity|].
        split; [reflexivity|]. intros key Hk. discriminate. }
    destruct (truthy_read _ _ Ht) as (temp & Hget & Hne & ->).
    unfold bind, lift_sum, modify, ret, raise.
    destruct (HexEncoder_decode L temp) as [e|raw] eqn:Hraw.
    { eexists _, _. split; [reflexivity|]. split; [right; eexists; reflexivity|].
      split; [reflexivity|]. intros key Hk. discriminate. }
    destruct (VerifyKey_new L raw) as [e|vk] eqn:Hvk.
    { eexists _, _. split; [reflexivity|]. split; [right; eexists; reflexivity|].
      split; [reflexivity|]. intros key Hk. discriminate. }
    eexists _, _. split; [reflexivity|]. split; [left; reflexivity|].
    split; [reflexivity|]. intros key Hk. injection Hk as <-.
    exists temp, raw.
    repeat (split; [first [reflexivity|assumption]|]). assumption. }
  destruct H1 as (o1 & c1 & Hrun1 & Ho1 & Hsk1 & Hvk1).
  unfold bind at 1 in H. rewrite Hrun1 in H.
  assert (Hvk : forall c, RawConfig.auth_verify_key c = RawConfig.auth_verify_key c1 ->
                forall key, RawConfig.auth_verify_key c = Some key ->
                exists text0 obj0 temp raw,
                  @inr exn string text = inr text0
                  /\ toml_load L text0 = inr obj0
                  /\ dict_get obj0 "auth_public_key" = PyStr temp /\ temp <> ""
                  /\ HexEncoder_decode L temp = inr raw
                  /\ VerifyKey_new L raw = inr key).
  { intros c Hc key Hk. rewrite Hc in Hk.
    destruct (Hvk1 key Hk) as (temp & raw & Hg & Hn & Hr & Hv).
    exists text, obj, temp, raw.
    repeat (split; [first [reflexivity|assumption]|]). assumption. }
  destruct Ho1 as [->|[e ->]].
  2:{ injection H as <- <-. split; [right; eexists; reflexivity|].
      split; [discriminate|]. split; [apply Hvk; reflexivity|].
      intros key Hk. rewrite Hsk1 in Hk. discriminate. }
  (* the signing key *)
  assert (H2 : exists o2 c2,
             (if truthy (read obj "secret_key" t_str) then
                raw <- lift_sum (HexEncoder_decode L
                                   (text_of (read obj "secret_key" t_str))) ;;
                key <- lift_sum (SigningKey_new L raw) ;;
                modify (fun config =>
                          RawConfig.mk (RawConfig.auth_server config)
                            (RawConfig.auth_verify_key config) (Some key)
                            (RawConfig.initial_setup_nickname config))
              else ret tt) c1 = (o2, c2)
             /\ (o2 = Ret tt \/ exists e, o2 = Raise e)
             /\ RawConfig.auth_verify_key c2 = RawConfig.auth_verify_key c1
             /\ (forall key, RawConfig.signing_key c2 = Some key ->
                   exists temp raw,
                     dict_get obj "secret_key" = PyStr temp /\ temp <> ""
                     /\ HexEncoder_decode L temp = inr raw
                     /\ SigningKey_new L raw = inr key)).
  { destruct (truthy (read obj "secret_key" t_str)) eqn:Ht.
    2:{ eexists _, _. split; [reflexivity|]. split; [left; reflexivity|].
        split; [reflexivity|]. intros key Hk. rewrite Hsk1 in Hk. discriminate. }
    destruct (truthy_read _ _ Ht) as (temp & Hget & Hne & ->).
    unfold bind, lift_sum, modify, ret, raise.
    destruct (HexEncoder_decode L temp) as [e|raw] eqn:Hraw.
    { eexists _, _. split; [reflexivity|]. split; [right; eexists; reflexivity|].
      split; [reflexivity|]. intros key Hk. rewrite Hsk1 in Hk. discriminate. }
    destruct (SigningKey_new L raw) as [e|sk] eqn:Hsk.
    { eexists _, _. split; [reflexivity|]. split; [right; eexists; reflexivity|].
      split; [reflexivity|]. intros key Hk. rewrite Hsk1 in Hk. discriminate. }
    eexists _, _. split; [reflexivity|]. split; [left; reflexivity|].
    split; [reflexivity|]. intros key Hk. injection Hk as <-.
    exists temp, raw.
    repeat (split; [first [reflexivity|assumption]|]). assumption. }
  destruct H2 as (o2 & c2 & Hrun2 & Ho2 & Hvk2 & Hsk2).
  unfold bind at 1 in H. rewrite Hrun2 in H.
  assert (Hsk : forall c, RawConfig.signing_key c = RawConfig.signing_key c2 ->
                forall key, RawConfig.signing_key c = Some key ->
                exists text0 obj0 temp raw,
                  @inr exn string text = inr text0
                  /\ toml_load L text0 = inr obj0
                  /\ dict_get obj0 "secret_key" = PyStr temp /\ temp <> ""
                  /\ HexEncoder_decode L temp = inr raw
                  /\ SigningKey_new L raw = inr key).
  { intros c Hc key Hk. rewrite Hc in Hk.
    destruct (Hsk2 key Hk) as (temp & raw & Hg & Hn & Hr & Hv).
    exists text, obj, temp, raw.
    repeat (split; [first [reflexivity|assumption]|]). assumption. }
  destruct Ho2 as [->|[e ->]].
  2:{ injection H as <- <-. split; [right; eexists; reflexivity|].
      split; [discriminate|].
      split; [apply Hvk; exact Hvk2|apply Hsk; reflexivity]. }
  unfold bind, modify in H. injection H as <- <-.
  split; [left; reflexivity|]. split; [discriminate|].
  split; [apply Hvk; exact Hvk2|apply Hsk; reflexivity].
Qed.

(** One key of the file, as the [try] block reads it. *)
Lemma key_stage {K : Type} (new : bytes -> exn + K)
  (set : K -> RawConfig.t -> RawConfig.t) (obj : list (string * pyobj))
  (name : string) (config : RawConfig.t) :
  (let temp := read obj name t_str in
   if truthy temp then
     raw <- lift_sum (HexEncoder_decode L (text_of temp)) ;;
     key <- lift_sum (new raw) ;;
     modify (set key)
   else ret tt) config
  = match key_entry L new obj name with
    | inl e => (Raise e, config)
    | inr None => (Ret tt, config)
    | inr (Some key) => (Ret tt, set key config)
    end.
Proof.
  cbv zeta. unfold read, truthy, text_of, key_entry.
  destruct (dict_get obj name) as [| | | |temp| |]; cbn [isinstance]; try reflexivity.
  cbn [str_value]. destruct (String.eqb temp ""); cbn [negb]; [reflexivity|].
  unfold bind, lift_sum, modify, raise, ret.
  destruct (HexEncoder_decode L temp) as [e|raw]; [reflexivity|].
  destruct (new raw) as [e|key]; reflexivity.
Qed.

(** X20.  [read_config] is determined by the file.  It returns the
    empty configuration, and prints nothing, when the file does not
    exist.  Any other exception, from opening the file, from the TOML
    parser, from the hex decoder or from a key constructor, is raised
    again after the one line "Malformed configuration file pah.conf." is
    printed; the keys are read in the order [auth_public_key],
    [secret_key], and an entry that is absent, not a string or empty is
    skipped.  When nothing raises, the configuration returned holds the
    two keys so read and the strings [initial_setup_nickname] and
    [auth_server] of the file, and nothing is printed.  In every case a
    key in a configuration that is returned was decoded from a non-empty
    string of the file and accepted by the key's constructor, and the
    file is never changed. *)
Theorem read_config_returns_or_reports (d : disk) :
  match read_config L d with
  | (Ret config, d') =>
      d' = d
      /\ (forall e, pah_conf d = inl e -> config = RawConfig.empty)
      /\ (forall key, RawConfig.auth_verify_key config = Some key ->
            key_read_from L (pah_conf d) "auth_public_key" (VerifyKey_new L) key)
      /\ (forall key, RawConfig.signing_key config = Some key ->
            key_read_from L (pah_conf d) "secret_key" (SigningKey_new L) key)
  | (Raise e, d') =>
      is_FileNotFoundError e = false
      /\ pah_conf d' = pah_conf d
      /\ write_error d' = write_error d
      /\ printed d' = printed d ++ [malformed]
  | _ => False
  end
  /\ (forall e, pah_conf d = inl e ->
        read_config L d
        = if is_FileNotFoundError e then (Ret RawConfig.empty, d)
          else (Raise e, reported d))
  /\ (forall text e,
        pah_conf d = inr text -> toml_load L text = inl e ->
        is_FileNotFoundError e = false ->
        read_config L d = (Raise e, reported d))
  /\ (forall text obj e,
        pah_conf d = inr text -> toml_load L text = inr obj ->
        key_entry L (VerifyKey_new L) obj "auth_public_key" = inl e ->
        is_FileNotFoundError e = false ->
        read_config L d = (Raise e, reported d))
  /\ (forall text obj vk e,
        pah_conf d = inr text -> toml_load L text = inr obj ->
        key_entry L (VerifyKey_new L) obj "auth_public_key" = inr vk ->
        key_entry L (SigningKey_new L) obj "secret_key" = inl e ->
        is_FileNotFoundError e = false ->
        read_config L d = (Raise e, reported d))
  /\ (forall text obj vk sk,
        pah_conf d = inr text -> toml_load L text = inr obj ->
        key_entry L (VerifyKey_new L) obj "auth_public_key" = inr vk ->
        key_entry L (SigningKey_new L) obj "secret_key" = inr sk ->
        read_config L d
        = (Ret (RawConfig.mk
                  (option_map str_value (read obj "auth_server" t_str))
                  vk sk
                  (option_map str_value (read obj "initial_setup_nickname" t_str))),
           d)).
Proof.
  split.
  { unfold read_config.
    destruct (read_config_body L (pah_conf d) RawConfig.empty) as [o config] eqn:H.
    apply read_config_body_inv in H. destruct H as (Ho & Hempty & Hvk & Hsk).
    destruct Ho as [->|[e ->]].
    - split; [reflexivity|]. auto.
    - destruct (is_FileNotFoundError e) eqn:He.
      + split; [reflexivity|]. auto.
      + cbn. auto. }
  assert (Hbody : forall text obj,
            pah_conf d = inr text -> toml_load L text = inr obj ->
            read_config_body L (pah_conf d) RawConfig.empty
            = match key_entry L (VerifyKey_new L) obj "auth_public_key" with
              | inl e => (Raise e, RawConfig.empty)
              | inr vk =>
                  match key_entry L (SigningKey_new L) obj "secret_key" with
                  | inl e => (Raise e, RawConfig.mk None vk None None)
                  | inr sk =>
                      (Ret tt,
                       RawConfig.mk
                         (option_map str_value (read obj "auth_server" t_str))
                         vk sk
                         (option_map str_value
                            (read obj "initial_setup_nickname" t_str)))
                  end
              end).
  { intros text obj Hf Ht. unfold read_config_body. rewrite Hf.
    unfold bind at 1. cbn [lift_sum ret].
    unfold bind at 1. rewrite Ht. cbn [lift_sum ret].
    unfold bind at 1.
    rewrite (key_stage (VerifyKey_new L)
               (fun key config =>
                  RawConfig.mk (RawConfig.auth_server config) (Some key)
                    (RawConfig.signing_key config)
                    (RawConfig.initial_setup_nickname config))).
    destruct (key_entry L (VerifyKey_new L) obj "auth_public_key") as [e|[vk|]];
      [reflexivity| |];
      unfold bind at 1;
      rewrite (key_stage (SigningKey_new L)
                 (fun key config =>
                    RawConfig.mk (RawConfig.auth_server config)
                      (RawConfig.auth_verify_key config) (Some key)
                      (RawConfig.initial_setup_nickname config)));
      destruct (key_entry L (SigningKey_new L) obj "secret_key") as [e|[sk|]];
      reflexivity. }
  split.
  { intros e He. unfold read_config, read_config_body, reported. rewrite He.
    unfold bind, lift_sum, raise.
    destruct (is_FileNotFoundError e); reflexivity. }
  split.
  { intros text e Hf Ht Hn. unfold read_config, read_config_body, reported.
    rewrite Hf.
    unfold bind at 1. cbn [lift_sum ret].
    unfold bind at 1. rewrite Ht. cbn [lift_sum raise]. rewrite Hn. reflexivity. }
  split.
  { intros text obj e Hf Ht Hk Hn. unfold read_config.
    rewrite (Hbody text obj Hf Ht), Hk, Hn. reflexivity. }
  split.
  { intros text obj vk e Hf Ht Hk Hs Hn. unfold read_config.
    rewrite (Hbody text obj Hf Ht), Hk, Hs, Hn. reflexivity. }
  intros text obj vk sk Hf Ht Hk Hs. unfold read_config.
  rewrite (Hbody text obj Hf Ht), Hk, Hs. reflexivity.
Qed.

(** A file that does not exist, and a file that is not TOML. *)
Example read_config_examples :
  read_config Demo.config_lib Demo.no_file = (Ret RawConfig.empty, Demo.no_file)
  /\ read_config Demo.config_lib (mk_disk (inr "not toml") None [])
     = (Raise (PyExc (OtherError "TomlDecodeError") "invalid document"),
        mk_disk (inr "not toml") None [malformed]).
Proof. vm_compute. split; reflexivity. Qed.

(** What [read] finds in the dict that [write_config] builds. *)
Lemma config_obj_reads (config : RawConfig.t) :
  read (config_obj L config) "auth_public_key" t_str
  = option_map (fun key => PyStr (HexEncoder_encode L (verify_bytes key)))
      (RawConfig.auth_verify_key config)
  /\ read (config_obj L config) "secret_key" t_str
     = option_map (fun key => PyStr (HexEncoder_encode L (signing_seed key)))
         (RawConfig.signing_key config)
  /\ read (config_obj L config) "initial_setup_nickname" t_str
     = option_map PyStr (RawConfig.initial_setup_nickname config)
  /\ read (config_obj L config) "auth_server" t_str
     = option_map PyStr (RawConfig.auth_server config).
Proof.
  destruct config as [[server|] [vk|] [sk|] [nick|]];
    vm_compute; repeat split; reflexivity.
Qed.

(** X21.  What [write_config] writes, [read_config] reads back: for a
    library whose TOML parser reads the written document back, whose
    hex decoder inverts its encoder on the keys at hand, with hex text
    that is not empty, and whose key constructors rebuild these keys,
    and when the file can be opened for writing, [read_config] after
    [write_config(config)] returns [config], every field that was set
    and no other, and prints nothing. *)
Theorem read_config_after_write_config (config : RawConfig.t) (d : disk) :
  write_error d = None ->
  toml_load L (toml_dump L (config_obj L config)) = inr (config_obj L config) ->
  (forall key, RawConfig.auth_verify_key config = Some key ->
     HexEncoder_encode L (verify_bytes key) <> ""
     /\ HexEncoder_decode L (HexEncoder_encode L (verify_bytes key))
        = inr (verify_bytes key)
     /\ VerifyKey_new L (verify_bytes key) = inr key) ->
  (forall key, RawConfig.signing_key config = Some key ->
     HexEncoder_encode L (signing_seed key) <> ""
     /\ HexEncoder_decode L (HexEncoder_encode L (signing_seed key))
        = inr (signing_seed key)
     /\ SigningKey_new L (signing_seed key) = inr key) ->
  exists d',
    write_config L config d = (Ret tt, d')
    /\ read_config L d' = (Ret config, d')
    /\ printed d' = printed d.
Proof.
  intros Hw Htoml Hvk Hsk.
  unfold write_config. rewrite Hw. eexists. split; [reflexivity|].
  split; [|reflexivity].
  unfold read_config. cbn [pah_conf].
  unfold read_config_body. unfold bind at 1. cbn [lift_sum ret].
  unfold bind at 1. rewrite Htoml. cbn [lift_sum ret].
  destruct config as [server vk sk nick].
  cbn [RawConfig.auth_verify_key RawConfig.signing_key] in Hvk, Hsk.
  assert (Hv : match vk with
               | Some key =>
                   String.eqb (HexEncoder_encode L (verify_bytes key)) "" = false
                   /\ HexEncoder_decode L (HexEncoder_encode L (verify_bytes key))
                      = inr (verify_bytes key)
                   /\ VerifyKey_new L (verify_bytes key) = inr key
               | None => True
               end).
  { destruct vk as [key|]; [|exact I].
    destruct (Hvk key eq_refl) as (Hne & Hd & Hn).
    split; [apply String.eqb_neq; exact Hne|]. split; assumption. }
  assert (Hs : match sk with
               | Some key =>
                   String.eqb (HexEncoder_encode L (signing_seed key)) "" = false
                   /\ HexEncoder_decode L (HexEncoder_encode L (signing_seed key))
                      = inr (signing_seed key)
                   /\ SigningKey_new L (signing_seed key) = inr key
               | None => True
               end).
  { destruct sk as [key|]; [|exact I].
    destruct (Hsk key eq_refl) as (Hne & Hd & Hn).
    split; [apply String.eqb_neq; exact Hne|]. split; assumption. }
  clear Hvk Hsk Htoml.
  destruct (config_obj_reads (RawConfig.mk server vk sk nick))
    as (R1 & R2 & R3 & R4).
  cbn [RawConfig.auth_server RawConfig.auth_verify_key RawConfig.signing_key
       RawConfig.initial_setup_nickname] in R1, R2, R3, R4.
  rewrite R1, R2, R3, R4. clear R1 R2 R3 R4.
  destruct vk as [[vkb]|], sk as [[skb]|];
    cbn [verify_bytes signing_seed] in Hv, Hs;
    try destruct Hv as (Hv1 & Hv2 & Hv3);
    try destruct Hs as (Hs1 & Hs2 & Hs3);
    cbn [option_map truthy text_of str_value verify_bytes signing_seed];
    rewrite ?Hv1, ?Hs1; cbn [negb];
    unfold bind, lift_sum, modify, ret, raise;
    rewrite ?Hv2; cbv beta iota; rewrite ?Hv3; cbv beta iota;
    rewrite ?Hs2; cbv beta iota; rewrite ?Hs3; cbv beta iota;
    cbn [RawConfig.auth_server RawConfig.auth_verify_key RawConfig.signing_key
         RawConfig.initial_setup_nickname RawConfig.empty];
    destruct server, nick; reflexivity.
Qed.

End ConfigFile.

Lemma read_config_after_write_config_witness :
  exists d',
    write_config Demo.config_lib Demo.nickname_and_keys Demo.no_file = (Ret tt, d')
    /\ read_config Demo.config_lib d' = (Ret Demo.nickname_and_keys, d')
    /\ printed d' = printed Demo.no_file.
Proof.
  apply (read_config_after_write_config Demo.config_lib Demo.nickname_and_keys
           Demo.no_file).
  - reflexivity.
  - vm_compute. reflexivity.
  - intros key H. injection H as <-. vm_compute.
    split; [discriminate|]. split; reflexivity.
  - intros key H. injection H as <-. vm_compute.
    split; [discriminate|]. split; reflexivity.
Defined.

(* ================================================================== *)
(** * Further properties: the answer to the descriptors *)
(* ================================================================== *)

Section CompileResult.

Variable E : Externals.
Variable self : Connection.






End CompileResult.
